(** * The RAG chat pipeline: prompt assembly, the RAG decorator, the chat
    model client and document ingestion, as a shallow embedding.

    Source files embedded here:
    - [core/models/ollamaModel.ts]  (class [OllamaModel])
    - [core/models/ragModel.ts]     ([buildRAGPrompt], class [RAGModel])
    - the retrieval chain           ([buildPrompt],
                                     [executeRetrievalChain])
    - the vector store adapter      ([addDocumentsToVectorStore],
                                     [searchSimilarDocuments])
    - [app/page.tsx]                ([handleSubmit] of the chat page)
    - [app/api/chat/route.ts]       ([POST])
    - [core/rag/embedding.ts]       ([createEmbeddings], [embedDocuments],
                                     [embedChunks])
    - [core/tools/GetCurrentTimeTool.ts]  ([getFormattedTime])

    Conventions.  A JavaScript string is a Rocq [string] holding its UTF-8
    bytes, so [TextEncoder.encode] is the identity on the bytes, while
    [.length] counts UTF-16 code units ([Js.length]).  A JavaScript number
    that the program uses as a count, an index, a threshold or a clock
    reading is an integer ([nat] or [Z]).  Everything the program awaits
    from outside (the chat model, the tools, the vector database, the
    clock, the caller's callback) is an oracle acting on an abstract world
    [W]; exceptions and effects are threaded by the monad [M].  A run is
    followed to its end: a stream of the model is the finite sequence of
    fragments it yields, ended normally or by an exception, and the
    response stream is seen from its producer, through the controller that
    [start] receives (nobody cancels it meanwhile).  What is thrown is an
    [Error], some other value, or null/undefined ([Js.Thrown]); the metadata
    of a document is a map from keys to the text of their values.  Calls
    to [console.log]/[console.error] have no effect on any value the
    program computes and are left out.  On the page, the updates of the
    React state are applied in the order they are queued, to the state
    that [handleSubmit] started from, and the bytes received are those of
    a UTF-8 text. *)

From Stdlib Require Import ZArith Ascii String.
From stdpp Require Import base tactics option list gmap strings pretty.

(** ** JavaScript values the program handles *)

Module Js.

Definition dquote : string := String "034"%char EmptyString.
Definition backslash : string := String "092"%char EmptyString.
Definition nl : string := String "010"%char EmptyString.

(** [s.length]: the number of UTF-16 code units of the text whose UTF-8
    bytes are [s].  A continuation byte adds nothing, the lead byte of a
    four-byte sequence stands for a surrogate pair. *)
Definition utf16_units (c : ascii) : nat :=
  let n := N_of_ascii c in
  if (n <? 128)%N then 1
  else if (n <? 192)%N then 0
  else if (n <? 240)%N then 1
  else 2.

Fixpoint length (s : string) : nat :=
  match s with
  | EmptyString => 0
  | String c r => utf16_units c + length r
  end.

(** Truthiness of a string: every string but the empty one. *)
Definition truthy (s : string) : bool :=
  match s with
  | EmptyString => false
  | String _ _ => true
  end.

(** [a || b] on values that are [undefined] or a string. *)
Definition or_else (a b : option string) : option string :=
  match a with
  | Some s => if truthy s then a else b
  | None => b
  end.

Definition truthy_opt (a : option string) : bool :=
  match a with
  | Some s => truthy s
  | None => false
  end.

(** What a [throw] (or a rejected promise) carries.  Of an object that
    is no [Error] the program may look at three things: what [String]
    makes of it, its [message] (a string, when it has one) and its
    [constructor], of which only matters whether it is null or undefined
    ([missing], with [true] for null) or anything else.  An object that
    [String] cannot convert, or whose [message] is no string, is outside
    the embedding. *)
Inductive Thrown : Type :=
| ErrorObject (name message : string)   (* an instance of [Error], with
                                           the constructor that made it *)
| OtherValue (text : string)            (* a primitive value other than
                                           null and undefined; [text] is
                                           what [String] makes of it *)
| ObjectValue (text : string) (message : option string)
              (missing : option bool)   (* an object that is no [Error] *)
| Nullish (is_null : bool).             (* [null] or [undefined] *)

(** [String(error)]; for an [Error] this is [Error.prototype.toString]. *)
Definition String_of (e : Thrown) : string :=
  match e with
  | ErrorObject name message =>
      if truthy name then
        if truthy message then name +:+ ": " +:+ message else name
      else message
  | OtherValue text => text
  | ObjectValue text _ _ => text
  | Nullish true => "null"
  | Nullish false => "undefined"
  end.

(** Whether the [constructor] of a value that is neither null nor
    undefined is null or undefined ([Some true] for null). *)
Definition missing_constructor (e : Thrown) : option bool :=
  match e with
  | ObjectValue _ _ missing => missing
  | _ => None
  end.

(** [error instanceof Error ? error.message : String(error)] *)
Definition message_or_String (e : Thrown) : string :=
  match e with
  | ErrorObject _ message => message
  | _ => String_of e
  end.

(** The [TypeError] raised by reading a property of null or undefined. *)
Definition TypeError_read (is_null : bool) (prop : string) : Thrown :=
  ErrorObject "TypeError"
    ("Cannot read properties of " +:+ (if is_null then "null" else "undefined")
     +:+ " (reading '" +:+ prop +:+ "')").

(** Numbers in template literals: integers print in decimal. *)
Definition Number_toString (z : Z) : string := pretty z.
Definition index_toString (i : nat) : string := pretty i.

(** [Array.prototype.join] *)
Fixpoint join (sep : string) (l : list string) : string :=
  match l with
  | [] => EmptyString
  | x :: r =>
      match r with
      | [] => x
      | _ :: _ => x +:+ sep +:+ join sep r
      end
  end.

(** [JSON.stringify] on a string. *)
Definition hex_digit (n : N) : ascii :=
  match n with
  | 0 => "0" | 1 => "1" | 2 => "2" | 3 => "3" | 4 => "4" | 5 => "5"
  | 6 => "6" | 7 => "7" | 8 => "8" | 9 => "9" | 10 => "a" | 11 => "b"
  | 12 => "c" | 13 => "d" | 14 => "e" | _ => "f"
  end%char%N.

Definition json_escape (c : ascii) : string :=
  let n := N_of_ascii c in
  if (n =? 34)%N then backslash +:+ dquote
  else if (n =? 92)%N then backslash +:+ backslash
  else if (n =? 8)%N then backslash +:+ "b"
  else if (n =? 9)%N then backslash +:+ "t"
  else if (n =? 10)%N then backslash +:+ "n"
  else if (n =? 12)%N then backslash +:+ "f"
  else if (n =? 13)%N then backslash +:+ "r"
  else if (n <? 32)%N then
    backslash +:+ "u00" +:+
    String (hex_digit (n / 16)) (String (hex_digit (n mod 16)) EmptyString)
  else String c EmptyString.

Fixpoint json_escape_all (s : string) : string :=
  match s with
  | EmptyString => EmptyString
  | String c r => json_escape c +:+ json_escape_all r
  end.

Definition JSON_string (s : string) : string :=
  dquote +:+ json_escape_all s +:+ dquote.

(** [JSON.stringify] on an object literal: the defined properties in
    order, [undefined] ones left out. *)
Definition JSON_property (kv : string * option string) : option string :=
  match kv with
  | (k, Some v) => Some (JSON_string k +:+ ":" +:+ JSON_string v)
  | (_, None) => None
  end.

Definition JSON_object (props : list (string * option string)) : string :=
  "{" +:+ join "," (omap JSON_property props) +:+ "}".

(** [new TextEncoder().encode(s)] *)
Definition encode (s : string) : list Byte.byte := list_byte_of_string s.

End Js.

(** ** Exceptions and effects *)

(** A computation over a state [St] that returns or throws; effects made
    before a throw stay. *)
Definition M (St A : Type) : Type := St → (Js.Thrown + A) * St.

Definition ret {St A} (a : A) : M St A := λ s, (inr a, s).
Definition throw {St A} (e : Js.Thrown) : M St A := λ s, (inl e, s).
Definition bind {St A B} (c : M St A) (k : A → M St B) : M St B :=
  λ s, match c s with
       | (inr a, s') => k a s'
       | (inl e, s') => (inl e, s')
       end.
Definition try_catch {St A} (c : M St A) (h : Js.Thrown → M St A) : M St A :=
  λ s, match c s with
       | (inr a, s') => (inr a, s')
       | (inl e, s') => h e s'
       end.

Notation "'let!' x := c 'in' k" := (bind c (λ x, k))
  (at level 10, x name, c at level 100, k at level 200).
Notation "c ;; k" := (bind c (λ _, k))
  (at level 100, k at level 200, right associativity).

(** [for (const x of xs) body], and [xs.map((x, index) => body)] with an
    effectful body. *)
Fixpoint for_of {St A} (xs : list A) (body : A → M St unit) : M St unit :=
  match xs with
  | [] => ret tt
  | x :: r => body x ;; for_of r body
  end.

Fixpoint map_index_from {St A B} (i : nat) (f : A → nat → M St B) (xs : list A)
  : M St (list B) :=
  match xs with
  | [] => ret []
  | x :: r =>
      let! y := f x i in
      let! ys := map_index_from (S i) f r in
      ret (y :: ys)
  end.

Definition Array_map {St A B} (f : A → nat → M St B) (xs : list A)
  : M St (list B) :=
  map_index_from 0 f xs.

(** An async iterable that is consumed to its end: the items it yields and
    then either its normal end or the exception that ends it. *)
Definition AsyncStream (A : Type) : Type := list A * option Js.Thrown.

Definition for_await {St A} (s : AsyncStream A) (body : A → M St unit)
  : M St unit :=
  for_of s.1 body ;;
  match s.2 with
  | Some e => throw e
  | None => ret tt
  end.

(** ** Prompt assembly *)

Module Prompt.

Abbreviation Metadata := (gmap string string).

(** A retrieved document as the prompt builders take it. *)
Record RetrievedDocument : Type := {
  content : string;
  metadata : Metadata;
}.

Definition label (index : nat) : string :=
  "[文档 " +:+ Js.index_toString (index + 1) +:+ "]".

(** [`[文档 ${index + 1}]\n${doc.content}`] *)
Definition section (doc : RetrievedDocument) (index : nat) : string :=
  label index +:+ Js.nl +:+ content doc.

Definition contextSections (retrievedDocs : list RetrievedDocument) : string :=
  Js.join (Js.nl +:+ Js.nl) (imap (λ index doc, section doc index) retrievedDocs).

Definition header : string :=
  "基于以下检索到的文档内容回答用户的问题。如果文档中没有相关信息，请如实说明。"
  +:+ Js.nl +:+ Js.nl +:+ "检索到的文档内容：" +:+ Js.nl.

Definition instruction : string :=
  "请基于上述文档内容回答问题，并引用相关的文档编号。".

Definition template (query context : string) : string :=
  header +:+ context +:+ Js.nl +:+ Js.nl +:+ "用户问题：" +:+ query
  +:+ Js.nl +:+ Js.nl +:+ instruction.

(** [buildRAGPrompt] of [ragModel.ts] *)
Definition buildRAGPrompt (query : string) (retrievedDocs : list RetrievedDocument)
  : string :=
  if decide (List.length retrievedDocs = 0) then query
  else template query (contextSections retrievedDocs).

(** [buildPrompt] of the retrieval chain *)
Definition buildPrompt (query : string) (retrievedDocs : list RetrievedDocument)
  : string :=
  template query (contextSections retrievedDocs).

End Prompt.

(** ** The chat model client ([ollamaModel.ts]) *)

Module Ollama.

Inductive Role : Type := user | assistant.

#[global] Instance Role_eq_dec : EqDecision Role.
Proof. solve_decision. Defined.

Record ChatMessage : Type := {
  role : Role;
  content : string;
}.

Inductive ChunkType : Type := Content | Thinking | Error.

Definition type_name (t : ChunkType) : string :=
  match t with
  | Content => "content"
  | Thinking => "thinking"
  | Error => "error"
  end.

Record StreamChunk : Type := {
  type : ChunkType;
  chunk_content : option string;
  chunk_error : option string;
}.

(** The object literals the client builds. *)
Definition content_chunk (content : string) : StreamChunk :=
  {| type := Content; chunk_content := Some content; chunk_error := None |}.
Definition thinking_chunk (thinkingContent : option string) : StreamChunk :=
  {| type := Thinking; chunk_content := thinkingContent; chunk_error := None |}.
Definition error_chunk (error : string) : StreamChunk :=
  {| type := Error; chunk_content := None; chunk_error := Some error |}.

(** The [content] of a model message: a string, or a list of content
    parts. *)
Inductive MessageContent : Type :=
| Text (s : string)
| Parts (parts : list string).

Record ToolCall : Type := {
  name : string;
  args : option string;      (* the arguments object, as JSON text *)
  id : option string;
}.

(** What [model.invoke] resolves to. *)
Record AIResponse : Type := {
  response_content : MessageContent;
  tool_calls : option (list ToolCall);
}.

(** One fragment of [model.stream]; [reasoning_content] and [thinking]
    are the extra fields the client probes, undefined or a string. *)
Record AIMessageChunk : Type := {
  fragment_content : MessageContent;
  reasoning_content : option string;
  thinking : option string;
}.

Inductive BaseMessage : Type :=
| SystemMessage (text : string)
| HumanMessage (text : string)
| AIMessage (response : AIResponse)
| ToolMessage (text : string) (tool_call_id : option string).

(** [new AIMessage(text)] *)
Definition new_AIMessage (text : string) : BaseMessage :=
  AIMessage {| response_content := Text text; tool_calls := Some [] |}.

(** What the client asks of the outside, in order. *)
Inductive Call : Type :=
| InvokeCall (history : list BaseMessage)
| StreamCall (history : list BaseMessage)
| ToolCalled (tool : string) (input : string).

Record Tool (W : Type) : Type := {
  tool_name : string;
  tool_invoke : string → W → (Js.Thrown + string) * W;
}.
Arguments tool_name {W} _.
Arguments tool_invoke {W} _ _ _.

(** The fields of an [OllamaModel] instance: the system prompt read by
    the constructor, the static tool list, and the bound chat model.  A
    stream is taken as the fragments it yields until it ends. *)
Class Instance (W : Type) : Type := {
  systemPrompt : string;
  getTools : list (Tool W);
  model_invoke : list BaseMessage → W → (Js.Thrown + AIResponse) * W;
  model_stream : list BaseMessage → W → AsyncStream AIMessageChunk * W;
}.

(** The state of one request: the outside world, the calls made so far,
    the chunks handed to the caller's callback, and the controller of
    the response stream (its queue of byte chunks and whether it is
    closed). *)
Record Run (W : Type) : Type := {
  world : W;
  calls : list Call;
  delivered : list StreamChunk;
  queue : list (list Byte.byte);
  closed : bool;
}.
Arguments world {W} _.
Arguments calls {W} _.
Arguments delivered {W} _.
Arguments queue {W} _.
Arguments closed {W} _.

Definition fresh {W} (w : W) : Run W :=
  {| world := w; calls := []; delivered := []; queue := []; closed := false |}.

Section Client.
Context {W : Type} `{!Instance W}.

Definition on_world {A} (f : W → (Js.Thrown + A) * W) : M (Run W) A :=
  λ r, let '(a, w) := f (world r) in
       (a, {| world := w; calls := calls r; delivered := delivered r;
              queue := queue r; closed := closed r |}).

Definition record_call (c : Call) : M (Run W) unit :=
  λ r, (inr tt, {| world := world r; calls := calls r ++ [c];
                   delivered := delivered r; queue := queue r;
                   closed := closed r |}).

(** [await this.model.invoke(history)] *)
Definition invoke (history : list BaseMessage) : M (Run W) AIResponse :=
  record_call (InvokeCall history) ;;
  on_world (model_invoke history).

(** [await this.model.stream(history)], with the stream it gives *)
Definition stream (history : list BaseMessage)
  : M (Run W) (AsyncStream AIMessageChunk) :=
  record_call (StreamCall history) ;;
  on_world (λ w, let '(s, w') := model_stream history w in (inr s, w')).

(** [await tool.invoke(input)]; the tool's result goes through
    [String] *)
Definition invoke_tool (tool : Tool W) (input : string) : M (Run W) string :=
  record_call (ToolCalled (tool_name tool) input) ;;
  on_world (tool_invoke tool input).

(** [onChunk(chunk)]: the caller's callback acts on the world and may
    throw. *)
Definition call_back (onChunk : StreamChunk → W → option Js.Thrown * W)
    (chunk : StreamChunk) : M (Run W) unit :=
  λ r, let '(e, w) := onChunk chunk (world r) in
       (match e with Some e => inl e | None => inr tt end,
        {| world := w; calls := calls r; delivered := delivered r ++ [chunk];
           queue := queue r; closed := closed r |}).

Definition TypeError_closed : Js.Thrown :=
  Js.ErrorObject "TypeError" "Invalid state: Controller is already closed".

(** [controller.enqueue(bytes)] and [controller.close()] *)
Definition enqueue (bytes : list Byte.byte) : M (Run W) unit :=
  λ r, if closed r then (inl TypeError_closed, r)
       else (inr tt, {| world := world r; calls := calls r;
                        delivered := delivered r;
                        queue := queue r ++ [bytes]; closed := false |}).

Definition close : M (Run W) unit :=
  λ r, if closed r then (inl TypeError_closed, r)
       else (inr tt, {| world := world r; calls := calls r;
                        delivered := delivered r;
                        queue := queue r; closed := true |}).

(** The constructor's [toolMap]: [tools.forEach(t => map.set(t.name, t))] *)
Definition toolMap : gmap string (Tool W) :=
  foldl (λ m tool, <[tool_name tool := tool]> m) ∅ getTools.

Definition convertToLangChainMessages (messages : list ChatMessage)
  : list BaseMessage :=
  SystemMessage systemPrompt ::
  map (λ msg, match role msg with
              | user => HumanMessage (content msg)
              | assistant => new_AIMessage (content msg)
              end) messages.

(** [chunkAny.reasoning_content || chunkAny.thinking] *)
Definition thinkingContent (chunk : AIMessageChunk) : option string :=
  Js.or_else (reasoning_content chunk) (thinking chunk).

(** The body of the loop of [streamChat]. *)
Definition streamChat_body (onChunk : StreamChunk → W → option Js.Thrown * W)
    (chunk : AIMessageChunk) : M (Run W) unit :=
  match fragment_content chunk with
  | Text content =>
      if Js.truthy content then
        call_back onChunk (content_chunk content) ;;
        if Js.truthy_opt (thinkingContent chunk) then
          if Js.truthy_opt (thinkingContent chunk) then
            call_back onChunk (thinking_chunk (thinkingContent chunk))
          else ret tt
        else ret tt
      else ret tt
  | Parts _ => ret tt
  end.

Definition streamChat (messages : list ChatMessage)
    (onChunk : StreamChunk → W → option Js.Thrown * W) : M (Run W) unit :=
  let langchainMessages := convertToLangChainMessages messages in
  try_catch
    (let! s := stream langchainMessages in
     for_await s (streamChat_body onChunk))
    (λ error, call_back onChunk (error_chunk (Js.message_or_String error))).

(** [JSON.stringify] of a chunk object literal *)
Definition JSON_stringify (chunk : StreamChunk) : string :=
  Js.JSON_object [("type", Some (type_name (type chunk)));
                  ("content", chunk_content chunk);
                  ("error", chunk_error chunk)].

(** [encoder.encode(`data: ${JSON.stringify(chunk)}\n\n`)] *)
Definition sse_frame (chunk : StreamChunk) : list Byte.byte :=
  Js.encode ("data: " +:+ JSON_stringify chunk +:+ Js.nl +:+ Js.nl).

(** [encoder.encode(`data: [DONE]\n\n`)] *)
Definition done_frame : list Byte.byte :=
  Js.encode ("data: [DONE]" +:+ Js.nl +:+ Js.nl).

(** One turn of the loop of [executeToolCalls], on the messages
    collected so far. *)
Definition executeToolCalls_body (toolMessages : list BaseMessage)
    (toolCall : ToolCall) : M (Run W) (list BaseMessage) :=
  match toolMap !! name toolCall with
  | Some tool =>
      try_catch
        (let! result := invoke_tool tool (default "{}" (args toolCall)) in
         ret (toolMessages ++ [ToolMessage result (id toolCall)]))
        (λ error,
           ret (toolMessages ++
                [ToolMessage ("Error: " +:+ Js.message_or_String error)
                             (id toolCall)]))
  | None => ret toolMessages
  end.

Fixpoint executeToolCalls_from (toolMessages : list BaseMessage)
    (toolCalls : list ToolCall) : M (Run W) (list BaseMessage) :=
  match toolCalls with
  | [] => ret toolMessages
  | toolCall :: rest =>
      let! toolMessages' := executeToolCalls_body toolMessages toolCall in
      executeToolCalls_from toolMessages' rest
  end.

Definition executeToolCalls (toolCalls : list ToolCall)
  : M (Run W) (list BaseMessage) :=
  executeToolCalls_from [] toolCalls.

(** The two loop bodies of [createStreamingResponse]. *)
Definition final_body (chunk : AIMessageChunk) : M (Run W) unit :=
  match fragment_content chunk with
  | Text content =>
      if Js.truthy content then enqueue (sse_frame (content_chunk content))
      else ret tt
  | Parts _ => ret tt
  end.

Definition direct_body (chunk : AIMessageChunk) : M (Run W) unit :=
  match fragment_content chunk with
  | Text content =>
      if Js.truthy content then
        enqueue (sse_frame (content_chunk content)) ;;
        if Js.truthy_opt (thinkingContent chunk) then
          if Js.truthy_opt (thinkingContent chunk) then
            enqueue (sse_frame (thinking_chunk (thinkingContent chunk)))
          else ret tt
        else ret tt
      else ret tt
  | Parts _ => ret tt
  end.

(** The [try] block of [start(controller)]. *)
Definition start_try (langchainMessages : list BaseMessage) : M (Run W) unit :=
  let! response := invoke langchainMessages in
  match tool_calls response with
  | Some ((_ :: _) as requested) =>
      let! toolMessages := executeToolCalls requested in
      let langchainMessages :=
        langchainMessages ++ [AIMessage response] ++ toolMessages in
      let! finalStream := stream langchainMessages in
      for_await finalStream final_body
  | _ =>
      let! s := stream langchainMessages in
      for_await s direct_body
  end ;;
  enqueue done_frame ;;
  close.

Definition start_catch (error : Js.Thrown) : M (Run W) unit :=
  enqueue (sse_frame (error_chunk (Js.String_of error))) ;;
  close.

Definition start (langchainMessages : list BaseMessage) : M (Run W) unit :=
  try_catch (start_try langchainMessages) start_catch.

(** [createStreamingResponse]: the stream whose [start] is run on a
    new controller. *)
Definition createStreamingResponse (messages : list ChatMessage)
  : M (Run W) unit :=
  start (convertToLangChainMessages messages).

End Client.

End Ollama.

(** ** The vector store adapter *)

Module VectorStore.

Import Prompt.

Inductive EmbeddingModelType : Type := openai | ollama.

Record Document : Type := {
  pageContent : string;
  metadata : Metadata;
}.

(** The optional [options] argument of the adapter's functions. *)
Record Options : Type := {
  host : option string;
  port : option Z;
  apiKey : option string;
  model : option string;
  baseUrl : option string;
}.

(** What [collection.query] resolves to: one row per query embedding. *)
Record QueryResult : Type := {
  ids : option (list (list string));
  documents : option (list (list (option string)));
  metadatas : option (list (list (option Metadata)));
}.

(** The collaborators: the clock, the store behind [createVectorStore]
    and its [addDocuments], and the embedding provider together with the
    database client behind a similarity query. *)
Class Backend (W : Type) : Type := {
  Store : Type;
  Date_now : W → Z * W;
  createVectorStore :
    string → EmbeddingModelType → option Options → W → (Js.Thrown + Store) * W;
  addDocuments :
    Store → list Document → list string → W → (Js.Thrown + unit) * W;
  embed_and_query :
    string → Z → string → EmbeddingModelType → option Options →
    W → (Js.Thrown + QueryResult) * W;
}.

Section Adapter.
Context {W : Type} `{!Backend W}.

Definition now : M W Z := λ w, let '(t, w') := Date_now w in (inr t, w').

(** [metadatas?.[index] || { index, timestamp: Date.now() }] *)
Definition metadata_for (given : option (list Metadata)) (index : nat)
  : M W Metadata :=
  match given ≫= (λ l, l !! index) with
  | Some m => ret m
  | None =>
      let! t := now in
      ret (<["index" := Js.index_toString index]>
           (<["timestamp" := Js.Number_toString t]> ∅))
  end.

(** [`doc-${Date.now()}-${index}`] *)
Definition make_id (index : nat) : M W string :=
  let! t := now in
  ret ("doc-" +:+ Js.Number_toString t +:+ "-" +:+ Js.index_toString index).

Definition addDocumentsToVectorStore (texts : list string)
    (given : option (list Metadata)) (collectionName : string)
    (embeddingType : EmbeddingModelType) (options : option Options)
  : M W (list string) :=
  let! vectorStore := createVectorStore collectionName embeddingType options in
  let! docs :=
    Array_map (λ text index,
                 let! m := metadata_for given index in
                 ret {| pageContent := text; metadata := m |}) texts in
  let! ids := Array_map (λ _ index, make_id index) texts in
  addDocuments vectorStore docs ids ;;
  ret ids.

(** Reading a property of a caught value: a [TypeError] on null and
    undefined. *)
Definition read_property {St} (error : Js.Thrown) (prop : string) : M St unit :=
  match error with
  | Js.Nullish is_null => throw (Js.TypeError_read is_null prop)
  | _ => ret tt
  end.

(** [error.constructor.name]: reading [constructor] throws on null and
    undefined, reading its [name] throws when the constructor is null or
    undefined. *)
Definition read_constructor_name {St} (error : Js.Thrown) : M St unit :=
  match error with
  | Js.Nullish is_null => throw (Js.TypeError_read is_null "constructor")
  | Js.ObjectValue _ _ (Some is_null) => throw (Js.TypeError_read is_null "name")
  | _ => ret tt
  end.

(** The rows of a query result zipped into documents. *)
Definition zip_documents (results : QueryResult) : list Document :=
  match ids results with
  | Some (ids0 :: _) =>
      let docs := default [] (documents results ≫= head) in
      let metas := default [] (metadatas results ≫= head) in
      imap (λ i _,
              {| pageContent :=
                   match mjoin (docs !! i) with
                   | Some text => text
                   | None => ""
                   end;
                 metadata := default ∅ (mjoin (metas !! i)) |}) ids0
  | _ => []
  end.

Definition searchSimilarDocuments (query : string) (k : Z)
    (collectionName : string) (embeddingType : EmbeddingModelType)
    (options : option Options) : M W (list Document) :=
  try_catch
    (let! results :=
       embed_and_query query k collectionName embeddingType options in
     ret (zip_documents results))
    (λ error,
       read_property error "message" ;;
       read_property error "stack" ;;
       throw error).

End Adapter.

End VectorStore.

(** ** The RAG decorator ([ragModel.ts]) *)

Module RAG.

Import Prompt Ollama VectorStore.

(** The constructor's argument. *)
Record RAGModelOptions : Type := {
  opt_collectionName : option string;
  opt_embeddingType : option EmbeddingModelType;
  opt_k : option Z;
  opt_chromaHost : option string;
  opt_chromaPort : option Z;
  opt_embeddingModel : option string;
  opt_embeddingApiKey : option string;
  opt_embeddingBaseUrl : option string;
  opt_enableRAG : option bool;
  opt_ragThreshold : option Z;
}.

(** The variables of [process.env] the constructor reads; the port is
    the integer [parseInt] makes of its text. *)
Record Env : Type := {
  CHROMA_COLLECTION : option string;
  EMBEDDING_TYPE : option EmbeddingModelType;
  CHROMA_HOST : option string;
  CHROMA_PORT : option Z;
  EMBEDDING_MODEL : option string;
}.

(** The field [ragOptions]. *)
Record Options : Type := {
  collectionName : string;
  embeddingType : EmbeddingModelType;
  k : Z;
  chromaHost : string;
  chromaPort : Z;
  embeddingModel : option string;
  embeddingApiKey : option string;
  embeddingBaseUrl : option string;
  enableRAG : bool;
  ragThreshold : Z;
}.

(** [a || b] on an optional number and on an optional string. *)
Definition number_or (a : option Z) (b : Z) : Z :=
  match a with
  | Some n => if decide (n = 0%Z) then b else n
  | None => b
  end.

Definition string_or (a : option string) (b : string) : string :=
  match a with
  | Some s => if Js.truthy s then s else b
  | None => b
  end.

Definition constructor (options : RAGModelOptions) (env : Env) : Options :=
  {| collectionName :=
       string_or (opt_collectionName options)
                 (string_or (CHROMA_COLLECTION env) "rag-documents");
     embeddingType :=
       default (default ollama (EMBEDDING_TYPE env)) (opt_embeddingType options);
     k := number_or (opt_k options) 4;
     chromaHost :=
       string_or (opt_chromaHost options)
                 (string_or (CHROMA_HOST env) "localhost");
     chromaPort :=
       number_or (opt_chromaPort options) (default 8000%Z (CHROMA_PORT env));
     embeddingModel :=
       Js.or_else (opt_embeddingModel options) (EMBEDDING_MODEL env);
     embeddingApiKey := opt_embeddingApiKey options;
     embeddingBaseUrl := opt_embeddingBaseUrl options;
     enableRAG :=
       match opt_enableRAG options with
       | Some false => false
       | _ => true
       end;
     ragThreshold := number_or (opt_ragThreshold options) 0 |}.

Definition shouldUseRAG (ragOptions : Options) (message : string) : bool :=
  if negb (enableRAG ragOptions) then false
  else if (0 <? ragThreshold ragOptions)%Z then
    (ragThreshold ragOptions <=? Z.of_nat (Js.length message))%Z
  else true.

Section Decorator.
Context {W : Type} `{!Ollama.Instance W} `{!VectorStore.Backend W}.
Variable ragOptions : Options.

Definition search (message : string) : M W (list Document) :=
  searchSimilarDocuments message (k ragOptions) (collectionName ragOptions)
    (embeddingType ragOptions)
    (Some {| host := Some (chromaHost ragOptions);
             port := Some (chromaPort ragOptions);
             apiKey := embeddingApiKey ragOptions;
             model := embeddingModel ragOptions;
             baseUrl := embeddingBaseUrl ragOptions |}).

(** The documents kept and converted by [enhanceMessageWithRAG]. *)
Definition retrievedDocuments (retrievedDocs : list Document)
  : list RetrievedDocument :=
  map (λ doc, {| Prompt.content := pageContent doc;
                 Prompt.metadata := VectorStore.metadata doc |})
      (filter (λ doc, Js.truthy (pageContent doc) = true) retrievedDocs).

(** The search returns an array (a list here), so the [Array.isArray]
    guard of the source never takes its early return.  The handler builds
    the object it logs, reading [error.message], [error.stack] and
    [error.constructor.name] in this order, before it returns the
    message. *)
Definition enhanceMessageWithRAG (message : string) : M (Run W) string :=
  try_catch
    (let! retrievedDocs := on_world (search message) in
     ret (buildRAGPrompt message (retrievedDocuments retrievedDocs)))
    (λ error,
       read_property error "message" ;;
       read_property error "stack" ;;
       read_constructor_name error ;;
       ret message).

(** [messages[messages.length - 1]] and [messages.slice(0, -1)] *)
Definition lastMessage (messages : list ChatMessage) : option ChatMessage :=
  match List.length messages with
  | 0 => None
  | S n => messages !! n
  end.

Definition slice_0_m1 (messages : list ChatMessage) : list ChatMessage :=
  take (List.length messages - 1) messages.

Definition streamChat (messages : list ChatMessage)
    (onChunk : StreamChunk → W → option Js.Thrown * W) : M (Run W) unit :=
  match lastMessage messages with
  | Some last =>
      if decide (role last = user) then
        if shouldUseRAG ragOptions (content last) then
          let! enhancedContent := enhanceMessageWithRAG (content last) in
          let enhancedMessages :=
            slice_0_m1 messages ++
            [{| role := user; content := enhancedContent |}] in
          Ollama.streamChat enhancedMessages onChunk
        else Ollama.streamChat messages onChunk
      else Ollama.streamChat messages onChunk
  | None => Ollama.streamChat messages onChunk
  end.

Definition createStreamingResponse (messages : list ChatMessage)
  : M (Run W) unit :=
  match lastMessage messages with
  | Some last =>
      if decide (role last = user) then
        if shouldUseRAG ragOptions (content last) then
          let! enhancedContent := enhanceMessageWithRAG (content last) in
          let enhancedMessages :=
            slice_0_m1 messages ++
            [{| role := user; content := enhancedContent |}] in
          Ollama.createStreamingResponse enhancedMessages
        else Ollama.createStreamingResponse messages
      else Ollama.createStreamingResponse messages
  | None => Ollama.createStreamingResponse messages
  end.

(** [updateRAGOptions] on the two fields that the decision reads. *)
Definition updateRAGOptions (new_enableRAG : option bool)
    (new_ragThreshold : option Z) : Options :=
  {| collectionName := collectionName ragOptions;
     embeddingType := embeddingType ragOptions;
     k := k ragOptions;
     chromaHost := chromaHost ragOptions;
     chromaPort := chromaPort ragOptions;
     embeddingModel := embeddingModel ragOptions;
     embeddingApiKey := embeddingApiKey ragOptions;
     embeddingBaseUrl := embeddingBaseUrl ragOptions;
     enableRAG := default (enableRAG ragOptions) new_enableRAG;
     ragThreshold := default (ragThreshold ragOptions) new_ragThreshold |}.

End Decorator.

End RAG.

(** ** Vocabulary of the statements *)

(** [s] ends with [q]. *)
Definition ends_with (s q : string) : Prop := ∃ pre, s = pre +:+ q.

Definition blank_line : string := Js.nl +:+ Js.nl.

(** The context sections of the documents [docs], numbered from position
    [first] on, joined by blank lines. *)
Definition sections_from (first : nat) (docs : list Prompt.RetrievedDocument)
  : string :=
  Js.join blank_line (imap (λ j doc, Prompt.section doc (first + j)) docs).

(** A separator that is only there next to a non-empty block. *)
Definition blank_line_beside {A} (block : list A) : string :=
  match block with
  | [] => EmptyString
  | _ :: _ => blank_line
  end.

(** What follows the context sections in the template. *)
Definition question_part (query : string) : string :=
  blank_line +:+ "用户问题：" +:+ query +:+ blank_line +:+ Prompt.instruction.

(** No character of [s] is a control character; in particular [s] has no
    line break. *)
Fixpoint no_control (s : string) : bool :=
  match s with
  | EmptyString => true
  | String c r => (32 <=? N_of_ascii c)%N && no_control r
  end.

(** Splitting an identifier at its last dash. *)
Fixpoint has_dash (s : string) : bool :=
  match s with
  | EmptyString => false
  | String c r => if decide (c = "-"%char) then true else has_dash r
  end.

Fixpoint after_last_dash (s : string) : string :=
  match s with
  | EmptyString => EmptyString
  | String c r =>
      if has_dash r then after_last_dash r
      else if decide (c = "-"%char) then r else s
  end.

(** The world after [n] calls of [Date.now()] from the world [w] on, and
    what the call after them returns. *)
Fixpoint after_readings {W} `{!VectorStore.Backend W} (n : nat) (w : W) : W :=
  match n with
  | 0 => w
  | S n => after_readings n (VectorStore.Date_now w).2
  end.

Definition clock_reading {W} `{!VectorStore.Backend W} (n : nat) (w : W) : Z :=
  (VectorStore.Date_now (after_readings n w)).1.

(** [`doc-${timestamp}-${index}`] *)
Definition doc_id (timestamp : Z) (index : nat) : string :=
  "doc-" +:+ Js.Number_toString timestamp +:+ "-" +:+ Js.index_toString index.

(** What each loop body forwards for one fragment of the model's stream. *)
Definition forwarded_final (chunk : Ollama.AIMessageChunk) : list Ollama.StreamChunk :=
  match Ollama.fragment_content chunk with
  | Ollama.Text content =>
      if Js.truthy content then [Ollama.content_chunk content] else []
  | Ollama.Parts _ => []
  end.

Definition forwarded_direct (chunk : Ollama.AIMessageChunk) : list Ollama.StreamChunk :=
  match Ollama.fragment_content chunk with
  | Ollama.Text content =>
      if Js.truthy content then
        Ollama.content_chunk content ::
        (if Js.truthy_opt (Ollama.thinkingContent chunk)
         then [Ollama.thinking_chunk (Ollama.thinkingContent chunk)] else [])
      else []
  | Ollama.Parts _ => []
  end.

(** [c'] then [c] are the content chunk and the thinking chunk of one
    fragment of [fragments]. *)
Definition from_one_fragment (fragments : list Ollama.AIMessageChunk)
    (c' c : Ollama.StreamChunk) : Prop :=
  ∃ fragment text,
    fragment ∈ fragments ∧
    Ollama.fragment_content fragment = Ollama.Text text ∧
    Js.truthy text = true ∧
    c' = Ollama.content_chunk text ∧
    c = Ollama.thinking_chunk (Ollama.thinkingContent fragment).

(** In [chunks], every thinking chunk comes right after the content chunk
    of the same fragment. *)
Definition thinking_follows_content (fragments : list Ollama.AIMessageChunk)
    (chunks : list Ollama.StreamChunk) : Prop :=
  ∀ i c, chunks !! i = Some c → Ollama.type c = Ollama.Thinking →
    ∃ j c', i = S j ∧ chunks !! j = Some c' ∧ from_one_fragment fragments c' c.

(** The controller of [r] after more byte chunks were enqueued. *)
Definition enqueued {W} (r : Ollama.Run W) (frames : list (list Byte.byte))
  : Ollama.Run W :=
  {| Ollama.world := Ollama.world r; Ollama.calls := Ollama.calls r;
     Ollama.delivered := Ollama.delivered r;
     Ollama.queue := Ollama.queue r ++ frames;
     Ollama.closed := Ollama.closed r |}.

(** The tool call [toolCall] is answered by the tool message [m]: the
    registry has a tool of that name, and [m] carries the call's id and
    either the tool's result or, when the tool threw, the text [Error: ]
    followed by the error's message. *)
Definition answers {W} `{!Ollama.Instance W} (toolCall : Ollama.ToolCall)
    (m : Ollama.BaseMessage) : Prop :=
  ∃ tool w,
    Ollama.toolMap !! Ollama.name toolCall = Some tool ∧
    match Ollama.tool_invoke tool (default "{}" (Ollama.args toolCall)) w with
    | (inr result, _) => m = Ollama.ToolMessage result (Ollama.id toolCall)
    | (inl error, _) =>
        m = Ollama.ToolMessage ("Error: " +:+ Js.message_or_String error)
                               (Ollama.id toolCall)
    end.

Definition is_tool_event (c : Ollama.Call) : Prop :=
  match c with
  | Ollama.ToolCalled _ _ => True
  | _ => False
  end.

Definition resolvable {W} `{!Ollama.Instance W} (toolCall : Ollama.ToolCall) : Prop :=
  is_Some (Ollama.toolMap !! Ollama.name toolCall).

(** A fragment for which the loops emit nothing: its content is not a
    string, or is the empty string. *)
Definition silent (chunk : Ollama.AIMessageChunk) : Prop :=
  match Ollama.fragment_content chunk with
  | Ollama.Text text => Js.truthy text = false
  | Ollama.Parts _ => True
  end.

(** The request state [r] once the outside world has moved to [w]. *)
Definition with_world {W} (r : Ollama.Run W) (w : W) : Ollama.Run W :=
  {| Ollama.world := w; Ollama.calls := Ollama.calls r;
     Ollama.delivered := Ollama.delivered r; Ollama.queue := Ollama.queue r;
     Ollama.closed := Ollama.closed r |}.

(** ** Concrete inputs *)

(** Two documents of the end-to-end scenario. *)
Definition paris : Prompt.RetrievedDocument :=
  {| Prompt.content := "Paris is the capital of France."; Prompt.metadata := ∅ |}.
Definition lyon : Prompt.RetrievedDocument :=
  {| Prompt.content := "Lyon is a city in France."; Prompt.metadata := ∅ |}.

(** A scripted chat backend, for running the client on concrete inputs. *)
Module Sample.
Import Ollama.

(** The world is the clock. *)
Definition World : Type := Z.

Definition get_current_time : Tool World :=
  {| tool_name := "get_current_time";
     tool_invoke := λ _ w, (inr "2026/01/01 08:00:00", (w + 1)%Z) |}.

(** A timestamp tool whose invocation fails. *)
Definition get_current_timestamp : Tool World :=
  {| tool_name := "get_current_timestamp";
     tool_invoke := λ _ w, (inl (Js.ErrorObject "Error" "clock unavailable"), w) |}.

Definition ask_time : ToolCall :=
  {| name := "get_current_time"; args := None; id := Some "call_1" |}.
Definition ask_timestamp : ToolCall :=
  {| name := "get_current_timestamp"; args := Some "{}"; id := Some "call_2" |}.
Definition ask_weather : ToolCall :=
  {| name := "get_weather"; args := Some "{}"; id := Some "call_3" |}.

Definition plain_answer : AIResponse :=
  {| response_content := Text "Paris."; tool_calls := Some [] |}.
Definition wants_tools : AIResponse :=
  {| response_content := Text "";
     tool_calls := Some [ask_time; ask_weather; ask_timestamp] |}.
Definition wants_time : AIResponse :=
  {| response_content := Text ""; tool_calls := Some [ask_time] |}.

Definition fragments : list AIMessageChunk :=
  [ {| fragment_content := Text "Par"; reasoning_content := Some "capital?";
       thinking := None |};
    {| fragment_content := Text ""; reasoning_content := None;
       thinking := Some "dropped" |};
    {| fragment_content := Parts ["x"]; reasoning_content := Some "dropped";
       thinking := None |};
    {| fragment_content := Text "is."; reasoning_content := None;
       thinking := None |} ].

(** A model that asks for tools when the last message is a question about
    the time and answers directly otherwise; its streams yield
    [fragments]. *)
Definition asks_for (history : list BaseMessage) : AIResponse :=
  match last history with
  | Some (HumanMessage "What time is it?") => wants_tools
  | Some (HumanMessage "time?") => wants_time
  | _ => plain_answer
  end.

#[local] Instance scripted : Instance World :=
  {| systemPrompt := "You are a helpful AI assistant.";
     getTools := [get_current_time; get_current_timestamp];
     model_invoke := λ history w, (inr (asks_for history), w);
     model_stream := λ _ w, ((fragments, None), w) |}.

(** The same model behind a connection that breaks during the stream. *)
#[local] Instance broken : Instance World :=
  {| systemPrompt := "You are a helpful AI assistant.";
     getTools := [get_current_time; get_current_timestamp];
     model_invoke := λ history w, (inr (asks_for history), w);
     model_stream := λ _ w,
       ((take 1 fragments, Some (Js.ErrorObject "Error" "fetch failed")), w) |}.

Definition capital_question : list ChatMessage :=
  [{| role := user; content := "What is the capital of France?" |}].
Definition time_question : list ChatMessage :=
  [{| role := user; content := "What time is it?" |}].

End Sample.

(** Scripted vector stores. *)
Module SampleStore.
Import VectorStore.

(** A store that takes every document; its database is unreachable for
    queries, and the client library rejects with [undefined]. *)
#[local] Instance offline : Backend Z :=
  {| Store := unit;
     Date_now := λ w, (w, (w + 1)%Z);
     createVectorStore := λ _ _ _ w, (inr tt, w);
     addDocuments := λ _ _ _ w, (inr tt, w);
     embed_and_query := λ _ _ _ _ _ w, (inl (Js.Nullish false), w) |}.

(** A store with one record. *)
#[local] Instance online : Backend Z :=
  {| Store := unit;
     Date_now := λ w, (w, (w + 1)%Z);
     createVectorStore := λ _ _ _ w, (inr tt, w);
     addDocuments := λ _ _ _ w, (inr tt, w);
     embed_and_query := λ _ _ _ _ _ w,
       (inr {| ids := Some [["doc-1700000000000-0"]];
               documents := Some [[Some "Paris is the capital of France."]];
               metadatas := None |}, w) |}.

(** A store whose client rejects a query with an object whose
    [constructor] is undefined (the object [{ constructor: undefined }],
    say, of which [String] makes [[object Object]]). *)
#[local] Instance faulty : Backend Z :=
  {| Store := unit;
     Date_now := λ w, (w, (w + 1)%Z);
     createVectorStore := λ _ _ _ w, (inr tt, w);
     addDocuments := λ _ _ _ w, (inr tt, w);
     embed_and_query := λ _ _ _ _ _ w,
       (inl (Js.ObjectValue "[object Object]" None (Some false)), w) |}.

Definition no_options : RAG.RAGModelOptions :=
  {| RAG.opt_collectionName := None; RAG.opt_embeddingType := None;
     RAG.opt_k := None; RAG.opt_chromaHost := None;
     RAG.opt_chromaPort := None; RAG.opt_embeddingModel := None;
     RAG.opt_embeddingApiKey := None; RAG.opt_embeddingBaseUrl := None;
     RAG.opt_enableRAG := None; RAG.opt_ragThreshold := None |}.

Definition no_env : RAG.Env :=
  {| RAG.CHROMA_COLLECTION := None; RAG.EMBEDDING_TYPE := None;
     RAG.CHROMA_HOST := None; RAG.CHROMA_PORT := None;
     RAG.EMBEDDING_MODEL := None |}.

Definition defaults : RAG.Options := RAG.constructor no_options no_env.

End SampleStore.

(** ** More vocabulary *)

(** The tool invocation that a requested call stands for: the tool of that
    name, on the call's arguments or on an empty object. *)
Definition invocation (toolCall : Ollama.ToolCall) : Ollama.Call :=
  Ollama.ToolCalled (Ollama.name toolCall) (default "{}" (Ollama.args toolCall)).

(** ** More concrete inputs *)

Module SampleMore.
Import Ollama.

(** A chat backend that cannot be reached. *)
#[local] Instance down : Instance Z :=
  {| systemPrompt := "You are a helpful AI assistant.";
     getTools := [Sample.get_current_time; Sample.get_current_timestamp];
     model_invoke := λ _ w,
       (inl (Js.ErrorObject "TypeError" "fetch failed"), w);
     model_stream := λ _ w,
       (([], Some (Js.ErrorObject "TypeError" "fetch failed")), w) |}.

(** A callback that takes every chunk. *)
Definition quiet (chunk : StreamChunk) (w : Z) : option Js.Thrown * Z := (None, w).

End SampleMore.

(** ** Reading back what [JSON.stringify] wrote *)

Module JsonRead.

Definition hex_value (c : ascii) : option N :=
  let n := N_of_ascii c in
  if ((48 <=? n) && (n <=? 57))%N then Some (n - 48)%N
  else if ((97 <=? n) && (n <=? 102))%N then Some (n - 87)%N
  else None.

(** The character that a two-character escape stands for. *)
Definition unescape (c : ascii) : option ascii :=
  match c with
  | "034" => Some "034" | "092" => Some "092" | "/" => Some "/"
  | "b" => Some "008" | "t" => Some "009" | "n" => Some "010"
  | "f" => Some "012" | "r" => Some "013"
  | _ => None
  end%char.

Definition cons_text (c : ascii) (p : string * string) : string * string :=
  (String c p.1, p.2).

(** From the text after the opening quote of a string literal: the string
    it denotes and what follows its closing quote.  Of the [\uXXXX]
    escapes only those below 128 are read, each a single byte. *)
Fixpoint string_literal (s : string) : option (string * string) :=
  match s with
  | EmptyString => None
  | String c r =>
      if decide (c = "034"%char) then Some (EmptyString, r)
      else if decide (c = "092"%char) then
        match r with
        | EmptyString => None
        | String e r1 =>
            match unescape e with
            | Some d => cons_text d <$> string_literal r1
            | None =>
                match r1 with
                | String h1 (String h2 (String h3 (String h4 r2))) =>
                    if decide (e = "u"%char ∧ h1 = "0"%char ∧ h2 = "0"%char) then
                      match hex_value h3, hex_value h4 with
                      | Some a, Some b =>
                          if (a <? 8)%N then
                            cons_text (ascii_of_N (16 * a + b))
                              <$> string_literal r2
                          else None
                      | _, _ => None
                      end
                    else None
                | _ => None
                end
            end
        end
      else if (N_of_ascii c <? 32)%N then None
      else cons_text c <$> string_literal r
  end.

(** [s] without the prefix [p], when it has it. *)
Fixpoint after_prefix (p s : string) : option string :=
  match p, s with
  | EmptyString, _ => Some s
  | String a p', String b s' => if decide (a = b) then after_prefix p' s' else None
  | String _ _, EmptyString => None
  end.

(** An optional property [,"key":"value"] at the head of [s]. *)
Definition optional_property (key s : string) : option (option string * string) :=
  match after_prefix ("," +:+ Js.JSON_string key +:+ ":" +:+ Js.dquote) s with
  | Some r =>
      match string_literal r with
      | Some (v, r') => Some (Some v, r')
      | None => None
      end
  | None => Some (None, s)
  end.

(** The objects [{"type":..,"content":..,"error":..}] with string values,
    the last two properties optional, as [JSON.stringify] writes the
    chunks. *)
Definition chunk_object (s : string) : option (string * option string * option string) :=
  r0 ← after_prefix ("{" +:+ Js.JSON_string "type" +:+ ":" +:+ Js.dquote) s;
  '(t, r1) ← string_literal r0;
  '(c, r2) ← optional_property "content" r1;
  '(e, r3) ← optional_property "error" r2;
  if decide (r3 = "}") then Some (t, c, e) else None.

End JsonRead.

(** ** The chat page ([app/page.tsx]): reading the response stream *)

Module ChatPage.

Import Ollama.

Record Message : Type := {
  role : Role;
  content : string;
  thinking : option string;
}.

(** The state of the component. *)
Record State : Type := {
  messages : list Message;
  input : string;
  isLoading : bool;
}.

(** What [fetch] resolves to: the [ok] flag and the body, whose reader
    gives the byte chunks of the network until the stream is done or
    fails. *)
Record Response : Type := {
  ok : bool;
  body : option (AsyncStream (list Byte.byte));
}.

(** [buffer.split("\n\n")]: the pieces between the blank lines, from left
    to right; [current] is the piece being read. *)
Fixpoint split_from (current s : string) : list string :=
  match s with
  | EmptyString => [current]
  | String c r =>
      if decide (c = "010"%char) then
        match r with
        | String c' r' =>
            if decide (c' = "010"%char) then current :: split_from EmptyString r'
            else split_from (current +:+ String c EmptyString) r
        | EmptyString => [current +:+ String c EmptyString]
        end
      else split_from (current +:+ String c EmptyString) r
  end.

Definition split_blank_lines (s : string) : list string :=
  split_from EmptyString s.

(** [lines.pop() || ""], and [lines] after the pop *)
Definition popped (lines : list string) : string := default EmptyString (last lines).
Definition after_pop (lines : list string) : list string :=
  take (List.length lines - 1) lines.

(** The text whose UTF-8 bytes these are. *)
Definition text (bytes : list Byte.byte) : string := string_of_list_byte bytes.

(** The text after a byte order mark (EF BB BF) at the head of [s], if
    there is one; and whether [s] is the beginning of a mark that is not
    yet complete. *)
Definition after_mark (s : string) : option string :=
  match s with
  | String c1 (String c2 (String c3 r)) =>
      if decide (c1 = "239"%char ∧ c2 = "187"%char ∧ c3 = "191"%char)
      then Some r else None
  | _ => None
  end.

Definition mark_begun (s : string) : bool :=
  match s with
  | EmptyString => true
  | String c1 EmptyString => bool_decide (c1 = "239"%char)
  | String c1 (String c2 EmptyString) =>
      bool_decide (c1 = "239"%char ∧ c2 = "187"%char)
  | _ => false
  end.

(** All that a [TextDecoder] in stream mode has given out once the bytes
    [seen] of a UTF-8 text have gone in: the text without a byte order
    mark at its very start, and nothing so long as the text may still
    turn out to begin with a mark.  (The bytes of a character that a read
    cuts in two are kept in the text here, where the decoder keeps them to
    itself; both put them before the bytes of the next read, and none of
    them is a line break.) *)
Definition decoded (seen : list Byte.byte) : string :=
  match after_mark (text seen) with
  | Some r => r
  | None => if mark_begun (text seen) then EmptyString else text seen
  end.

(** [s] without its first [n] characters. *)
Fixpoint skip (n : nat) (s : string) : string :=
  match n, s with
  | 0, _ => s
  | S n, String _ r => skip n r
  | S _, EmptyString => EmptyString
  end.

(** [decoder.decode(value, { stream: true })] after the bytes [seen] went
    through the same decoder: what the bytes of [value] add to the text
    given out. *)
Definition decode (seen value : list Byte.byte) : string :=
  skip (String.length (decoded seen)) (decoded (seen ++ value)).

Section Page.

(** [JSON.parse(data)] as far as the page looks at it: nothing when the
    parse throws or the value has no string [type]; else the [type] and
    the text that [+ parsed.content] appends. *)
Variable JSON_parse : string → option (string * string).

(** The updaters given to [setMessages]; [lastMessage.thinking || ""] is
    the thinking text, empty when there is none. *)
Definition append_content (text : string) (prev : list Message) : list Message :=
  match last prev with
  | Some lastMessage =>
      if decide (role lastMessage = assistant) then
        take (List.length prev - 1) prev ++
        [{| role := role lastMessage;
            content := content lastMessage +:+ text;
            thinking := thinking lastMessage |}]
      else prev
  | None => prev
  end.

Definition append_thinking (text : string) (prev : list Message) : list Message :=
  match last prev with
  | Some lastMessage =>
      if decide (role lastMessage = assistant) then
        take (List.length prev - 1) prev ++
        [{| role := role lastMessage;
            content := content lastMessage;
            thinking := Some (default EmptyString (thinking lastMessage) +:+ text) |}]
      else prev
  | None => prev
  end.

(** The [try] around [JSON.parse]: an error chunk throws inside it and is
    caught by it, like a parse error. *)
Definition on_data (data : string) (prev : list Message) : list Message :=
  match JSON_parse data with
  | Some (type, text) =>
      if decide (type = "content") then append_content text prev
      else if decide (type = "thinking") then append_thinking text prev
      else prev
  | None => prev
  end.

(** The [for] loop over the complete lines of one read; [true] when it
    returned at the sentinel. *)
Fixpoint on_lines (lines : list string) (prev : list Message)
  : list Message * bool :=
  match lines with
  | [] => (prev, false)
  | line :: rest =>
      match JsonRead.after_prefix "data: " line with
      | Some data =>
          if decide (data = "[DONE]") then (prev, true)
          else on_lines rest (on_data data prev)
      | None => on_lines rest prev
      end
  end.

(** The [while] loop over the reads; [seen] are the bytes that went
    through the decoder before. *)
Fixpoint read_loop (values : list (list Byte.byte)) (seen : list Byte.byte)
    (buffer : string) (prev : list Message) : list Message * bool :=
  match values with
  | [] => (prev, false)
  | value :: rest =>
      let buffer := buffer +:+ decode seen value in
      let lines := split_blank_lines buffer in
      let buffer := popped lines in
      match on_lines (after_pop lines) prev with
      | (prev', true) => (prev', true)
      | (prev', false) => read_loop rest (seen ++ value) buffer prev'
      end
  end.

Definition error_message (error : Js.Thrown) : Message :=
  {| role := assistant;
     content := "错误: " +:+ match error with
                             | Js.ErrorObject _ message => message
                             | _ => "未知错误"
                             end;
     thinking := None |}.

(** [handleSubmit], for the text [trimmed] that [input.trim()] gives;
    [fetch] is the call of [/api/chat] on the turns sent. *)
Definition handleSubmit {W} (fetch : list ChatMessage → W → (Js.Thrown + Response) * W)
    (trimmed : string) (s : State) (w : W) : State * W :=
  if negb (Js.truthy trimmed) || isLoading s then (s, w)
  else
    let userMessage := {| role := user; content := trimmed; thinking := None |} in
    let sent := messages s ++ [userMessage] in
    let turn (m : Message) :=
      {| Ollama.role := role m; Ollama.content := content m |} in
    let finish (ms : list Message) (w' : W) :=
      ({| messages := ms; input := EmptyString; isLoading := false |}, w') in
    match fetch (map turn sent) w with
    | (inl error, w') => finish (sent ++ [error_message error]) w'
    | (inr response, w') =>
        if negb (ok response) then
          finish (sent ++ [error_message (Js.ErrorObject "Error" "Failed to fetch response")]) w'
        else
          let started :=
            sent ++ [{| role := assistant; content := EmptyString;
                        thinking := Some EmptyString |}] in
          match body response with
          | None => finish started w'
          | Some (values, term) =>
              match read_loop values [] EmptyString started with
              | (ms, true) => finish ms w'
              | (ms, false) =>
                  match term with
                  | Some error => finish (ms ++ [error_message error]) w'
                  | None => finish ms w'
                  end
              end
          end
    end.

End Page.

End ChatPage.

(** ** Vocabulary for the chat page *)

(** A piece under construction that a later scan reads again as it is: it
    has no blank line and does not end in a line break. *)
Fixpoint clean (s : string) : bool :=
  match s with
  | EmptyString => true
  | String c r =>
      if decide (c = "010"%char) then
        match r with
        | String c' _ => if decide (c' = "010"%char) then false else clean r
        | EmptyString => false
        end
      else clean r
  end.

(** [s] has no line break. *)
Fixpoint one_line (s : string) : bool :=
  match s with
  | EmptyString => true
  | String c r => if decide (c = "010"%char) then false else one_line r
  end.

(** What the page does with a chunk of the server once its frame is read:
    the text of a content or thinking chunk goes to the last message, an
    error chunk changes nothing. *)
Definition shows (chunk : Ollama.StreamChunk) (prev : list ChatPage.Message)
  : list ChatPage.Message :=
  match Ollama.type chunk with
  | Ollama.Content =>
      ChatPage.append_content (default "undefined" (Ollama.chunk_content chunk)) prev
  | Ollama.Thinking =>
      ChatPage.append_thinking (default "undefined" (Ollama.chunk_content chunk)) prev
  | Ollama.Error => prev
  end.

#[global] Instance ChunkType_eq_dec : EqDecision Ollama.ChunkType.
Proof. solve_decision. Defined.

(** The texts of the chunks of one type, in order, joined. *)
Definition texts_of (t : Ollama.ChunkType) (chunks : list Ollama.StreamChunk) : string :=
  foldr (λ c acc,
           if decide (Ollama.type c = t)
           then default "undefined" (Ollama.chunk_content c) +:+ acc else acc)
        EmptyString chunks.

(** A reader of the chunk objects that the server writes, for the page's
    [JSON.parse]: the [type] and the text that [+ parsed.content] gives. *)
Module SamplePage.

Definition parse (data : string) : option (string * string) :=
  match JsonRead.chunk_object data with
  | Some (t, c, _) => Some (t, default "undefined" c)
  | None => None
  end.

End SamplePage.

(** ** The chat route ([app/api/chat/route.ts]) *)

Module Route.
Import Ollama.

(** What [POST] resolves to: the event stream with the byte chunks of its
    queue, or the status 500 with its JSON body. *)
Inductive Answer : Type :=
| EventStream (chunks : list (list Byte.byte))
| Status500 (json : string).

(** [new RAGModel()] is given no options. *)
Definition no_argument : RAG.RAGModelOptions :=
  {| RAG.opt_collectionName := None; RAG.opt_embeddingType := None;
     RAG.opt_k := None; RAG.opt_chromaHost := None;
     RAG.opt_chromaPort := None; RAG.opt_embeddingModel := None;
     RAG.opt_embeddingApiKey := None; RAG.opt_embeddingBaseUrl := None;
     RAG.opt_enableRAG := None; RAG.opt_ragThreshold := None |}.

(** What the handler has after [const { messages } = await req.json()]:
    reading the body or taking it apart threw; or the body was read and
    its [messages] is null or undefined ([true] for null); or it is an
    array of turns.  A [messages] of another shape is outside the
    embedding. *)
Inductive Request : Type :=
| Unreadable (error : Js.Thrown)
| NoMessages (is_null : bool)
| Turns (messages : list ChatMessage).

(** [JSON.stringify({ error: text })] under the status 500 *)
Definition status500 (text : string) : Answer :=
  Status500 (Js.JSON_object [("error", Some text)]).

(** The handler's [catch]: [error.message || "Internal server error"] in
    a JSON object; a primitive value has no [message], and reading it
    from null or undefined throws. *)
Definition failure (error : Js.Thrown) : Js.Thrown + Answer :=
  match error with
  | Js.ErrorObject _ message =>
      inr (status500 (if Js.truthy message then message
                      else "Internal server error"))
  | Js.ObjectValue _ message _ =>
      inr (status500 (RAG.string_or message "Internal server error"))
  | Js.OtherValue _ => inr (status500 "Internal server error")
  | Js.Nullish is_null => inl (Js.TypeError_read is_null "message")
  end.

Section Handler.
Context {W : Type} `{!Ollama.Instance W} `{!VectorStore.Backend W}.
Variable env : RAG.Env.

(** [POST].  The model is built, then [createStreamingResponse] reads
    [messages.length] first, which throws on null and undefined. *)
Definition POST (request : Request) (w : W) : (Js.Thrown + Answer) * W :=
  match request with
  | Unreadable error => (failure error, w)
  | NoMessages is_null => (failure (Js.TypeError_read is_null "length"), w)
  | Turns messages =>
      let model := RAG.constructor no_argument env in
      match RAG.createStreamingResponse model messages (fresh w) with
      | (inr _, r) => (inr (EventStream (queue r)), world r)
      | (inl error, r) => (failure error, world r)
      end
  end.

End Handler.

End Route.

(** Whether the retrieval that the decorator runs for the history
    [messages] breaks the handler's log: the last turn is a user turn for
    which RAG is used, and the search throws a value whose [constructor]
    is null ([Some true]) or undefined ([Some false]). *)
Definition retrieval_breaks {W} `{!VectorStore.Backend W} (ragOptions : RAG.Options)
    (messages : list Ollama.ChatMessage) (w : W) : option bool :=
  match RAG.lastMessage messages with
  | Some last =>
      if decide (Ollama.role last = Ollama.user) then
        if RAG.shouldUseRAG ragOptions (Ollama.content last) then
          match (RAG.search ragOptions (Ollama.content last) w).1 with
          | inl error => Js.missing_constructor error
          | inr _ => None
          end
        else None
      else None
  | None => None
  end.

(** The last frame of a response: the sentinel, or the frame of the error
    chunk when the [try] block threw. *)
Definition last_frame (failure : option string) : list Byte.byte :=
  match failure with
  | None => Ollama.done_frame
  | Some text => Ollama.sse_frame (Ollama.error_chunk text)
  end.

(** ** The retrieval chain ([retrievalChain.ts]) *)

Module Chain.
Import Prompt Ollama VectorStore.

Record RetrievalChainOptions : Type := {
  opt_collectionName : option string;
  opt_embeddingType : option EmbeddingModelType;
  opt_k : option Z;
  opt_chromaHost : option string;
  opt_chromaPort : option Z;
  opt_embeddingModel : option string;
  opt_embeddingApiKey : option string;
  opt_embeddingBaseUrl : option string;
}.

Record RetrievalResult : Type := {
  query : string;
  retrievedDocuments : list RetrievedDocument;
  answer : string;
}.

(** The callback that [executeRetrievalChain] gives to [streamChat], on
    [answer] and on what the promise was rejected with, if it was: a
    content chunk appends [chunk.content || ""], an error chunk rejects
    with [new Error(chunk.error)] (a second rejection changes nothing). *)
Definition collect (state : string * option Js.Thrown) (chunk : StreamChunk)
  : string * option Js.Thrown :=
  match type chunk with
  | Content => (state.1 +:+ default EmptyString (chunk_content chunk), state.2)
  | Error =>
      (state.1,
       match state.2 with
       | Some error => Some error
       | None => Some (Js.ErrorObject "Error" (default EmptyString (chunk_error chunk)))
       end)
  | Thinking => state
  end.

Section Chain.
Context {W : Type} `{!Ollama.Instance W} `{!VectorStore.Backend W}.
Variable env : RAG.Env.

(** The search with the destructured options: a default stands in for an
    absent option only. *)
Definition search (query : string) (options : RetrievalChainOptions)
  : M W (list Document) :=
  searchSimilarDocuments query
    (default 4%Z (opt_k options))
    (default (RAG.string_or (RAG.CHROMA_COLLECTION env) "rag-documents")
             (opt_collectionName options))
    (default (default ollama (RAG.EMBEDDING_TYPE env)) (opt_embeddingType options))
    (Some {| host := Some (default (RAG.string_or (RAG.CHROMA_HOST env) "localhost")
                                   (opt_chromaHost options));
             port := Some (default (default 8000%Z (RAG.CHROMA_PORT env))
                                   (opt_chromaPort options));
             apiKey := opt_embeddingApiKey options;
             model := match opt_embeddingModel options with
                      | Some m => Some m
                      | None => RAG.EMBEDDING_MODEL env
                      end;
             baseUrl := opt_embeddingBaseUrl options |}).

(** [executeRetrievalChain]; the callback acts on [answer] and on the
    promise only, so both are read off the chunks that [streamChat] handed
    to it.  The promise settles with the first of: a rejection by the
    callback, the end of [streamChat]. *)
Definition executeRetrievalChain (query : string) (options : RetrievalChainOptions)
  : M W RetrievalResult :=
  λ w,
    match search query options w with
    | (inl error, w1) => (inl error, w1)
    | (inr retrievedDocs, w1) =>
        let retrievedDocuments :=
          map (λ doc, {| Prompt.content := pageContent doc;
                         Prompt.metadata := VectorStore.metadata doc |})
              retrievedDocs in
        let prompt := buildPrompt query retrievedDocuments in
        let '(outcome, r) :=
          streamChat [{| role := user; content := prompt |}]
                     (λ _ w0, (None, w0)) (fresh w1) in
        let '(answer, rejected) :=
          foldl collect (EmptyString, None) (delivered r) in
        (match rejected, outcome with
         | Some error, _ => inl error
         | None, inl error => inl error
         | None, inr _ =>
             inr {| query := query; retrievedDocuments := retrievedDocuments;
                    answer := answer |}
         end, world r)
    end.

End Chain.

End Chain.

(** The string contents of the fragments of a model stream, put together;
    a fragment whose content is a list of parts gives nothing. *)
Definition streamed_text (fragments : list Ollama.AIMessageChunk) : string :=
  foldr (λ f acc, match Ollama.fragment_content f with
                  | Ollama.Text text => text +:+ acc
                  | Ollama.Parts _ => acc
                  end) EmptyString fragments.

(** ** The embedding models ([embedding.ts]) *)

Module Embedding.
Import VectorStore.

Record Options : Type := {
  apiKey : option string;
  model : option string;
  baseUrl : option string;
}.

(** The variables of [process.env] that the module reads. *)
Record Env : Type := {
  OLLAMA_EMBEDDING_MODEL : option string;
  OLLAMA_BASE_URL : option string;
  OPENAI_API_KEY : option string;
}.

(** The two classes of embedding models, with the fields they are
    constructed with. *)
Inductive Embeddings : Type :=
| OllamaEmbeddings (model baseUrl : string)
| OpenAIEmbeddings (model : string) (openAIApiKey : option string).

(** The library behind the models: constructing a model and asking it for
    the vectors of some texts, which may throw.  A vector is whatever the
    library returns for one text. *)
Class Embedder (W : Type) : Type := {
  Vector : Type;
  embeddings_embedDocuments :
    Embeddings → list string → W → (Js.Thrown + list Vector) * W;
}.

(** One element of what [embedChunks] returns; [embedding] is
    [embeddings[index]], [undefined] out of range. *)
Record EmbeddedChunk (V : Type) : Type := {
  text : string;
  embedding : option V;
  index : nat;
}.
Arguments text {V} _.
Arguments embedding {V} _.
Arguments index {V} _.

(** [options?.model || process.env.OLLAMA_EMBEDDING_MODEL || "nomic-embed-text"] *)
Definition ollama_model (options : option Options) (env : Env) : string :=
  RAG.string_or (options ≫= model)
    (RAG.string_or (OLLAMA_EMBEDDING_MODEL env) "nomic-embed-text").

Definition createEmbeddings (type : EmbeddingModelType) (options : option Options)
    (env : Env) : Embeddings :=
  match type with
  | ollama =>
      let defaultModel := ollama_model options env in
      OllamaEmbeddings defaultModel
        (RAG.string_or (options ≫= baseUrl)
           (RAG.string_or (OLLAMA_BASE_URL env) "http://localhost:11434"))
  | openai =>
      OpenAIEmbeddings
        (RAG.string_or (options ≫= model) "text-embedding-3-small")
        (Js.or_else (options ≫= apiKey) (OPENAI_API_KEY env))
  end.

(** [String.prototype.includes] *)
Fixpoint includes (needle s : string) : bool :=
  if String.prefix needle s then true
  else match s with
       | EmptyString => false
       | String _ r => includes needle r
       end.

(** [error?.message?.includes("not found")]: the [message] of an [Error]
    or of another object that has one; a primitive value, null and
    undefined have none. *)
Definition says_not_found (error : Js.Thrown) : bool :=
  match error with
  | Js.ErrorObject _ message => includes "not found" message
  | Js.ObjectValue _ (Some message) _ => includes "not found" message
  | _ => false
  end.

Definition not_found_message (modelName : string) : string :=
  "Ollama 嵌入模型 " +:+ Js.dquote +:+ modelName +:+ Js.dquote
  +:+ " 未找到。请先运行: ollama pull " +:+ modelName +:+ Js.nl
  +:+ "或者使用其他模型，如: ollama pull all-minilm".

Section Embed.
Context {W : Type} `{!Embedder W}.
Variable env : Env.

Definition embedDocuments (texts : list string) (type : EmbeddingModelType)
    (options : option Options) : M W (list Vector) :=
  try_catch
    (embeddings_embedDocuments (createEmbeddings type options env) texts)
    (λ error,
       match type with
       | ollama =>
           if says_not_found error then
             let modelName :=
               RAG.string_or (options ≫= model)
                 (RAG.string_or (OLLAMA_EMBEDDING_MODEL env) "nomic-embed-text") in
             throw (Js.ErrorObject "Error" (not_found_message modelName))
           else throw error
       | openai => throw error
       end).

Definition embedChunks (chunks : list string) (type : EmbeddingModelType)
    (options : option Options) : M W (list (EmbeddedChunk Vector)) :=
  let! embeddings := embedDocuments chunks type options in
  ret (imap (λ index text,
               {| text := text; embedding := embeddings !! index; index := index |})
            chunks).

End Embed.

End Embedding.

(** ** The clock helper of the time tool ([GetCurrentTimeTool.ts]) *)

Module TimeTool.

(** What the getters of [new Date()] give, in local time; [month] is
    [getMonth()], from 0. *)
Record LocalTime : Type := {
  fullYear : Z;
  month : nat;
  date : nat;
  hours : nat;
  minutes : nat;
  seconds : nat;
}.

Inductive Format : Type := Full | Date | Time | Datetime.

(** [s.padStart(2, "0")] *)
Definition padStart2 (s : string) : string :=
  match String.length s with
  | 0 => "00" +:+ s
  | 1 => "0" +:+ s
  | _ => s
  end.

Definition two (n : nat) : string := padStart2 (pretty n).

Definition date_text (now : LocalTime) : string :=
  pretty (fullYear now) +:+ "-" +:+ two (month now + 1) +:+ "-" +:+ two (date now).

Definition time_text (now : LocalTime) : string :=
  two (hours now) +:+ ":" +:+ two (minutes now) +:+ ":" +:+ two (seconds now).

(** [getFormattedTime(format)] at the time [now]; the argument is
    [undefined] when it is left out. *)
Definition getFormattedTime (now : LocalTime) (format : option Format) : string :=
  let year := pretty (fullYear now) in
  let month := two (month now + 1) in
  let day := two (date now) in
  let hours := two (hours now) in
  let minutes := two (minutes now) in
  let seconds := two (seconds now) in
  match default Datetime format with
  | Full =>
      year +:+ "-" +:+ month +:+ "-" +:+ day +:+ " " +:+
      hours +:+ ":" +:+ minutes +:+ ":" +:+ seconds
  | Date => year +:+ "-" +:+ month +:+ "-" +:+ day
  | Time => hours +:+ ":" +:+ minutes +:+ ":" +:+ seconds
  | Datetime =>
      year +:+ "-" +:+ month +:+ "-" +:+ day +:+ " " +:+
      hours +:+ ":" +:+ minutes +:+ ":" +:+ seconds
  end.

End TimeTool.

(** An embedding library that answers every request with one vector, and
    one whose model is missing. *)
Module SampleEmbedder.
Import Embedding.

#[local] Instance one_vector : Embedder Z :=
  {| Vector := list Z;
     embeddings_embedDocuments := λ _ _ w, (inr [[1; 2; 3]%Z], (w + 1)%Z) |}.

#[local] Instance missing : Embedder Z :=
  {| Vector := list Z;
     embeddings_embedDocuments := λ _ _ w,
       (inl (Js.ErrorObject "Error" "model 'nomic-embed-text' not found"), w) |}.

(** The same failure, rejected as a plain object with a [message]. *)
#[local] Instance missing_plain : Embedder Z :=
  {| Vector := list Z;
     embeddings_embedDocuments := λ _ _ w,
       (inl (Js.ObjectValue "[object Object]"
               (Some "model 'nomic-embed-text' not found") None), w) |}.

Definition no_env : Env :=
  {| OLLAMA_EMBEDDING_MODEL := None; OLLAMA_BASE_URL := None;
     OPENAI_API_KEY := None |}.

End SampleEmbedder.

(** A page after the question [hi], and a network that cuts the frames of
    an answer after their seventh byte. *)
Module SampleNetwork.
Import Ollama.

Definition answer_chunks : list StreamChunk :=
  [content_chunk "Par"; thinking_chunk (Some "capital?");
   error_chunk "ignored"; content_chunk "is."].

Definition answer_bytes : list Byte.byte :=
  concat (map sse_frame answer_chunks) ++ done_frame.

Definition reads : list (list Byte.byte) :=
  [take 7 answer_bytes; drop 7 answer_bytes].

(** The frames that the route streams for the question about the capital
    (see [capital_question_frames]), and a network that cuts them after
    their seventh byte. *)
Definition route_frames : list (list Byte.byte) :=
  map sse_frame [content_chunk "Par"; thinking_chunk (Some "capital?");
                 content_chunk "is."]
  ++ [done_frame].

Definition route_reads : list (list Byte.byte) :=
  [take 7 (concat route_frames); drop 7 (concat route_frames)].

Definition fetch (turns : list ChatMessage) (w : Z)
  : (Js.Thrown + ChatPage.Response) * Z :=
  (inr {| ChatPage.ok := true; ChatPage.body := Some (reads, None) |}, (w + 1)%Z).

Definition asking : ChatPage.State :=
  {| ChatPage.messages := []; ChatPage.input := "hi ";
     ChatPage.isLoading := false |}.

Definition no_options : Chain.RetrievalChainOptions :=
  {| Chain.opt_collectionName := None; Chain.opt_embeddingType := None;
     Chain.opt_k := None; Chain.opt_chromaHost := None;
     Chain.opt_chromaPort := None; Chain.opt_embeddingModel := None;
     Chain.opt_embeddingApiKey := None; Chain.opt_embeddingBaseUrl := None |}.

Definition new_year : TimeTool.LocalTime :=
  {| TimeTool.fullYear := 2026; TimeTool.month := 0; TimeTool.date := 1;
     TimeTool.hours := 8; TimeTool.minutes := 5; TimeTool.seconds := 0 |}.

End SampleNetwork.

(** * Facts about strings *)

Section Strings.
Implicit Types s t u : string.

Lemma sapp_nil_l s : "" +:+ s = s.
Proof. reflexivity. Qed.

Lemma sapp_cons c s t : String c s +:+ t = String c (s +:+ t).
Proof. reflexivity. Qed.

Lemma sapp_nil_r s : s +:+ "" = s.
Proof. induction s as [|c s IH]; [done | by rewrite sapp_cons, IH]. Qed.

Lemma sapp_assoc s t u : (s +:+ t) +:+ u = s +:+ t +:+ u.
Proof. induction s as [|c s IH]; [done | by rewrite !sapp_cons, IH]. Qed.

Lemma slength_app s t : String.length (s +:+ t) = String.length s + String.length t.
Proof. induction s as [|c s IH]; [done | rewrite sapp_cons; simpl; by rewrite IH]. Qed.

Lemma get_last_sapp s t :
  t ≠ "" →
  String.get (String.length (s +:+ t) - 1) (s +:+ t)
  = String.get (String.length t - 1) t.
Proof.
  intros Ht. rewrite (append_correct2 s t), slength_app.
  f_equal. destruct t; [done | simpl; lia].
Qed.

Lemma ends_with_last s q :
  q ≠ "" → ends_with s q →
  String.get (String.length s - 1) s = String.get (String.length q - 1) q.
Proof. intros Hq [pre ->]. by apply get_last_sapp. Qed.

End Strings.

(** * Running computations *)

Section Running.
Context {St : Type}.

Lemma bind_inr {A B} (c : M St A) (k : A → M St B) s a s' :
  c s = (inr a, s') → bind c k s = k a s'.
Proof. unfold bind. by intros ->. Qed.

Lemma bind_inl {A B} (c : M St A) (k : A → M St B) s e s' :
  c s = (inl e, s') → bind c k s = (inl e, s').
Proof. unfold bind. by intros ->. Qed.

Lemma try_catch_inr {A} (c : M St A) h s a s' :
  c s = (inr a, s') → try_catch c h s = (inr a, s').
Proof. unfold try_catch. by intros ->. Qed.

Lemma try_catch_inl {A} (c : M St A) h s e s' :
  c s = (inl e, s') → try_catch c h s = h e s'.
Proof. unfold try_catch. by intros ->. Qed.

End Running.

(** * The decision rule of the RAG decorator *)

Lemma Js_length_nonneg (message : string) : (0 ≤ Z.of_nat (Js.length message))%Z.
Proof. lia. Qed.

(** C2. For every configured threshold and every message, [shouldUseRAG]
    answers true exactly when RAG is enabled and either the threshold is 0
    or the message is at least as long as the threshold. *)
Theorem shouldUseRAG_iff (ragOptions : RAG.Options) (message : string) :
  RAG.shouldUseRAG ragOptions message = true ↔
  RAG.enableRAG ragOptions = true ∧
  (RAG.ragThreshold ragOptions = 0%Z
   ∨ (RAG.ragThreshold ragOptions ≤ Z.of_nat (Js.length message))%Z).
Proof.
  unfold RAG.shouldUseRAG.
  destruct (RAG.enableRAG ragOptions); simpl; [|by split; [|intros [? _]]].
  pose proof (Js_length_nonneg message).
  destruct (Z.ltb_spec 0 (RAG.ragThreshold ragOptions)).
  - rewrite Z.leb_le. split; [intros; split; [done | right; lia] |].
    intros [_ [?|?]]; lia.
  - split; [intros _; split; [done |] | done].
    destruct (decide (RAG.ragThreshold ragOptions = 0%Z)); [by left | right; lia].
Qed.

(** The rule on the options the constructor builds: an absent toggle
    enables RAG and an absent threshold is 0. *)
Lemma shouldUseRAG_default_options env message :
  RAG.shouldUseRAG
    (RAG.constructor
       {| RAG.opt_collectionName := None; RAG.opt_embeddingType := None;
          RAG.opt_k := None; RAG.opt_chromaHost := None;
          RAG.opt_chromaPort := None; RAG.opt_embeddingModel := None;
          RAG.opt_embeddingApiKey := None; RAG.opt_embeddingBaseUrl := None;
          RAG.opt_enableRAG := None; RAG.opt_ragThreshold := None |} env)
    message = true.
Proof. done. Qed.

Example shouldUseRAG_length_counts_code_units :
  Js.length "文档 N" = 4 ∧ String.length "文档 N" = 8.
Proof. done. Qed.

(** * Prompt assembly *)

Section PromptFacts.
Import Prompt.

Lemma join_cons sep x (l : list string) :
  l ≠ [] → Js.join sep (x :: l) = x +:+ sep +:+ Js.join sep l.
Proof. by destruct l. Qed.

Lemma join_app sep (l1 l2 : list string) :
  l1 ≠ [] → l2 ≠ [] →
  Js.join sep (l1 ++ l2) = Js.join sep l1 +:+ sep +:+ Js.join sep l2.
Proof.
  intros H1 H2. induction l1 as [|x l1 IH]; [done|].
  destruct l1 as [|y l1].
  - simpl. by destruct l2.
  - rewrite <-app_comm_cons.
    rewrite (join_cons sep x ((y :: l1) ++ l2)) by done.
    rewrite IH by done.
    rewrite (join_cons sep x (y :: l1)) by done.
    by rewrite !sapp_assoc.
Qed.

Lemma join_middle sep (l1 l2 : list string) x :
  Js.join sep (l1 ++ x :: l2)
  = Js.join sep l1 +:+ match l1 with [] => "" | _ :: _ => sep end
    +:+ x +:+ match l2 with [] => "" | _ :: _ => sep end +:+ Js.join sep l2.
Proof.
  destruct l1 as [|y l1], l2 as [|z l2].
  - change (Js.join sep ([] ++ [x])) with x.
    change (Js.join sep []) with "". by rewrite !sapp_nil_l, sapp_nil_r.
  - change ([] ++ x :: z :: l2) with (x :: z :: l2).
    change (Js.join sep []) with "".
    by rewrite (join_cons sep x (z :: l2)), !sapp_nil_l.
  - rewrite join_app by done.
    change (Js.join sep [x]) with x. change (Js.join sep []) with "".
    by rewrite sapp_nil_l, sapp_nil_r.
  - rewrite join_app by done. by rewrite (join_cons sep x (z :: l2)).
Qed.

Lemma sections_from_split first (D1 D2 : list RetrievedDocument) d :
  sections_from first (D1 ++ d :: D2)
  = sections_from first D1 +:+ blank_line_beside D1
    +:+ section d (first + List.length D1)
    +:+ blank_line_beside D2 +:+ sections_from (S (first + List.length D1)) D2.
Proof.
  unfold sections_from. rewrite imap_app, imap_cons, join_middle.
  assert (imap ((λ n, (λ j doc, section doc (first + j)) (List.length D1 + n)) ∘ S) D2
          = imap (λ j doc, section doc (S (first + List.length D1) + j)) D2) as ->.
  { apply imap_ext; intros i x _; simpl. f_equal. lia. }
  rewrite Nat.add_0_r.
  by destruct D1 as [|d1 D1], D2 as [|d2 D2].
Qed.

Lemma buildRAGPrompt_nonempty query (docs : list RetrievedDocument) :
  docs ≠ [] → buildRAGPrompt query docs = buildPrompt query docs.
Proof. unfold buildRAGPrompt. destruct docs; [done|]. by case_decide. Qed.

Lemma template_length query context :
  String.length query < String.length (template query context).
Proof.
  unfold template. rewrite !slength_app. unfold instruction; simpl. lia.
Qed.

End PromptFacts.

Section PromptClaims.
Import Prompt.

Lemma contextSections_sections_from (docs : list RetrievedDocument) :
  contextSections docs = sections_from 0 docs.
Proof. done. Qed.

Lemma template_question_part query context :
  template query context = header +:+ context +:+ question_part query.
Proof.
  unfold template, question_part, blank_line. by rewrite !sapp_assoc.
Qed.

(** C4, as amended.  For a non-empty sequence of documents both builders
    give the same prompt, and around every document of the sequence it
    reads: the header, the sections of the earlier documents in order, the
    label [[文档 N]] with N the document's 1-based position, a line break,
    the document's content, the sections of the later documents in order
    (neighbouring sections one blank line apart), then the question line
    with the query and, after a blank line, the fixed instruction, with
    which the prompt ends. *)
Theorem buildRAGPrompt_structure (query : string) (docs : list RetrievedDocument) :
  docs ≠ [] →
  buildPrompt query docs = buildRAGPrompt query docs ∧
  ends_with (buildRAGPrompt query docs)
            ("用户问题：" +:+ query +:+ blank_line +:+ instruction) ∧
  ∀ before doc after,
    docs = before ++ doc :: after →
    buildRAGPrompt query docs
    = header +:+ sections_from 0 before +:+ blank_line_beside before
      +:+ ("[文档 " +:+ pretty (List.length before + 1) +:+ "]" +:+ Js.nl
           +:+ content doc)
      +:+ blank_line_beside after
      +:+ sections_from (S (List.length before)) after
      +:+ question_part query.
Proof.
  intros Hne. rewrite (buildRAGPrompt_nonempty _ _ Hne).
  split; [done|]. unfold buildPrompt. rewrite template_question_part. split.
  - exists (header +:+ contextSections docs +:+ blank_line).
    unfold question_part. by rewrite !sapp_assoc.
  - intros before doc after ->.
    rewrite contextSections_sections_from, sections_from_split.
    unfold section, label, Js.index_toString. by rewrite !sapp_assoc.
Qed.

Lemma buildRAGPrompt_structure_witness :
  [paris; lyon] ≠ [] ∧
  buildPrompt "What is the capital of France?" [paris; lyon]
  = buildRAGPrompt "What is the capital of France?" [paris; lyon] ∧
  ends_with (buildRAGPrompt "What is the capital of France?" [paris; lyon])
            ("用户问题：" +:+ "What is the capital of France?" +:+ blank_line
             +:+ instruction) ∧
  ∀ before doc after,
    [paris; lyon] = before ++ doc :: after →
    buildRAGPrompt "What is the capital of France?" [paris; lyon]
    = header +:+ sections_from 0 before +:+ blank_line_beside before
      +:+ ("[文档 " +:+ pretty (List.length before + 1) +:+ "]" +:+ Js.nl
           +:+ content doc)
      +:+ blank_line_beside after
      +:+ sections_from (S (List.length before)) after
      +:+ question_part "What is the capital of France?".
Proof.
  split; [done|].
  apply (buildRAGPrompt_structure "What is the capital of France?" [paris; lyon]).
  done.
Defined.

Example buildRAGPrompt_paris :
  buildRAGPrompt "What is the capital of France?" [paris]
  = header +:+ "[文档 1]" +:+ Js.nl +:+ "Paris is the capital of France."
    +:+ blank_line +:+ "用户问题：What is the capital of France?"
    +:+ blank_line +:+ instruction.
Proof. vm_compute. reflexivity. Qed.

(** C4, the claim as written fails: the prompt built from one document
    for the query of the end-to-end scenario does not end with the query,
    whichever builder makes it. *)
Lemma prompt_does_not_end_with_query :
  [paris] ≠ [] ∧
  ¬ ends_with (buildRAGPrompt "What is the capital of France?" [paris])
              "What is the capital of France?" ∧
  ¬ ends_with (buildPrompt "What is the capital of France?" [paris])
              "What is the capital of France?".
Proof.
  split; [done|].
  split; intros H; apply ends_with_last in H; try done;
    vm_compute in H; discriminate.
Qed.

(** C5.  [buildRAGPrompt] returns the query unchanged when no document was
    retrieved; [buildPrompt] of the retrieval chain has no such bypass: on
    the empty sequence it still applies the template, so its result is
    never the query. *)
Theorem empty_documents_bypass_only_in_buildRAGPrompt :
  (∀ query, buildRAGPrompt query [] = query) ∧
  (∀ query, buildPrompt query [] = header +:+ question_part query) ∧
  (∀ query, buildPrompt query [] ≠ query) ∧
  buildPrompt "hi" []
  = header +:+ blank_line +:+ "用户问题：hi" +:+ blank_line +:+ instruction.
Proof.
  split; [done|]. split; [|split].
  - intros query. unfold buildPrompt. by rewrite template_question_part.
  - intros query H. pose proof (template_length query (contextSections [])) as Hlen.
    unfold buildPrompt in H. rewrite H in Hlen. lia.
  - vm_compute. reflexivity.
Qed.

End PromptClaims.

(** * Record identifiers of the vector store adapter *)

Section Identifiers.

Lemma has_dash_sapp s t : has_dash (s +:+ t) = has_dash s || has_dash t.
Proof.
  induction s as [|c s IH]; [done|]. rewrite sapp_cons. simpl.
  by case_decide.
Qed.

Lemma after_last_dash_sapp s d :
  has_dash d = false → after_last_dash (s +:+ "-" +:+ d) = d.
Proof.
  intros Hd. change ("-" +:+ d) with (String "-" d).
  induction s as [|c s IH].
  - rewrite sapp_nil_l. simpl. by rewrite Hd.
  - rewrite sapp_cons. simpl.
    rewrite has_dash_sapp. simpl. by rewrite orb_true_r.
Qed.

Lemma pretty_N_go_no_dash x s : has_dash s = false → has_dash (pretty_N_go x s) = false.
Proof.
  revert s. induction (N.lt_wf_0 x) as [x _ IH]; intros s Hs.
  destruct (decide (x = 0%N)) as [->|]; [by rewrite pretty_N_go_0|].
  rewrite pretty_N_go_step by lia. apply IH; [apply N.div_lt; lia|].
  simpl. rewrite Hs. unfold pretty_N_char. by repeat case_match.
Qed.

Lemma index_toString_no_dash (i : nat) : has_dash (Js.index_toString i) = false.
Proof.
  unfold Js.index_toString, pretty, pretty_nat, pretty, pretty_N.
  case_decide; [done|]. by apply pretty_N_go_no_dash.
Qed.

Lemma doc_id_index t1 t2 (i j : nat) : doc_id t1 i = doc_id t2 j → i = j.
Proof.
  unfold doc_id. intros H.
  apply (f_equal after_last_dash) in H.
  rewrite <-(sapp_assoc "doc-" (Js.Number_toString t1)) in H.
  rewrite <-(sapp_assoc "doc-" (Js.Number_toString t2)) in H.
  rewrite !after_last_dash_sapp in H by apply index_toString_no_dash.
  by apply (inj pretty) in H.
Qed.

End Identifiers.

Section Ingestion.
Context {W : Type} `{!VectorStore.Backend W}.
Import VectorStore.

Lemma after_readings_add n m (w : W) :
  after_readings (n + m) w = after_readings m (after_readings n w).
Proof. revert w. induction n as [|n IH]; intros w; [done | apply IH]. Qed.

Lemma clock_reading_add n m (w : W) :
  clock_reading (n + m) w = clock_reading m (after_readings n w).
Proof. unfold clock_reading. by rewrite after_readings_add. Qed.

Lemma now_run (w : W) : now w = (inr (clock_reading 0 w), after_readings 1 w).
Proof. unfold now, clock_reading. simpl. by destruct (Date_now w). Qed.

Lemma make_id_run index (w : W) :
  make_id index w = (inr (doc_id (clock_reading 0 w) index), after_readings 1 w).
Proof. unfold make_id, bind. by rewrite now_run. Qed.

(** The identifiers are made one after the other, each with its own
    reading of the clock. *)
Lemma make_ids_run (texts : list string) :
  ∀ first (w : W), ∃ ids,
    map_index_from first (λ _ index, make_id index) texts w
    = (inr ids, after_readings (List.length texts) w) ∧
    List.length ids = List.length texts ∧
    ∀ j, j < List.length texts →
      ids !! j = Some (doc_id (clock_reading j w) (first + j)).
Proof.
  induction texts as [|text texts IH]; intros first w.
  - exists []. split; [done|]. split; [done|]. simpl; lia.
  - simpl. unfold bind at 1. rewrite make_id_run.
    unfold bind at 1.
    destruct (IH (S first) (after_readings 1 w)) as (ids & -> & Hlen & Hids).
    exists (doc_id (clock_reading 0 w) first :: ids).
    split; [done|]. split; [simpl; lia|].
    intros [|j] Hj.
    + by rewrite Nat.add_0_r.
    + simpl. rewrite Hids by (simpl in Hj; lia).
      by replace (S first + j) with (first + S j) by lia.
Qed.

Lemma lookup_given_None (given : option (list Prompt.Metadata)) (index : nat) :
  given ≫= (λ l, l !! index) = None ↔ List.length (default [] given) ≤ index.
Proof.
  destruct given as [l|]; simpl; [apply lookup_ge_None | split; [lia | done]].
Qed.

(** The documents are made one after the other; a document without given
    metadata reads the clock for its timestamp.  Those are the documents
    from position [length given] on, so the document at position [i]
    takes the reading number [i - length given]. *)
Lemma make_documents_clock given (texts : list string) :
  ∀ first (w : W), ∃ docs,
    map_index_from first
      (λ text index,
         let! m := metadata_for given index in
         ret {| pageContent := text; metadata := m |}) texts w
    = (inr docs,
       after_readings
         (List.length texts - (List.length (default [] given) - first)) w) ∧
    List.length docs = List.length texts ∧
    ∀ i text, texts !! i = Some text →
      ∃ doc, docs !! i = Some doc ∧ pageContent doc = text ∧
        match given ≫= (λ l, l !! (first + i)) with
        | Some m => metadata doc = m
        | None =>
            metadata doc
            = <["index" := pretty (first + i)]>
                (<["timestamp" :=
                     pretty (clock_reading
                               (i - (List.length (default [] given) - first)) w)]>
                   ∅)
        end.
Proof.
  set (len := List.length (default [] given)).
  induction texts as [|text texts IH]; intros first w.
  { exists []. split; [done|]. split; [done|]. by intros i text [=]. }
  simpl. unfold bind at 1. unfold bind at 1.
  destruct (given ≫= (λ l, l !! first)) as [m|] eqn:Hgiven.
  - assert (metadata_for given first w = (inr m, w)) as ->.
    { unfold metadata_for. by rewrite Hgiven. }
    assert (first < len) as Hlt.
    { destruct (decide (first < len)); [done|].
      assert (given ≫= (λ l, l !! first) = None) as Hnone
        by (apply lookup_given_None; fold len; lia).
      congruence. }
    unfold ret at 1. unfold bind at 1.
    destruct (IH (S first) w) as (docs & -> & Hlen & Hdocs).
    eexists. split.
    { simpl. do 2 f_equal. lia. }
    split; [simpl; lia|].
    intros [|i] text' Hi; simpl in Hi.
    + injection Hi as <-. eexists. split; [done|]. split; [done|]. simpl.
      by rewrite Nat.add_0_r, Hgiven.
    + destruct (Hdocs i text' Hi) as (doc & Hdoc & Htext & Hmeta).
      exists doc. split; [done|]. split; [done|].
      replace (first + S i) with (S first + i) by lia.
      by replace (S i - (len - first)) with (i - (len - S first)) by lia.
  - assert (len ≤ first) as Hle by (by apply lookup_given_None).
    assert (metadata_for given first w
            = (inr (<["index" := pretty first]>
                      (<["timestamp" := pretty (clock_reading 0 w)]> ∅)),
               after_readings 1 w)) as ->.
    { unfold metadata_for. rewrite Hgiven. unfold bind. by rewrite now_run. }
    unfold ret at 1. unfold bind at 1.
    destruct (IH (S first) (after_readings 1 w)) as (docs & -> & Hlen & Hdocs).
    eexists. split.
    { replace (len - first) with 0 by lia.
      replace (len - S first) with 0 by lia.
      by rewrite !Nat.sub_0_r. }
    split; [simpl; lia|].
    intros [|i] text' Hi; simpl in Hi.
    + injection Hi as <-. eexists. split; [done|]. split; [done|]. simpl.
      by rewrite Nat.add_0_r, Hgiven.
    + destruct (Hdocs i text' Hi) as (doc & Hdoc & Htext & Hmeta).
      exists doc. split; [done|]. split; [done|].
      replace (first + S i) with (S first + i) by lia.
      replace (S i - (len - first)) with (S i) by lia.
      by replace (i - (len - S first)) with i in Hmeta by lia.
Qed.

Lemma doc_ids_NoDup (ids : list string) :
  (∀ j, j < List.length ids → ∃ t, ids !! j = Some (doc_id t j)) → NoDup ids.
Proof.
  intros Hids. apply NoDup_alt. intros i j x Hi Hj.
  destruct (Hids i) as [ti Hti]; [by eapply lookup_lt_Some|].
  destruct (Hids j) as [tj Htj]; [by eapply lookup_lt_Some|].
  assert (doc_id ti i = doc_id tj j) by congruence. by eapply doc_id_index.
Qed.

(** C9.  Whenever [addDocumentsToVectorStore] returns, it returns one
    identifier per input text, and the identifier at (zero-based) position
    [index] is [doc-<timestamp>-<index>], where the timestamp is what
    [Date.now()] returned at the call made for this identifier: after the
    store is created the clock is read once for every text without given
    metadata, and then once per identifier, in order.  The identifiers are
    pairwise distinct (whatever the clock reads).  And the function does
    return whenever the store can be created and takes the documents. *)
Theorem addDocumentsToVectorStore_ids (texts : list string) given collectionName
    embeddingType options (w : W) :
  (∀ ids w',
     addDocumentsToVectorStore texts given collectionName embeddingType options w
     = (inr ids, w') →
     List.length ids = List.length texts ∧
     (∃ store w1,
        createVectorStore collectionName embeddingType options w
        = (inr store, w1) ∧
        let before := List.length texts - List.length (default [] given) in
        ∀ index, index < List.length texts →
          ids !! index
          = Some ("doc-" +:+ pretty (clock_reading (before + index) w1)
                  +:+ "-" +:+ pretty index)) ∧
     NoDup ids) ∧
  (∀ store w1,
     createVectorStore collectionName embeddingType options w = (inr store, w1) →
     (∀ docs ids w2, (addDocuments store docs ids w2).1 = inr tt) →
     ∃ ids w',
       addDocumentsToVectorStore texts given collectionName embeddingType options w
       = (inr ids, w')).
Proof.
  unfold addDocumentsToVectorStore, Array_map.
  destruct (createVectorStore collectionName embeddingType options w)
    as [[e|store] w1] eqn:Hstore.
  { rewrite (bind_inl _ _ _ _ _ Hstore). split; [done|]. intros ?? [=]. }
  rewrite (bind_inr _ _ _ _ _ Hstore).
  destruct (make_documents_clock given texts 0 w1) as (docs & Hdocs & _).
  rewrite Nat.sub_0_r in Hdocs.
  rewrite (bind_inr _ _ _ _ _ Hdocs).
  match type of Hdocs with
  | _ = (_, ?w2) =>
      destruct (make_ids_run texts 0 w2) as (ids & Hrun & Hlen & Hids)
  end.
  rewrite (bind_inr _ _ _ _ _ Hrun).
  match type of Hrun with
  | _ = (_, ?w') => set (w3 := w') in *
  end.
  destruct (addDocuments store docs ids w3) as [[e|[]] w4] eqn:Hadd.
  - rewrite (bind_inl _ _ _ _ _ Hadd). split; [done|].
    intros store' w1' [= <- <-] Hok. specialize (Hok docs ids w3).
    by rewrite Hadd in Hok.
  - rewrite (bind_inr _ _ _ _ _ Hadd). split; [|by eexists _, _].
    intros ids' w' [= <- <-]. split; [done|]. split.
    + exists store, w1. split; [done|]. intros index Hindex.
      by rewrite (Hids index Hindex), clock_reading_add.
    + apply doc_ids_NoDup. intros j Hj. rewrite Hlen in Hj.
      eexists. by apply Hids.
Qed.

End Ingestion.

(** * The chat model client *)

Section ForwardedFacts.
Import Ollama.

Lemma follows_mono (frs frs' : list AIMessageChunk) chunks :
  frs ⊆ frs' → thinking_follows_content frs chunks →
  thinking_follows_content frs' chunks.
Proof.
  intros Hsub H i c Hi Hc.
  destruct (H i c Hi Hc) as (j & c' & -> & Hj & f & text & ? & ? & ? & ? & ?).
  exists j, c'. split; [done|]. split; [done|]. exists f, text.
  split; [by apply Hsub | done].
Qed.

Lemma follows_app frs (cs1 cs2 : list StreamChunk) :
  thinking_follows_content frs cs1 → thinking_follows_content frs cs2 →
  thinking_follows_content frs (cs1 ++ cs2).
Proof.
  intros H1 H2 i c Hi Hc. apply lookup_app_Some in Hi as [Hi|[Hge Hi]].
  - destruct (H1 i c Hi Hc) as (j & c' & -> & Hj & Hf).
    exists j, c'. split; [done|]. split; [|done]. by apply lookup_app_l_Some.
  - destruct (H2 _ c Hi Hc) as (j & c' & Hij & Hj & Hf).
    exists (List.length cs1 + j), c'. split; [lia|]. split; [|done].
    by rewrite lookup_app_r, Nat.add_comm, Nat.add_sub by lia.
Qed.

Lemma follows_prefix frs (cs cs' : list StreamChunk) :
  cs' `prefix_of` cs → thinking_follows_content frs cs →
  thinking_follows_content frs cs'.
Proof.
  intros [rest ->] H i c Hi Hc.
  destruct (H i c (lookup_app_l_Some _ _ _ _ Hi) Hc) as (j & c' & -> & Hj & Hf).
  exists j, c'. split; [done|]. split; [|done].
  rewrite lookup_app_l in Hj; [done|]. apply lookup_lt_Some in Hi. lia.
Qed.

Lemma follows_no_thinking frs (cs : list StreamChunk) :
  Forall (λ c, type c ≠ Thinking) cs → thinking_follows_content frs cs.
Proof.
  intros H i c Hi Hc. by destruct (Forall_lookup_1 _ _ _ _ H Hi).
Qed.

Lemma follows_forwarded_direct_one (f : AIMessageChunk) :
  thinking_follows_content [f] (forwarded_direct f).
Proof.
  unfold forwarded_direct.
  destruct (fragment_content f) as [text|] eqn:Hf;
    [|by apply follows_no_thinking].
  destruct (Js.truthy text) eqn:Htext; [|by apply follows_no_thinking].
  destruct (Js.truthy_opt _); [|by apply follows_no_thinking; repeat constructor].
  intros [|[|i]] c Hi Hc; simplify_eq/=.
  exists 0, (content_chunk text). split; [done|]. split; [done|].
  exists f, text. split; [by left|done].
Qed.

Lemma follows_forwarded_direct (frs : list AIMessageChunk) :
  thinking_follows_content frs (flat_map forwarded_direct frs).
Proof.
  induction frs as [|f frs IH]; [by intros ? ? ?|].
  simpl. apply follows_app.
  - eapply follows_mono; [|apply follows_forwarded_direct_one].
    intros x ->%list_elem_of_singleton. by left.
  - eapply follows_mono; [|apply IH]. intros x Hx. by right.
Qed.

Lemma forwarded_final_content (frs : list AIMessageChunk) :
  Forall (λ c, type c = Content) (flat_map forwarded_final frs).
Proof.
  induction frs as [|f frs IH]; [done|]. simpl. apply Forall_app. split; [|done].
  unfold forwarded_final. by repeat case_match; repeat constructor.
Qed.

Lemma forwarded_direct_types (frs : list AIMessageChunk) :
  Forall (λ c, type c = Content ∨ type c = Thinking) (flat_map forwarded_direct frs).
Proof.
  induction frs as [|f frs IH]; [done|]. simpl. apply Forall_app. split; [|done].
  unfold forwarded_direct. repeat case_match; repeat constructor; by auto.
Qed.

End ForwardedFacts.

Section ClientFacts.
Context {W : Type} `{!Ollama.Instance W}.
Import Ollama.
Implicit Types r : Run W.

Lemma enqueued_nil r : enqueued r [] = r.
Proof. destruct r. unfold enqueued; simpl. by rewrite app_nil_r. Qed.

Lemma enqueued_app r fs1 fs2 : enqueued (enqueued r fs1) fs2 = enqueued r (fs1 ++ fs2).
Proof. unfold enqueued; simpl. by rewrite <-(assoc_L (++)). Qed.

Lemma enqueue_run r bytes :
  closed r = false → enqueue bytes r = (inr tt, enqueued r [bytes]).
Proof. unfold enqueue, enqueued. by intros ->. Qed.

Lemma final_body_run r chunk :
  closed r = false →
  final_body chunk r = (inr tt, enqueued r (map sse_frame (forwarded_final chunk))).
Proof.
  intros Hr. unfold final_body, forwarded_final.
  destruct (fragment_content chunk) as [text|]; [|by rewrite enqueued_nil].
  destruct (Js.truthy text); [|by rewrite enqueued_nil].
  by apply enqueue_run.
Qed.

Lemma direct_body_run r chunk :
  closed r = false →
  direct_body chunk r = (inr tt, enqueued r (map sse_frame (forwarded_direct chunk))).
Proof.
  intros Hr. unfold direct_body, forwarded_direct.
  destruct (fragment_content chunk) as [text|]; [|by rewrite enqueued_nil].
  destruct (Js.truthy text); [|by rewrite enqueued_nil].
  rewrite (bind_inr _ _ _ _ _ (enqueue_run r _ Hr)).
  destruct (Js.truthy_opt (thinkingContent chunk)).
  - rewrite enqueue_run by done. by rewrite enqueued_app.
  - done.
Qed.

Lemma for_of_enqueues (body : AIMessageChunk → M (Run W) unit) forwarded :
  (∀ r chunk, closed r = false →
     body chunk r = (inr tt, enqueued r (map sse_frame (forwarded chunk)))) →
  ∀ frs r, closed r = false →
    for_of frs body r
    = (inr tt, enqueued r (map sse_frame (flat_map forwarded frs))).
Proof.
  intros Hbody frs. induction frs as [|f frs IH]; intros r Hr.
  - by rewrite enqueued_nil.
  - simpl. rewrite (bind_inr _ _ _ _ _ (Hbody r f Hr)).
    rewrite IH by done. by rewrite enqueued_app, map_app.
Qed.

Lemma for_await_enqueues (body : AIMessageChunk → M (Run W) unit) forwarded :
  (∀ r chunk, closed r = false →
     body chunk r = (inr tt, enqueued r (map sse_frame (forwarded chunk)))) →
  ∀ frs term r, closed r = false →
    for_await (frs, term) body r
    = (match term with Some e => inl e | None => inr tt end,
       enqueued r (map sse_frame (flat_map forwarded frs))).
Proof.
  intros Hbody frs term r Hr. unfold for_await.
  rewrite (bind_inr _ _ _ _ _ (for_of_enqueues body forwarded Hbody frs r Hr)).
  by destruct term.
Qed.

(** One tool call: never a throw, the controller left alone, and an
    answer exactly when the name resolves. *)
Lemma executeToolCalls_body_run toolMessages (toolCall : ToolCall) r :
  ∃ new w' made,
    executeToolCalls_body toolMessages toolCall r
    = (inr (toolMessages ++ new),
       {| world := w'; calls := calls r ++ made; delivered := delivered r;
          queue := queue r; closed := closed r |}) ∧
    Forall is_tool_event made ∧
    Forall2 answers (filter resolvable [toolCall]) new.
Proof.
  unfold executeToolCalls_body.
  destruct (toolMap !! name toolCall) as [tool|] eqn:Htool.
  - rewrite filter_cons_True by (unfold resolvable; by rewrite Htool).
    unfold try_catch, invoke_tool, bind, record_call, on_world, ret. simpl.
    destruct (tool_invoke tool (default "{}" (args toolCall)) (world r))
      as [[error|result] w1] eqn:Hrun.
    all: eexists [_], w1, [_]; split; [done|].
    all: split; [by repeat constructor|].
    all: constructor; [|constructor].
    all: exists tool, (world r); split; [done|]; by rewrite Hrun.
  - rewrite filter_cons_False
      by (unfold resolvable; rewrite Htool; by intros [??]).
    exists [], (world r), []. split; [|by split; constructor].
    destruct r; unfold ret; simpl. by rewrite !app_nil_r.
Qed.

(** [executeToolCalls] never throws, leaves the controller alone, and
    answers the calls it can resolve, in order. *)
Lemma executeToolCalls_from_run (toolCalls : list ToolCall) :
  ∀ toolMessages r, ∃ new w' made,
    executeToolCalls_from toolMessages toolCalls r
    = (inr (toolMessages ++ new),
       {| world := w'; calls := calls r ++ made; delivered := delivered r;
          queue := queue r; closed := closed r |}) ∧
    Forall is_tool_event made ∧
    Forall2 answers (filter resolvable toolCalls) new.
Proof.
  induction toolCalls as [|tc tcs IH]; intros acc r.
  - exists [], (world r), []. split; [|by split; constructor].
    destruct r; simpl. by rewrite !app_nil_r.
  - simpl.
    destruct (executeToolCalls_body_run acc tc r)
      as (new1 & w1 & made1 & Hrun1 & Hmade1 & Hnew1).
    rewrite (bind_inr _ _ _ _ _ Hrun1).
    destruct (IH (acc ++ new1)
                 {| world := w1; calls := calls r ++ made1;
                    delivered := delivered r; queue := queue r;
                    closed := closed r |})
      as (new2 & w2 & made2 & -> & Hmade2 & Hnew2).
    exists (new1 ++ new2), w2, (made1 ++ made2). simpl.
    rewrite !(assoc_L (++)). split; [done|].
    split; [by apply Forall_app|].
    change (tc :: tcs) with ([tc] ++ tcs). rewrite filter_app.
    by apply Forall2_app.
Qed.

(** The [try] block of [start], case by case, on a new controller. *)
Lemma start_try_invoke_throws history (w : W) error w1 :
  model_invoke history w = (inl error, w1) →
  start_try history (fresh w)
  = (inl error,
     {| world := w1; calls := [InvokeCall history]; delivered := [];
        queue := []; closed := false |}).
Proof.
  intros Hinvoke. unfold start_try, invoke, bind, record_call, on_world. simpl.
  by rewrite Hinvoke.
Qed.

Lemma start_try_direct history (w : W) response w1 frs term w2 :
  model_invoke history w = (inr response, w1) →
  tool_calls response = None ∨ tool_calls response = Some [] →
  model_stream history w1 = ((frs, term), w2) →
  start_try history (fresh w)
  = (match term with Some e => inl e | None => inr tt end,
     {| world := w2; calls := [InvokeCall history; StreamCall history];
        delivered := [];
        queue := map sse_frame (flat_map forwarded_direct frs)
                 ++ match term with Some _ => [] | None => [done_frame] end;
        closed := match term with Some _ => false | None => true end |}).
Proof.
  intros Hinvoke Hnone Hstream. unfold start_try.
  assert (invoke history (fresh w)
          = (inr response,
             {| world := w1; calls := [InvokeCall history]; delivered := [];
                queue := []; closed := false |})) as Hrun.
  { unfold invoke, bind, record_call, on_world. simpl. by rewrite Hinvoke. }
  rewrite (bind_inr _ _ _ _ _ Hrun).
  assert ((let! s := stream history in for_await s direct_body)
            {| world := w1; calls := [InvokeCall history]; delivered := [];
                  queue := []; closed := false |}
          = (match term with Some e => inl e | None => inr tt end,
             {| world := w2; calls := [InvokeCall history; StreamCall history];
                delivered := [];
                queue := map sse_frame (flat_map forwarded_direct frs);
                closed := false |})) as Hbody.
  { unfold stream, bind at 1 2, record_call, on_world. simpl.
    rewrite Hstream.
    by rewrite (for_await_enqueues direct_body forwarded_direct direct_body_run). }
  destruct term as [e|]; destruct Hnone as [-> | ->].
  - rewrite (bind_inl _ _ _ _ _ Hbody). by rewrite app_nil_r.
  - rewrite (bind_inl _ _ _ _ _ Hbody). by rewrite app_nil_r.
  - rewrite (bind_inr _ _ _ _ _ Hbody).
    unfold bind, enqueue, close. done.
  - rewrite (bind_inr _ _ _ _ _ Hbody).
    unfold bind, enqueue, close. done.
Qed.

Lemma start_try_tools history (w : W) response w1 requested :
  model_invoke history w = (inr response, w1) →
  tool_calls response = Some requested → requested ≠ [] →
  ∃ toolMessages w2 made frs term w3,
    Forall is_tool_event made ∧
    Forall2 answers (filter resolvable requested) toolMessages ∧
    model_stream (history ++ [AIMessage response] ++ toolMessages) w2
    = ((frs, term), w3) ∧
    start_try history (fresh w)
    = (match term with Some e => inl e | None => inr tt end,
       {| world := w3;
          calls := [InvokeCall history] ++ made ++
                   [StreamCall (history ++ [AIMessage response] ++ toolMessages)];
          delivered := [];
          queue := map sse_frame (flat_map forwarded_final frs)
                   ++ match term with Some _ => [] | None => [done_frame] end;
          closed := match term with Some _ => false | None => true end |}).
Proof.
  intros Hinvoke Hcalls Hne. unfold start_try.
  assert (invoke history (fresh w)
          = (inr response,
             {| world := w1; calls := [InvokeCall history]; delivered := [];
                queue := []; closed := false |})) as Hrun.
  { unfold invoke, bind, record_call, on_world. simpl. by rewrite Hinvoke. }
  rewrite (bind_inr _ _ _ _ _ Hrun). rewrite Hcalls.
  destruct requested as [|tc tcs]; [done|].
  destruct (executeToolCalls_from_run (tc :: tcs) []
              {| world := w1; calls := [InvokeCall history]; delivered := [];
                 queue := []; closed := false |})
    as (toolMessages & w2 & made & Htools & Hmade & Hanswers).
  simpl in Htools.
  destruct (model_stream (history ++ [AIMessage response] ++ toolMessages) w2)
    as [[frs term] w3] eqn:Hstream.
  exists toolMessages, w2, made, frs, term, w3.
  split; [done|]. split; [done|]. split; [done|].
  assert ((let! toolMessages := executeToolCalls (tc :: tcs) in
           let langchainMessages :=
             history ++ [AIMessage response] ++ toolMessages in
           let! finalStream := stream langchainMessages in
           for_await finalStream final_body)
            {| world := w1; calls := [InvokeCall history]; delivered := [];
                  queue := []; closed := false |}
          = (match term with Some e => inl e | None => inr tt end,
             {| world := w3;
                calls := [InvokeCall history] ++ made ++
                  [StreamCall (history ++ [AIMessage response] ++ toolMessages)];
                delivered := [];
                queue := map sse_frame (flat_map forwarded_final frs);
                closed := false |})) as Hbody.
  { unfold executeToolCalls.
    rewrite (bind_inr _ _ _ _ _ Htools).
    cbv beta zeta. unfold stream, bind at 1 2, record_call, on_world.
    simpl in Hstream |- *. rewrite Hstream.
    by rewrite (for_await_enqueues final_body forwarded_final final_body_run). }
  destruct term as [e|].
  - rewrite (bind_inl _ _ _ _ _ Hbody). by rewrite app_nil_r.
  - rewrite (bind_inr _ _ _ _ _ Hbody).
    unfold bind, enqueue, close. done.
Qed.

Lemma start_catch_run error r :
  closed r = false →
  start_catch error r
  = (inr tt,
     {| world := world r; calls := calls r; delivered := delivered r;
        queue := queue r ++ [sse_frame (error_chunk (Js.String_of error))];
        closed := true |}).
Proof.
  intros Hr. unfold start_catch.
  rewrite (bind_inr _ _ _ _ _ (enqueue_run r _ Hr)).
  unfold close, enqueued. simpl. by rewrite Hr.
Qed.

(** [start] after its [try] block: a block that completed has closed the
    stream, a block that threw has not, and then the handler appends the
    error frame and closes. *)
Lemma start_of_try history r outcome r1 :
  start_try history r = (outcome, r1) →
  closed r1 = (match outcome with inl _ => false | inr _ => true end) →
  start history r
  = (inr tt,
     {| world := world r1; calls := calls r1; delivered := delivered r1;
        queue := queue r1 ++
                 match outcome with
                 | inl error => [sse_frame (error_chunk (Js.String_of error))]
                 | inr _ => []
                 end;
        closed := true |}).
Proof.
  intros Htry Hclosed. unfold start. destruct outcome as [error|[]].
  - rewrite (try_catch_inl _ _ _ _ _ Htry). by apply start_catch_run.
  - rewrite (try_catch_inr _ _ _ _ _ Htry).
    destruct r1; simpl in *. by rewrite Hclosed, app_nil_r.
Qed.



(** ** Frames *)



Lemma no_control_sapp s t : no_control (s +:+ t) = no_control s && no_control t.
Proof.
  induction s as [|c s IH]; [done|]. rewrite sapp_cons. simpl.
  by rewrite IH, andb_assoc.
Qed.

Lemma json_escape_no_control c : no_control (Js.json_escape c) = true.
Proof. destruct c as [[] [] [] [] [] [] [] []]; vm_compute; reflexivity. Qed.

Lemma JSON_string_no_control s : no_control (Js.JSON_string s) = true.
Proof.
  unfold Js.JSON_string. rewrite !no_control_sapp.
  assert (no_control (Js.json_escape_all s) = true) as ->; [|done].
  induction s as [|c s IH]; [done|]. simpl.
  by rewrite no_control_sapp, json_escape_no_control, IH.
Qed.

(** The payload of a frame has no line break: a frame is one [data:] line
    and the blank line that ends it. *)
Lemma JSON_stringify_no_control (chunk : StreamChunk) :
  no_control (JSON_stringify chunk) = true.
Proof.
  unfold JSON_stringify, Js.JSON_object.
  destruct chunk as [t [text|] [err|]]; simpl.
  all: rewrite ?no_control_sapp, ?JSON_string_no_control; simpl.
  all: by destruct t.
Qed.



(** ** The callback of [streamChat] *)

Lemma call_back_run onChunk chunk r :
  ∃ outcome w',
    call_back onChunk chunk r
    = (outcome,
       {| world := w'; calls := calls r; delivered := delivered r ++ [chunk];
          queue := queue r; closed := closed r |}).
Proof.
  unfold call_back. destruct (onChunk chunk (world r)) as [e w']. by eexists _, w'.
Qed.

Lemma streamChat_body_run onChunk chunk r :
  ∃ outcome w' new,
    streamChat_body onChunk chunk r
    = (outcome,
       {| world := w'; calls := calls r; delivered := delivered r ++ new;
          queue := queue r; closed := closed r |}) ∧
    new `prefix_of` forwarded_direct chunk ∧
    (∀ u, outcome = inr u → new = forwarded_direct chunk).
Proof.
  assert (∀ r, (inr tt, r) =
               (inr tt : Js.Thrown + unit,
                {| world := world r; calls := calls r;
                   delivered := delivered r ++ [];
                   queue := queue r; closed := closed r |})) as Hnone.
  { intros [?????]; simpl. by rewrite app_nil_r. }
  unfold streamChat_body, forwarded_direct.
  destruct (fragment_content chunk) as [text|];
    [|exists (inr tt), (world r), []; by rewrite <-Hnone].
  destruct (Js.truthy text);
    [|exists (inr tt), (world r), []; by rewrite <-Hnone].
  destruct (call_back_run onChunk (content_chunk text) r)
    as ([e|[]] & w1 & Hfirst).
  { rewrite (bind_inl _ _ _ _ _ Hfirst). exists (inl e), w1, [content_chunk text].
    split; [done|]. split; [|done]. by apply prefix_cons, prefix_nil. }
  rewrite (bind_inr _ _ _ _ _ Hfirst).
  destruct (Js.truthy_opt (thinkingContent chunk)).
  - match goal with
    | |- context [call_back onChunk ?c ?r1] =>
        destruct (call_back_run onChunk c r1) as (outcome & w2 & ->)
    end.
    simpl. exists outcome, w2, [content_chunk text; thinking_chunk (thinkingContent chunk)].
    by rewrite <-(assoc_L (++)).
  - by exists (inr tt), w1, [content_chunk text].
Qed.

Lemma for_of_streamChat_body onChunk (frs : list AIMessageChunk) :
  ∀ r, ∃ outcome w' new,
    for_of frs (streamChat_body onChunk) r
    = (outcome,
       {| world := w'; calls := calls r; delivered := delivered r ++ new;
          queue := queue r; closed := closed r |}) ∧
    new `prefix_of` flat_map forwarded_direct frs.
Proof.
  induction frs as [|f frs IH]; intros r.
  - exists (inr tt), (world r), []. destruct r; simpl. by rewrite app_nil_r.
  - simpl.
    destruct (streamChat_body_run onChunk f r)
      as ([e|[]] & w1 & new1 & Hrun1 & Hpre1 & Hall1).
    + rewrite (bind_inl _ _ _ _ _ Hrun1). exists (inl e), w1, new1.
      split; [done|]. by apply prefix_app_r.
    + rewrite (bind_inr _ _ _ _ _ Hrun1).
      match goal with
      | |- context [for_of frs _ ?r1] =>
          destruct (IH r1) as (outcome & w2 & new2 & -> & Hpre2)
      end.
      simpl. exists outcome, w2, (new1 ++ new2).
      rewrite (assoc_L (++)). split; [done|].
      rewrite (Hall1 tt eq_refl). by apply prefix_app.
Qed.

End ClientFacts.

Section SampleRuns.
Import Ollama Sample.

Example capital_question_frames :
  map string_of_list_byte
      (queue (@createStreamingResponse _ scripted capital_question (fresh 0%Z)).2)
  = [ "data: {" +:+ Js.dquote +:+ "type" +:+ Js.dquote +:+ ":" +:+ Js.dquote
      +:+ "content" +:+ Js.dquote +:+ "," +:+ Js.dquote +:+ "content"
      +:+ Js.dquote +:+ ":" +:+ Js.dquote +:+ "Par" +:+ Js.dquote +:+ "}"
      +:+ blank_line;
      "data: {" +:+ Js.dquote +:+ "type" +:+ Js.dquote +:+ ":" +:+ Js.dquote
      +:+ "thinking" +:+ Js.dquote +:+ "," +:+ Js.dquote +:+ "content"
      +:+ Js.dquote +:+ ":" +:+ Js.dquote +:+ "capital?" +:+ Js.dquote +:+ "}"
      +:+ blank_line;
      "data: {" +:+ Js.dquote +:+ "type" +:+ Js.dquote +:+ ":" +:+ Js.dquote
      +:+ "content" +:+ Js.dquote +:+ "," +:+ Js.dquote +:+ "content"
      +:+ Js.dquote +:+ ":" +:+ Js.dquote +:+ "is." +:+ Js.dquote +:+ "}"
      +:+ blank_line;
      "data: [DONE]" +:+ blank_line ].
Proof. vm_compute. reflexivity. Qed.

Example time_question_history :
  calls (@createStreamingResponse _ scripted time_question (fresh 0%Z)).2
  = let history :=
      [SystemMessage "You are a helpful AI assistant.";
       HumanMessage "What time is it?"] in
    [ InvokeCall history;
      ToolCalled "get_current_time" "{}";
      ToolCalled "get_current_timestamp" "{}";
      StreamCall (history ++
                  [AIMessage wants_tools;
                   ToolMessage "2026/01/01 08:00:00" (Some "call_1");
                   ToolMessage "Error: clock unavailable" (Some "call_2")]) ].
Proof. vm_compute. reflexivity. Qed.

Example broken_stream_frames :
  map string_of_list_byte
      (queue (@createStreamingResponse _ broken capital_question (fresh 0%Z)).2)
  = [ "data: {" +:+ Js.dquote +:+ "type" +:+ Js.dquote +:+ ":" +:+ Js.dquote
      +:+ "content" +:+ Js.dquote +:+ "," +:+ Js.dquote +:+ "content"
      +:+ Js.dquote +:+ ":" +:+ Js.dquote +:+ "Par" +:+ Js.dquote +:+ "}"
      +:+ blank_line;
      "data: {" +:+ Js.dquote +:+ "type" +:+ Js.dquote +:+ ":" +:+ Js.dquote
      +:+ "thinking" +:+ Js.dquote +:+ "," +:+ Js.dquote +:+ "content"
      +:+ Js.dquote +:+ ":" +:+ Js.dquote +:+ "capital?" +:+ Js.dquote +:+ "}"
      +:+ blank_line;
      "data: {" +:+ Js.dquote +:+ "type" +:+ Js.dquote +:+ ":" +:+ Js.dquote
      +:+ "error" +:+ Js.dquote +:+ "," +:+ Js.dquote +:+ "error"
      +:+ Js.dquote +:+ ":" +:+ Js.dquote +:+ "Error: fetch failed"
      +:+ Js.dquote +:+ "}" +:+ blank_line ].
Proof. vm_compute. reflexivity. Qed.

End SampleRuns.

(** * Reading frames back *)

Section JsonReadFacts.
Import JsonRead.

Lemma string_literal_escape c rest :
  string_literal (Js.json_escape c +:+ rest)
  = cons_text c <$> string_literal rest.
Proof.
  destruct c as [[] [] [] [] [] [] [] []].
  all: match goal with
       | |- context [Js.json_escape ?c] =>
           let e := eval vm_compute in (Js.json_escape c) in
           change (Js.json_escape c) with e
       end.
  all: rewrite ?sapp_cons, ?sapp_nil_l; reflexivity.
Qed.

(** What [JSON.stringify] writes for a string reads back as that string. *)
Lemma string_literal_JSON_string s rest :
  string_literal (Js.json_escape_all s +:+ Js.dquote +:+ rest) = Some (s, rest).
Proof.
  induction s as [|c s IH]; [done|]. simpl.
  by rewrite sapp_assoc, string_literal_escape, IH.
Qed.

Lemma after_prefix_sapp p s : after_prefix p (p +:+ s) = Some s.
Proof.
  induction p as [|a p IH]; [by destruct s|].
  rewrite sapp_cons. simpl. by rewrite decide_True.
Qed.

End JsonReadFacts.

Section FrameReading.
Import Ollama JsonRead.

Lemma optional_property_present key v rest :
  optional_property key
    (("," +:+ Js.JSON_string key +:+ ":" +:+ Js.JSON_string v) +:+ rest)
  = Some (Some v, rest).
Proof.
  assert (("," +:+ Js.JSON_string key +:+ ":" +:+ Js.JSON_string v) +:+ rest
          = ("," +:+ Js.JSON_string key +:+ ":" +:+ Js.dquote)
            +:+ Js.json_escape_all v +:+ Js.dquote +:+ rest) as ->.
  { unfold Js.JSON_string. by rewrite !sapp_assoc. }
  unfold optional_property.
  by rewrite after_prefix_sapp, string_literal_JSON_string.
Qed.

Lemma type_name_inj t1 t2 : type_name t1 = type_name t2 → t1 = t2.
Proof. by destruct t1, t2. Qed.

(** The JSON of a chunk reads back as its type, content and error. *)
Lemma chunk_object_JSON_stringify (chunk : StreamChunk) :
  chunk_object (JSON_stringify chunk)
  = Some (type_name (type chunk), chunk_content chunk, chunk_error chunk).
Proof.
  assert (∀ t rest,
            chunk_object (("{" +:+ Js.JSON_string "type" +:+ ":" +:+ Js.JSON_string t)
                          +:+ rest)
            = '(c, r2) ← optional_property "content" rest;
              '(e, r3) ← optional_property "error" r2;
              if decide (r3 = "}") then Some (t, c, e) else None) as Hhead.
  { intros t rest.
    assert (("{" +:+ Js.JSON_string "type" +:+ ":" +:+ Js.JSON_string t) +:+ rest
            = ("{" +:+ Js.JSON_string "type" +:+ ":" +:+ Js.dquote)
              +:+ Js.json_escape_all t +:+ Js.dquote +:+ rest) as ->.
    { unfold Js.JSON_string. by rewrite !sapp_assoc. }
    unfold chunk_object. rewrite after_prefix_sapp. simpl.
    by rewrite string_literal_JSON_string. }
  destruct chunk as [t [c|] [e|]]; unfold JSON_stringify, Js.JSON_object; simpl.
  - replace ("{" +:+ ((Js.JSON_string "type" +:+ ":" +:+ Js.JSON_string (type_name t))
                      +:+ "," +:+ (Js.JSON_string "content" +:+ ":" +:+ Js.JSON_string c)
                      +:+ "," +:+ Js.JSON_string "error" +:+ ":" +:+ Js.JSON_string e)
              +:+ "}")
      with (("{" +:+ Js.JSON_string "type" +:+ ":" +:+ Js.JSON_string (type_name t))
            +:+ ("," +:+ Js.JSON_string "content" +:+ ":" +:+ Js.JSON_string c)
            +:+ ("," +:+ Js.JSON_string "error" +:+ ":" +:+ Js.JSON_string e)
            +:+ "}")
      by (by rewrite !sapp_assoc).
    rewrite Hhead, optional_property_present. simpl.
    by rewrite optional_property_present.
  - replace ("{" +:+ ((Js.JSON_string "type" +:+ ":" +:+ Js.JSON_string (type_name t))
                      +:+ "," +:+ Js.JSON_string "content" +:+ ":" +:+ Js.JSON_string c)
              +:+ "}")
      with (("{" +:+ Js.JSON_string "type" +:+ ":" +:+ Js.JSON_string (type_name t))
            +:+ ("," +:+ Js.JSON_string "content" +:+ ":" +:+ Js.JSON_string c)
            +:+ "}")
      by (by rewrite !sapp_assoc).
    by rewrite Hhead, optional_property_present.
  - replace ("{" +:+ ((Js.JSON_string "type" +:+ ":" +:+ Js.JSON_string (type_name t))
                      +:+ "," +:+ Js.JSON_string "error" +:+ ":" +:+ Js.JSON_string e)
              +:+ "}")
      with (("{" +:+ Js.JSON_string "type" +:+ ":" +:+ Js.JSON_string (type_name t))
            +:+ ("," +:+ Js.JSON_string "error" +:+ ":" +:+ Js.JSON_string e)
            +:+ "}")
      by (by rewrite !sapp_assoc).
    rewrite Hhead.
    assert (∀ rest, optional_property "content"
                      (("," +:+ Js.JSON_string "error" +:+ ":" +:+ Js.JSON_string e)
                       +:+ rest)
                    = Some (None, ("," +:+ Js.JSON_string "error" +:+ ":"
                                   +:+ Js.JSON_string e) +:+ rest)) as ->.
    { intros rest. unfold optional_property.
      by rewrite !sapp_cons, !sapp_nil_l. }
    simpl. by rewrite optional_property_present.
  - replace ("{" +:+ (Js.JSON_string "type" +:+ ":" +:+ Js.JSON_string (type_name t))
              +:+ "}")
      with (("{" +:+ Js.JSON_string "type" +:+ ":" +:+ Js.JSON_string (type_name t))
            +:+ "}")
      by (by rewrite !sapp_assoc).
    by rewrite Hhead.
Qed.

Lemma sapp_inj_r (s t u : string) : s +:+ u = t +:+ u → s = t.
Proof.
  revert t. induction s as [|c s IH]; intros [|d t] Heq; [done|..].
  - apply (f_equal String.length) in Heq.
    rewrite sapp_nil_l, sapp_cons in Heq. simpl in Heq.
    rewrite slength_app in Heq. lia.
  - apply (f_equal String.length) in Heq.
    rewrite sapp_nil_l, sapp_cons in Heq. simpl in Heq.
    rewrite slength_app in Heq. lia.
  - rewrite !sapp_cons in Heq. injection Heq as -> Heq. f_equal. by apply IH.
Qed.

(** X11.  A frame determines its chunk: two chunks with the same frame
    have the same type, the same content and the same error. *)
Theorem sse_frame_inj (c1 c2 : StreamChunk) :
  sse_frame c1 = sse_frame c2 → c1 = c2.
Proof.
  unfold sse_frame, Js.encode. intros Heq.
  apply (f_equal string_of_list_byte) in Heq.
  rewrite !string_of_list_byte_of_string in Heq.
  apply (inj (String.append "data: ")) in Heq.
  apply (sapp_inj_r _ _ (Js.nl +:+ Js.nl)) in Heq.
  apply (f_equal chunk_object) in Heq.
  rewrite !chunk_object_JSON_stringify in Heq.
  destruct c1, c2; simpl in *. injection Heq as Ht -> ->.
  by apply type_name_inj in Ht as ->.
Qed.

End FrameReading.

(** * The claims about the chat model client *)

Section ClientClaims.
Context {W : Type} `{!Ollama.Instance W}.
Import Ollama.

Lemma filter_all {A} (P : A → Prop) `{!∀ x, Decision (P x)} (l : list A) :
  Forall P l → filter P l = l.
Proof.
  induction 1 as [|x l Hx _ IH]; [done|].
  by rewrite filter_cons_True, IH.
Qed.

(** A shared description of the [try] block on a new controller: it
    leaves the frames of content and thinking chunks, then the sentinel
    and a closed stream exactly when it completed. *)
Lemma start_try_shape history (w : W) :
  ∃ chunks outcome r1,
    start_try history (fresh w) = (outcome, r1) ∧
    Forall (λ c, type c = Content ∨ type c = Thinking) chunks ∧
    queue r1 = map sse_frame chunks
               ++ match outcome with inl _ => [] | inr _ => [done_frame] end ∧
    closed r1 = match outcome with inl _ => false | inr _ => true end.
Proof.
  destruct (model_invoke history w) as [[error|response] w1] eqn:Hinvoke.
  { exists [], (inl error). eexists.
    split; [by apply start_try_invoke_throws|]. by split; [constructor|]. }
  assert (tool_calls response = None ∨ tool_calls response = Some []
          ∨ ∃ requested, tool_calls response = Some requested ∧ requested ≠ [])
    as [Hnone|[Hnone|(requested & Hcalls & Hne)]].
  { destruct (tool_calls response) as [[|tc tcs]|]; eauto 6. }
  1,2: destruct (model_stream history w1) as [[frs term] w2] eqn:Hstream.
  1,2: exists (flat_map forwarded_direct frs).
  1,2: eexists _, _; split;
       [eapply start_try_direct; [exact Hinvoke | by auto | exact Hstream]|].
  1,2: split; [apply forwarded_direct_types|]; by destruct term.
  destruct (start_try_tools _ _ _ _ _ Hinvoke Hcalls Hne)
    as (toolMessages & w2 & made & frs & term & w3 & _ & _ & _ & Hrun).
  exists (flat_map forwarded_final frs). eexists _, _. split; [exact Hrun|].
  split; [|by destruct term].
  eapply Forall_impl; [apply forwarded_final_content|]. by left.
Qed.


(** C6.  When the first response asks for tool calls, the only calls
    between [model.invoke] and the second model invocation are tool
    invocations, and the second invocation streams over the converted
    history, then the assistant's tool-call message, then the tool
    messages, which answer, in order, the requested calls whose name is in
    the registry (a call with an unknown name adds nothing, a tool that
    throws is answered by [Error: ] and the message); so they are as many
    as the calls when every name resolves.  The turn throws only if that
    second stream does. *)
Theorem tool_round_trip (messages : list ChatMessage) (w : W) response w1 requested :
  model_invoke (convertToLangChainMessages messages) w = (inr response, w1) →
  tool_calls response = Some requested →
  requested ≠ [] →
  let history := convertToLangChainMessages messages in
  ∃ toolMessages made w2 frs term w3,
    calls (createStreamingResponse messages (fresh w)).2
    = [InvokeCall history] ++ made ++
      [StreamCall (history ++ [AIMessage response] ++ toolMessages)] ∧
    Forall is_tool_event made ∧
    Forall2 answers (filter resolvable requested) toolMessages ∧
    (Forall resolvable requested →
       List.length toolMessages = List.length requested ∧
       Forall2 answers requested toolMessages) ∧
    model_stream (history ++ [AIMessage response] ++ toolMessages) w2
    = ((frs, term), w3) ∧
    (start_try history (fresh w)).1
    = match term with Some e => inl e | None => inr tt end.
Proof.
  intros Hinvoke Hcalls Hne history. subst history.
  destruct (start_try_tools _ _ _ _ _ Hinvoke Hcalls Hne)
    as (toolMessages & w2 & made & frs & term & w3
        & Hmade & Hanswers & Hstream & Hrun).
  exists toolMessages, made, w2, frs, term, w3.
  unfold createStreamingResponse.
  rewrite (start_of_try _ _ _ _ Hrun) by (by destruct term).
  rewrite Hrun. simpl.
  split; [done|]. split; [done|]. split; [done|]. split; [|done].
  intros Hall. rewrite filter_all in Hanswers by done.
  split; [|done]. symmetry. by eapply Forall2_length.
Qed.


End ClientClaims.

Section StreamChatClaims.
Context {W : Type} `{!Ollama.Instance W}.
Import Ollama.

(** What [streamChat] hands to the callback: a prefix of what the
    fragments forward (all of it unless the callback threw), then at most
    one error chunk. *)
Lemma streamChat_delivered (messages : list ChatMessage) onChunk (w : W)
    frs term w1 :
  model_stream (convertToLangChainMessages messages) w = ((frs, term), w1) →
  ∃ new,
    new `prefix_of` flat_map forwarded_direct frs ∧
    (delivered (streamChat messages onChunk (fresh w)).2 = new
     ∨ ∃ text,
         delivered (streamChat messages onChunk (fresh w)).2
         = new ++ [error_chunk text]).
Proof.
  intros Hstream. unfold streamChat.
  set (history := convertToLangChainMessages messages) in *.
  assert (stream history (fresh w)
          = (inr (frs, term),
             {| world := w1; calls := [StreamCall history]; delivered := [];
                queue := []; closed := false |})) as Hrun.
  { unfold stream, bind, record_call, on_world. simpl. by rewrite Hstream. }
  match type of Hrun with
  | _ = (_, ?r1) =>
      destruct (for_of_streamChat_body onChunk frs r1)
        as (outcome & w2 & new & Hloop & Hprefix)
  end.
  simpl in Hloop. exists new. split; [done|].
  assert (∀ e,
    (let! s := stream history in for_await s (streamChat_body onChunk)) (fresh w)
    = (inl e,
       {| world := w2; calls := [StreamCall history]; delivered := new;
          queue := []; closed := false |}) →
    ∃ text,
      delivered
        (try_catch
           (let! s := stream history in for_await s (streamChat_body onChunk))
           (λ error, call_back onChunk (error_chunk (Js.message_or_String error)))
           (fresh w)).2
      = new ++ [error_chunk text]) as Hcaught.
  { intros e Htry. rewrite (try_catch_inl _ _ _ _ _ Htry).
    exists (Js.message_or_String e).
    match goal with
    | |- context [call_back onChunk ?c ?r2] =>
        destruct (call_back_run onChunk c r2) as (o & w3 & ->)
    end.
    done. }
  destruct outcome as [e|[]].
  - right. apply (Hcaught e).
    rewrite (bind_inr _ _ _ _ _ Hrun). unfold for_await.
    by rewrite (bind_inl _ _ _ _ _ Hloop).
  - destruct term as [e|].
    + right. apply (Hcaught e).
      rewrite (bind_inr _ _ _ _ _ Hrun). unfold for_await.
      by rewrite (bind_inr _ _ _ _ _ Hloop).
    + left.
      assert ((let! s := stream history in
               for_await s (streamChat_body onChunk)) (fresh w)
              = (inr tt,
                 {| world := w2; calls := [StreamCall history]; delivered := new;
                    queue := []; closed := false |})) as Htry.
      { rewrite (bind_inr _ _ _ _ _ Hrun). unfold for_await.
        by rewrite (bind_inr _ _ _ _ _ Hloop). }
      by rewrite (try_catch_inr _ _ _ _ _ Htry).
Qed.

(** C10.  In [streamChat], among the chunks handed to the callback, and
    in the branch of [createStreamingResponse] without tool calls, among
    the chunks whose frames are enqueued, every thinking chunk comes right
    after the content chunk made from the same fragment of the model's
    stream; a fragment whose content is not a string or is empty makes
    both loop bodies do nothing, whatever thinking it carries. *)
Theorem thinking_only_after_content (messages : list ChatMessage) onChunk (w : W) :
  (let fragments := (model_stream (convertToLangChainMessages messages) w).1.1 in
   thinking_follows_content fragments
     (delivered (streamChat messages onChunk (fresh w)).2)) ∧
  (∀ response w1,
     model_invoke (convertToLangChainMessages messages) w = (inr response, w1) →
     tool_calls response = None ∨ tool_calls response = Some [] →
     ∃ fragments term w2,
       model_stream (convertToLangChainMessages messages) w1
       = ((fragments, term), w2) ∧
       queue (createStreamingResponse messages (fresh w)).2
       = map sse_frame (flat_map forwarded_direct fragments)
         ++ [match term with
             | Some error => sse_frame (error_chunk (Js.String_of error))
             | None => done_frame
             end] ∧
       thinking_follows_content fragments (flat_map forwarded_direct fragments)) ∧
  (∀ chunk (r : Run W),
     silent chunk →
     streamChat_body onChunk chunk r = (inr tt, r) ∧
     direct_body chunk r = (inr tt, r)).
Proof.
  split; [|split].
  - destruct (model_stream (convertToLangChainMessages messages) w)
      as [[frs term] w1] eqn:Hstream. simpl.
    destruct (streamChat_delivered messages onChunk w frs term w1 Hstream)
      as (new & Hprefix & [-> | [text ->]]).
    + eapply follows_prefix; [done|]. apply follows_forwarded_direct.
    + apply follows_app.
      * eapply follows_prefix; [done|]. apply follows_forwarded_direct.
      * apply follows_no_thinking. by repeat constructor.
  - intros response w1 Hinvoke Hnone.
    destruct (model_stream (convertToLangChainMessages messages) w1)
      as [[frs term] w2] eqn:Hstream.
    exists frs, term, w2. split; [done|].
    split; [|apply follows_forwarded_direct].
    unfold createStreamingResponse.
    pose proof (start_try_direct _ _ _ _ _ _ _ Hinvoke Hnone Hstream) as Hrun.
    rewrite (start_of_try _ _ _ _ Hrun) by (by destruct term). simpl.
    destruct term; simpl; by rewrite <-?(assoc_L (++)).
  - intros chunk r Hsilent. unfold silent in Hsilent.
    unfold streamChat_body, direct_body.
    destruct (fragment_content chunk); [by rewrite Hsilent | done].
Qed.

End StreamChatClaims.

Section ClientWitnesses.
Import Ollama Sample.
#[local] Existing Instance scripted.

Lemma tool_round_trip_witness :
  model_invoke (convertToLangChainMessages time_question) 0%Z
  = (inr wants_tools, 0%Z) ∧
  tool_calls wants_tools = Some [ask_time; ask_weather; ask_timestamp] ∧
  [ask_time; ask_weather; ask_timestamp] ≠ [] ∧
  let history := convertToLangChainMessages time_question in
  ∃ toolMessages made w2 frs term w3,
    calls (createStreamingResponse time_question (fresh 0%Z)).2
    = [InvokeCall history] ++ made ++
      [StreamCall (history ++ [AIMessage wants_tools] ++ toolMessages)] ∧
    Forall is_tool_event made ∧
    Forall2 answers (filter resolvable [ask_time; ask_weather; ask_timestamp])
            toolMessages ∧
    (Forall resolvable [ask_time; ask_weather; ask_timestamp] →
       List.length toolMessages = 3 ∧
       Forall2 answers [ask_time; ask_weather; ask_timestamp] toolMessages) ∧
    model_stream (history ++ [AIMessage wants_tools] ++ toolMessages) w2
    = ((frs, term), w3) ∧
    (start_try history (fresh 0%Z)).1
    = match term with Some e => inl e | None => inr tt end.
Proof.
  split; [reflexivity|]. split; [reflexivity|]. split; [done|].
  apply (tool_round_trip time_question 0%Z wants_tools 0%Z
           [ask_time; ask_weather; ask_timestamp]);
    [reflexivity | reflexivity | done].
Defined.


End ClientWitnesses.

(** * The RAG decorator *)

Section DecoratorFacts.
Context {W : Type} `{!Ollama.Instance W} `{!VectorStore.Backend W}.
Import Prompt Ollama VectorStore RAG.
Variable ragOptions : RAG.Options.

(** What leaves [searchSimilarDocuments] as an exception is never null or
    undefined: its handler reads [error.message] before it rethrows. *)
Lemma searchSimilarDocuments_throws query k collectionName embeddingType options
    (w : W) error w' :
  searchSimilarDocuments query k collectionName embeddingType options w
  = (inl error, w') →
  ∀ is_null, error ≠ Js.Nullish is_null.
Proof.
  unfold searchSimilarDocuments, try_catch, bind, ret, read_property, throw.
  destruct (embed_and_query _ _ _ _ _ w) as [[e|results] w1]; [|done].
  destruct e; intros [= <- <-]; done.
Qed.

Lemma lastMessage_None (messages : list ChatMessage) :
  lastMessage messages = None ↔ messages = [].
Proof.
  unfold lastMessage. destruct messages as [|m messages]; [done|].
  split; [|done]. simpl. intros Hnone%lookup_ge_None. simpl in Hnone. lia.
Qed.

Lemma lastMessage_Some (messages : list ChatMessage) last :
  lastMessage messages = Some last ↔
  messages = slice_0_m1 messages ++ [last].
Proof.
  unfold lastMessage, slice_0_m1.
  destruct messages as [|m messages _] using rev_ind.
  { split; [done|]. by intros ?%(f_equal List.length). }
  rewrite length_app, Nat.add_1_r. simpl.
  rewrite Nat.sub_0_r, take_app_length, lookup_app_r, Nat.sub_diag by done.
  simpl. split; [by intros [= ->]|]. by intros [= ->]%(inj (app messages)).
Qed.

(** Replacing the last turn: [messages.slice(0, -1)] followed by the new
    turn is the history with its last element overwritten. *)
Lemma slice_then_turn (messages : list ChatMessage) last turn :
  lastMessage messages = Some last →
  slice_0_m1 messages ++ [turn] = <[List.length messages - 1 := turn]> messages.
Proof.
  intros Hlast%lastMessage_Some. rewrite Hlast at 2 3.
  rewrite length_app, Nat.add_1_r. simpl. rewrite Nat.sub_0_r.
  pose proof (insert_app_r (slice_0_m1 messages) [last] 0 turn) as Hins.
  rewrite Nat.add_0_r in Hins. by rewrite Hins.
Qed.

(** [enhanceMessageWithRAG] touches nothing but the world.  It returns
    the prompt built from the documents found, and the message itself
    when the search threw; but when what the search threw has a
    [constructor] that is null or undefined, the handler's read of
    [error.constructor.name] throws a [TypeError] instead. *)
Lemma enhanceMessageWithRAG_run message (r : Run W) :
  enhanceMessageWithRAG ragOptions message r
  = (match (search ragOptions message (world r)).1 with
     | inr retrievedDocs =>
         inr (buildRAGPrompt message (retrievedDocuments retrievedDocs))
     | inl error =>
         match Js.missing_constructor error with
         | Some is_null => inl (Js.TypeError_read is_null "name")
         | None => inr message
         end
     end,
     with_world r (search ragOptions message (world r)).2).
Proof.
  unfold enhanceMessageWithRAG, try_catch, bind at 1, on_world.
  destruct (search ragOptions message (world r)) as [[error|docs] w'] eqn:Hsearch;
    simpl; [|done].
  pose proof (searchSimilarDocuments_throws _ _ _ _ _ _ _ _ Hsearch) as Hnot.
  destruct error as [| |text m [is_null|]|is_null]; [done | done | done | done |].
  by destruct (Hnot is_null).
Qed.

End DecoratorFacts.

Section DecoratorClaims.
Context {W : Type} `{!Ollama.Instance W} `{!VectorStore.Backend W}.
Import Prompt Ollama VectorStore RAG.
Variable ragOptions : RAG.Options.


(** C8.  On a history whose last turn is a user turn for which RAG is
    used, when [enhanceMessageWithRAG] returns (touching nothing but the
    world), both methods of the decorator run the client on the history
    with only that last turn overwritten, by a user turn that carries the
    enhanced content: same length, every earlier turn in place; when it
    throws, both methods throw the same without running the client.  On
    any other history (empty, last turn not a user turn, or RAG not used)
    they run the client on the history as given. *)
Theorem rag_rewrites_only_last_user_turn (messages : list ChatMessage) (r : Run W) :
  (∀ last enhancedContent r',
     lastMessage messages = Some last →
     role last = user →
     shouldUseRAG ragOptions (content last) = true →
     enhanceMessageWithRAG ragOptions (content last) r = (inr enhancedContent, r') →
     let turn := {| role := user; content := enhancedContent |} in
     let rewritten := <[List.length messages - 1 := turn]> messages in
     r' = with_world r (world r') ∧
     List.length rewritten = List.length messages ∧
     rewritten !! (List.length messages - 1) = Some turn ∧
     (∀ i, i ≠ List.length messages - 1 → rewritten !! i = messages !! i) ∧
     (∀ onChunk,
        RAG.streamChat ragOptions messages onChunk r
        = Ollama.streamChat rewritten onChunk r') ∧
     RAG.createStreamingResponse ragOptions messages r
     = Ollama.createStreamingResponse rewritten r') ∧
  (∀ last error r',
     lastMessage messages = Some last →
     role last = user →
     shouldUseRAG ragOptions (content last) = true →
     enhanceMessageWithRAG ragOptions (content last) r = (inl error, r') →
     (∀ onChunk, RAG.streamChat ragOptions messages onChunk r = (inl error, r')) ∧
     RAG.createStreamingResponse ragOptions messages r = (inl error, r')) ∧
  (messages = []
   ∨ (∃ last, lastMessage messages = Some last ∧
              (role last ≠ user ∨ shouldUseRAG ragOptions (content last) = false)) →
   (∀ onChunk,
      RAG.streamChat ragOptions messages onChunk r
      = Ollama.streamChat messages onChunk r) ∧
   RAG.createStreamingResponse ragOptions messages r
   = Ollama.createStreamingResponse messages r).
Proof.
  split; [|split].
  - intros last enhancedContent r' Hlast Hrole Huse Henhance turn rewritten.
    assert (r' = with_world r (world r')) as Hworld.
    { rewrite enhanceMessageWithRAG_run in Henhance.
      by injection Henhance as _ <-. }
    split; [done|].
    assert (List.length messages - 1 < List.length messages) as Hlt.
    { apply lastMessage_Some in Hlast. rewrite Hlast, length_app. simpl. lia. }
    split; [by apply length_insert|].
    split; [by apply list_lookup_insert_eq|].
    split; [intros i Hi; by apply list_lookup_insert_ne|].
    unfold RAG.streamChat, RAG.createStreamingResponse.
    rewrite Hlast, Huse. split; [intros onChunk|].
    all: rewrite decide_True by done.
    all: rewrite (bind_inr _ _ _ _ _ Henhance).
    all: by rewrite (slice_then_turn messages last).
  - intros last error r' Hlast Hrole Huse Henhance.
    unfold RAG.streamChat, RAG.createStreamingResponse.
    rewrite Hlast, Huse. split; [intros onChunk|].
    all: rewrite decide_True by done.
    all: by rewrite (bind_inl _ _ _ _ _ Henhance).
  - unfold RAG.streamChat, RAG.createStreamingResponse.
    intros [->|(last & -> & [Hrole|Huse])]; [done| |].
    + split; [intros onChunk|]; by rewrite decide_False.
    + rewrite Huse. split; [intros onChunk|]; by case_decide.
Qed.

End DecoratorClaims.

Section DecoratorRuns.
Import Ollama Sample SampleStore.
#[local] Existing Instance scripted.

Example addDocumentsToVectorStore_two_texts :
  (@VectorStore.addDocumentsToVectorStore _ online ["a"; "b"] None
     "rag-documents" VectorStore.ollama None 1700000000000%Z).1
  = inr ["doc-1700000000002-0"; "doc-1700000000003-1"].
Proof. vm_compute. reflexivity. Qed.

Example clock_readings_online :
  map (λ n, @clock_reading _ online n 1700000000000%Z) [0; 1; 2; 3]
  = [1700000000000; 1700000000001; 1700000000002; 1700000000003]%Z.
Proof. reflexivity. Qed.

Example enhance_with_one_record :
  (@RAG.enhanceMessageWithRAG _ online defaults "What is the capital of France?"
     (fresh 0%Z)).1
  = inr (Prompt.header +:+ "[文档 1]" +:+ Js.nl
         +:+ "Paris is the capital of France." +:+ blank_line
         +:+ "用户问题：What is the capital of France?" +:+ blank_line
         +:+ Prompt.instruction).
Proof. vm_compute. reflexivity. Qed.

Example search_offline_throws_TypeError :
  (@RAG.search _ offline defaults "What is the capital of France?" 0%Z).1
  = inl (Js.TypeError_read false "message").
Proof. reflexivity. Qed.

Example search_faulty_throws_object :
  (@RAG.search _ faulty defaults "hi" 0%Z).1
  = inl (Js.ObjectValue "[object Object]" None (Some false)).
Proof. reflexivity. Qed.

Example retrieval_failure_escapes :
  (@RAG.createStreamingResponse _ scripted faulty defaults
     [{| role := user; content := "hi" |}] (fresh 0%Z))
  = (inl (Js.ErrorObject "TypeError"
            "Cannot read properties of undefined (reading 'name')"),
     fresh 0%Z).
Proof. vm_compute. reflexivity. Qed.


Lemma rag_rewrites_only_last_user_turn_witness :
  let question := "What is the capital of France?" in
  let enhancedContent :=
    Prompt.header +:+ "[文档 1]" +:+ Js.nl
    +:+ "Paris is the capital of France." +:+ blank_line
    +:+ "用户问题：What is the capital of France?" +:+ blank_line
    +:+ Prompt.instruction in
  let earlier :=
    [{| role := user; content := "Hello" |};
     {| role := assistant; content := "Hi." |}] in
  let messages := earlier ++ [{| role := user; content := question |}] in
  RAG.lastMessage messages = Some {| role := user; content := question |} ∧
  RAG.shouldUseRAG defaults question = true ∧
  @RAG.enhanceMessageWithRAG _ online defaults question (fresh 0%Z)
  = (inr enhancedContent, fresh 0%Z) ∧
  (∀ onChunk,
     @RAG.streamChat _ scripted online defaults messages onChunk (fresh 0%Z)
     = Ollama.streamChat
         (earlier ++ [{| role := user; content := enhancedContent |}])
         onChunk (fresh 0%Z)) ∧
  @RAG.createStreamingResponse _ scripted online defaults messages (fresh 0%Z)
  = Ollama.createStreamingResponse
      (earlier ++ [{| role := user; content := enhancedContent |}]) (fresh 0%Z).
Proof.
  intros question enhancedContent earlier messages.
  split; [reflexivity|]. split; [reflexivity|].
  split; [vm_compute; reflexivity|].
  apply (proj1 (@rag_rewrites_only_last_user_turn _ scripted online defaults
                  messages (fresh 0%Z))
           {| role := user; content := question |} enhancedContent (fresh 0%Z));
    [reflexivity | reflexivity | reflexivity | vm_compute; reflexivity].
Defined.

End DecoratorRuns.

(** * Further properties of the chat model client *)

Section RegistryFacts.
Context {W : Type} `{!Ollama.Instance W}.
Import Ollama.

Lemma toolMap_snoc (tools : list (Tool W)) tool :
  foldl (λ m t, <[tool_name t := t]> m) (∅ : gmap string (Tool W)) (tools ++ [tool])
  = <[tool_name tool := tool]>
      (foldl (λ m t, <[tool_name t := t]> m) ∅ tools).
Proof. by rewrite foldl_app. Qed.

Lemma registry_lookup (tools : list (Tool W)) n :
  foldl (λ m t, <[tool_name t := t]> m) (∅ : gmap string (Tool W)) tools !! n
  = last (filter (λ t, tool_name t = n) tools).
Proof.
  induction tools as [|tool tools IH] using rev_ind; [done|].
  rewrite toolMap_snoc, filter_app.
  destruct (decide (tool_name tool = n)) as [<-|Hne].
  - rewrite lookup_insert_eq, filter_cons_True, filter_nil by done.
    by rewrite last_snoc.
  - rewrite lookup_insert_ne by done.
    rewrite filter_cons_False, filter_nil by done. by rewrite app_nil_r.
Qed.

(** X1.  The tool registry built by the constructor resolves a name
    exactly when a tool of the static list has that name, and then to the
    last tool of the list with that name. *)
Theorem toolMap_resolves (n : string) :
  toolMap !! n = last (filter (λ t, tool_name t = n) getTools) ∧
  (is_Some (toolMap !! n) ↔ ∃ tool, tool ∈ getTools ∧ tool_name tool = n) ∧
  (∀ tool, toolMap !! n = Some tool → tool ∈ getTools ∧ tool_name tool = n) ∧
  (∀ before tool after,
     getTools = before ++ tool :: after →
     tool_name tool = n →
     Forall (λ t, tool_name t ≠ n) after →
     toolMap !! n = Some tool).
Proof.
  unfold toolMap. rewrite registry_lookup.
  assert (∀ tool, last (filter (λ t, tool_name t = n) getTools) = Some tool →
                  tool ∈ getTools ∧ tool_name tool = n) as Hlast.
  { intros tool Hl%last_Some_elem_of.
    by apply list_elem_of_filter in Hl as [? ?]. }
  split; [done|]. split; [|split; [done|]].
  - split.
    + intros [tool Htool]. exists tool. by apply Hlast.
    + intros (tool & Hin & Hname).
      apply last_is_Some. intros Hnil.
      assert (tool ∈ filter (λ t, tool_name t = n) getTools) as Hf
        by by apply list_elem_of_filter.
      rewrite Hnil in Hf. by apply not_elem_of_nil in Hf.
  - intros before tool after -> Hname Hafter.
    rewrite filter_app, filter_cons_True by done.
    rewrite last_app_cons.
    assert (filter (λ t, tool_name t = n) after = []) as ->.
    { clear -Hafter. induction Hafter as [|t l Ht _ IH]; [done|].
      by rewrite filter_cons_False. }
    done.
Qed.

End RegistryFacts.

Section InvocationFacts.
Context {W : Type} `{!Ollama.Instance W}.
Import Ollama.
Implicit Types r : Run W.

Lemma toolMap_name n (tool : Tool W) :
  toolMap !! n = Some tool → tool_name tool = n.
Proof.
  unfold toolMap. rewrite registry_lookup. intros Hl%last_Some_elem_of.
  by apply list_elem_of_filter in Hl as [? ?].
Qed.

Lemma executeToolCalls_body_calls toolMessages (toolCall : ToolCall) r :
  ∃ new w',
    executeToolCalls_body toolMessages toolCall r
    = (inr (toolMessages ++ new),
       {| world := w';
          calls := calls r ++ map invocation (filter resolvable [toolCall]);
          delivered := delivered r; queue := queue r; closed := closed r |}) ∧
    List.length new = List.length (filter resolvable [toolCall]).
Proof.
  unfold executeToolCalls_body.
  destruct (toolMap !! name toolCall) as [tool|] eqn:Htool.
  - rewrite filter_cons_True by (unfold resolvable; by rewrite Htool).
    rewrite filter_nil.
    unfold try_catch, invoke_tool, bind, record_call, on_world, ret. simpl.
    unfold invocation. rewrite (toolMap_name _ _ Htool).
    destruct (tool_invoke tool (default "{}" (args toolCall)) (world r))
      as [[error|result] w1]; by eexists [_], w1.
  - rewrite filter_cons_False
      by (unfold resolvable; rewrite Htool; by intros [??]).
    exists [], (world r). split; [|done].
    destruct r; unfold ret; simpl. by rewrite !app_nil_r.
Qed.

(** X2.  [executeToolCalls] never throws and never touches the response
    stream; the tools it invokes are those of the requested calls whose
    name resolves, once each, in the order requested, each with the call's
    arguments (an empty object when the call has none), also after a tool
    has failed; no other tool is invoked, and there is one tool message
    per invocation. *)
Theorem executeToolCalls_invocations (toolCalls : list ToolCall) r :
  ∃ toolMessages w',
    executeToolCalls toolCalls r
    = (inr toolMessages,
       {| world := w';
          calls := calls r ++ map invocation (filter resolvable toolCalls);
          delivered := delivered r; queue := queue r; closed := closed r |}) ∧
    List.length toolMessages = List.length (filter resolvable toolCalls).
Proof.
  unfold executeToolCalls.
  cut (∀ acc r, ∃ new w',
         executeToolCalls_from acc toolCalls r
         = (inr (acc ++ new),
            {| world := w';
               calls := calls r ++ map invocation (filter resolvable toolCalls);
               delivered := delivered r; queue := queue r;
               closed := closed r |}) ∧
         List.length new = List.length (filter resolvable toolCalls)).
  { intros Hgen. destruct (Hgen [] r) as (new & w' & Hrun & Hlen).
    by exists new, w'. }
  induction toolCalls as [|tc tcs IH]; intros acc r0.
  - exists [], (world r0). split; [|done].
    destruct r0; simpl. by rewrite !app_nil_r.
  - simpl.
    destruct (executeToolCalls_body_calls acc tc r0) as (new1 & w1 & Hrun1 & Hlen1).
    rewrite (bind_inr _ _ _ _ _ Hrun1).
    match goal with
    | |- context [executeToolCalls_from _ tcs ?r1] =>
        destruct (IH (acc ++ new1) r1) as (new2 & w2 & -> & Hlen2)
    end.
    exists (new1 ++ new2), w2. simpl.
    change (tc :: tcs) with ([tc] ++ tcs).
    rewrite filter_app, map_app, !(assoc_L (++)), !length_app.
    split; [done | lia].
Qed.

End InvocationFacts.

Section MoreClientFacts.
Context {W : Type} `{!Ollama.Instance W}.
Import Ollama.

(** X3.  When the first, non-streaming call of the model throws, the
    response stream is exactly one error frame carrying [String(error)],
    then closed; the model is not called again and no tool is invoked. *)
Theorem invoke_failure_response (messages : list ChatMessage) (w : W) error w1 :
  model_invoke (convertToLangChainMessages messages) w = (inl error, w1) →
  createStreamingResponse messages (fresh w)
  = (inr tt,
     {| world := w1;
        calls := [InvokeCall (convertToLangChainMessages messages)];
        delivered := [];
        queue := [sse_frame (error_chunk (Js.String_of error))];
        closed := true |}).
Proof.
  intros Hinvoke. unfold createStreamingResponse.
  by rewrite (start_of_try _ _ _ _ (start_try_invoke_throws _ _ _ _ Hinvoke)).
Qed.

(** X4.  When the first response asks for no tool, the model is called a
    second time, streaming, over the same history; no tool is invoked; the
    frames come from the fragments of that second call alone (what the
    first call answered is not sent), followed by the sentinel, or by the
    error frame when the stream broke. *)
Theorem direct_answer_response (messages : list ChatMessage) (w : W)
    response w1 fragments term w2 :
  model_invoke (convertToLangChainMessages messages) w = (inr response, w1) →
  tool_calls response = None ∨ tool_calls response = Some [] →
  model_stream (convertToLangChainMessages messages) w1 = ((fragments, term), w2) →
  createStreamingResponse messages (fresh w)
  = (inr tt,
     {| world := w2;
        calls := [InvokeCall (convertToLangChainMessages messages);
                  StreamCall (convertToLangChainMessages messages)];
        delivered := [];
        queue := map sse_frame (flat_map forwarded_direct fragments)
                 ++ [match term with
                     | Some error => sse_frame (error_chunk (Js.String_of error))
                     | None => done_frame
                     end];
        closed := true |}).
Proof.
  intros Hinvoke Hnone Hstream. unfold createStreamingResponse.
  rewrite (start_of_try _ _ _ _
             (start_try_direct _ _ _ _ _ _ _ Hinvoke Hnone Hstream))
    by (by destruct term).
  destruct term; simpl; by rewrite <-?(assoc_L (++)).
Qed.

Lemma streamChat_quiet_run (messages : list ChatMessage) onChunk (r0 : Run W)
    fragments term w1 :
  (∀ chunk w0, (onChunk chunk w0).1 = None) →
  model_stream (convertToLangChainMessages messages) (world r0)
  = ((fragments, term), w1) →
  ∃ w2,
    streamChat messages onChunk r0
    = (inr tt,
       {| world := w2;
          calls := calls r0 ++ [StreamCall (convertToLangChainMessages messages)];
          delivered := delivered r0 ++ flat_map forwarded_direct fragments
                       ++ match term with
                          | Some error => [error_chunk (Js.message_or_String error)]
                          | None => []
                          end;
          queue := queue r0; closed := closed r0 |}).
Proof.
  intros Hquiet Hstream.
  assert (∀ chunk (r : Run W), ∃ w',
            call_back onChunk chunk r
            = (inr tt,
               {| world := w'; calls := calls r; delivered := delivered r ++ [chunk];
                  queue := queue r; closed := closed r |})) as Hcb.
  { intros chunk r. unfold call_back. specialize (Hquiet chunk (world r)).
    destruct (onChunk chunk (world r)) as [[e|] w']; [done|]. by exists w'. }
  assert (∀ chunk (r : Run W), ∃ w',
            streamChat_body onChunk chunk r
            = (inr tt,
               {| world := w'; calls := calls r;
                  delivered := delivered r ++ forwarded_direct chunk;
                  queue := queue r; closed := closed r |})) as Hbody.
  { intros chunk r. unfold streamChat_body, forwarded_direct.
    assert ((inr tt, r) =
            (inr tt : Js.Thrown + unit,
             {| world := world r; calls := calls r;
                delivered := delivered r ++ [];
                queue := queue r; closed := closed r |})) as Hnone.
    { destruct r; simpl. by rewrite app_nil_r. }
    destruct (fragment_content chunk) as [text|];
      [|exists (world r); by rewrite <-Hnone].
    destruct (Js.truthy text); [|exists (world r); by rewrite <-Hnone].
    destruct (Hcb (content_chunk text) r) as [w1' Hfirst].
    rewrite (bind_inr _ _ _ _ _ Hfirst).
    destruct (Js.truthy_opt (thinkingContent chunk)); [|by exists w1'].
    match goal with
    | |- context [call_back onChunk ?c ?r1] =>
        destruct (Hcb c r1) as [w2' ->]
    end.
    exists w2'. simpl. by rewrite <-(assoc_L (++)). }
  assert (∀ frs (r : Run W), ∃ w',
            for_of frs (streamChat_body onChunk) r
            = (inr tt,
               {| world := w'; calls := calls r;
                  delivered := delivered r ++ flat_map forwarded_direct frs;
                  queue := queue r; closed := closed r |})) as Hloop.
  { induction frs as [|f frs IH]; intros r.
    - exists (world r). destruct r; simpl. by rewrite app_nil_r.
    - simpl. destruct (Hbody f r) as [w1' Hrun1].
      rewrite (bind_inr _ _ _ _ _ Hrun1).
      match goal with
      | |- context [for_of frs _ ?r1] => destruct (IH r1) as [w2' ->]
      end.
      exists w2'. simpl. by rewrite (assoc_L (++)). }
  unfold streamChat.
  set (history := convertToLangChainMessages messages) in *.
  assert (stream history r0
          = (inr (fragments, term),
             {| world := w1; calls := calls r0 ++ [StreamCall history];
                delivered := delivered r0;
                queue := queue r0; closed := closed r0 |})) as Hrun.
  { unfold stream, bind, record_call, on_world. simpl. by rewrite Hstream. }
  match type of Hrun with
  | _ = (_, ?r1) => destruct (Hloop fragments r1) as [w2 Hfor]
  end.
  simpl in Hfor.
  destruct term as [error|].
  - assert ((let! s := stream history in
             for_await s (streamChat_body onChunk)) r0
            = (inl error,
               {| world := w2; calls := calls r0 ++ [StreamCall history];
                  delivered := delivered r0 ++ flat_map forwarded_direct fragments;
                  queue := queue r0; closed := closed r0 |})) as Htry.
    { rewrite (bind_inr _ _ _ _ _ Hrun). unfold for_await.
      by rewrite (bind_inr _ _ _ _ _ Hfor). }
    rewrite (try_catch_inl _ _ _ _ _ Htry).
    match goal with
    | |- context [call_back onChunk ?c ?r2] =>
        destruct (Hcb c r2) as [w3 ->]
    end.
    exists w3. simpl. by rewrite <-(assoc_L (++)).
  - exists w2. rewrite app_nil_r. apply try_catch_inr.
    rewrite (bind_inr _ _ _ _ _ Hrun). unfold for_await.
    by rewrite (bind_inr _ _ _ _ _ Hfor).
Qed.

(** X5.  With a callback that does not throw, [streamChat] does not throw
    either: it calls the model once, streaming, hands over the content and
    thinking chunks of all the fragments in order and, when the stream
    ended with an exception, one last error chunk with the error's message
    (the text of [String] for a value that is no [Error]); it never calls
    [model.invoke] nor a tool. *)
Theorem streamChat_quiet_callback (messages : list ChatMessage) onChunk (w : W)
    fragments term w1 :
  (∀ chunk w0, (onChunk chunk w0).1 = None) →
  model_stream (convertToLangChainMessages messages) w = ((fragments, term), w1) →
  ∃ w2,
    streamChat messages onChunk (fresh w)
    = (inr tt,
       {| world := w2;
          calls := [StreamCall (convertToLangChainMessages messages)];
          delivered := flat_map forwarded_direct fragments
                       ++ match term with
                          | Some error => [error_chunk (Js.message_or_String error)]
                          | None => []
                          end;
          queue := []; closed := false |}).
Proof.
  intros Hquiet Hstream.
  destruct (streamChat_quiet_run messages onChunk (fresh w) fragments term w1)
    as [w2 Hrun]; [done | done |].
  exists w2. by rewrite Hrun.
Qed.

(** X6.  The conversion of a history puts the system prompt first and one
    model message per turn after it, a human message for a user turn and an
    assistant message without tool calls for an assistant turn, in order;
    so different histories are different inputs of the model. *)
Theorem convertToLangChainMessages_faithful (messages : list ChatMessage) :
  head (convertToLangChainMessages messages) = Some (SystemMessage systemPrompt) ∧
  List.length (convertToLangChainMessages messages) = S (List.length messages) ∧
  (∀ i turn,
     messages !! i = Some turn →
     convertToLangChainMessages messages !! S i
     = Some (match role turn with
             | user => HumanMessage (content turn)
             | assistant =>
                 AIMessage {| response_content := Text (content turn);
                              tool_calls := Some [] |}
             end)) ∧
  (∀ others,
     convertToLangChainMessages messages = convertToLangChainMessages others →
     messages = others).
Proof.
  unfold convertToLangChainMessages.
  split; [done|]. split; [simpl; by rewrite length_map|]. split.
  - intros i turn Hi. simpl. rewrite list_lookup_fmap, Hi. simpl.
    by destruct (role turn).
  - intros others [= Heq]. revert others Heq.
    induction messages as [|m ms IH]; intros [|o os] Heq; try done.
    simpl in Heq. injection Heq as Hm Hrest. f_equal; [|by apply IH].
    destruct m as [[] mc], o as [[] oc]; simpl in Hm; by simplify_eq.
Qed.

End MoreClientFacts.

(** * Further properties of retrieval *)

Section RetrievalFacts.
Context {W : Type} `{!VectorStore.Backend W}.
Import Prompt VectorStore.

Lemma truthy_iff (s : string) : Js.truthy s = true ↔ s ≠ "".
Proof. by destruct s. Qed.

(** X7.  [searchSimilarDocuments] returns one document per id of the first
    row of the query result, whatever the rows of texts and metadata hold:
    a text that is missing or null becomes the empty string, missing
    metadata the empty mapping, and a result without ids gives no
    document.  What the collaborators throw is rethrown as it is, except
    null and undefined, in place of which the handler's read of
    [error.message] throws a [TypeError]. *)
Theorem searchSimilarDocuments_outcome query k collectionName embeddingType
    options (w : W) :
  match embed_and_query query k collectionName embeddingType options w with
  | (inr results, w') =>
      let row := match ids results with Some (row :: _) => row | _ => [] end in
      let texts := default [] (documents results ≫= head) in
      let metas := default [] (metadatas results ≫= head) in
      ∃ docs,
        searchSimilarDocuments query k collectionName embeddingType options w
        = (inr docs, w') ∧
        List.length docs = List.length row ∧
        ∀ i doc, docs !! i = Some doc →
          pageContent doc = default "" (mjoin (texts !! i)) ∧
          metadata doc = default ∅ (mjoin (metas !! i))
  | (inl (Js.Nullish is_null), w') =>
      searchSimilarDocuments query k collectionName embeddingType options w
      = (inl (Js.TypeError_read is_null "message"), w')
  | (inl error, w') =>
      searchSimilarDocuments query k collectionName embeddingType options w
      = (inl error, w')
  end.
Proof.
  unfold searchSimilarDocuments, try_catch, bind, ret, read_property, throw.
  destruct (embed_and_query _ _ _ _ _ w) as [[[| | |is_null]|results] w']; try done.
  simpl. eexists. split; [done|]. unfold zip_documents.
  destruct (ids results) as [[|row rows]|]; simpl; [by split|..|by split].
  split; [by rewrite length_imap|].
  intros i doc [id [_ ->]]%list_lookup_imap_Some. simpl.
  split; [|done]. by destruct (mjoin _).
Qed.

(** X8.  Once the store is created, [addDocumentsToVectorStore] hands it
    one document and one identifier per text, in the order of the texts:
    the document at a position carries the text of that position and the
    caller's metadata for it or, when the caller gave none, the position
    and the timestamp that [Date.now()] returned at the call made for this
    document (the clock is read once for every document without given
    metadata, in order, from the creation of the store on).  It returns
    the identifiers when the store takes the documents and rethrows the
    store's error otherwise. *)
Theorem addDocumentsToVectorStore_documents (texts : list string) given
    collectionName embeddingType options (w : W) store w1 :
  createVectorStore collectionName embeddingType options w = (inr store, w1) →
  ∃ docs ids w3,
    addDocumentsToVectorStore texts given collectionName embeddingType options w
    = (match (addDocuments store docs ids w3).1 with
       | inr _ => inr ids
       | inl error => inl error
       end, (addDocuments store docs ids w3).2) ∧
    List.length docs = List.length texts ∧
    List.length ids = List.length texts ∧
    ∀ i text, texts !! i = Some text →
      ∃ doc, docs !! i = Some doc ∧ pageContent doc = text ∧
        match given ≫= (λ l, l !! i) with
        | Some m => metadata doc = m
        | None =>
            metadata doc
            = <["index" := pretty i]>
                (<["timestamp" :=
                     pretty (clock_reading
                               (i - List.length (default [] given)) w1)]> ∅)
        end.
Proof.
  intros Hstore. unfold addDocumentsToVectorStore, Array_map.
  rewrite (bind_inr _ _ _ _ _ Hstore).
  destruct (make_documents_clock given texts 0 w1)
    as (docs & Hdocs & Hlen & Haligned).
  rewrite (bind_inr _ _ _ _ _ Hdocs).
  match type of Hdocs with
  | _ = (_, ?w2) =>
      destruct (make_ids_run texts 0 w2) as (ids & Hrun & Hlen' & _)
  end.
  rewrite (bind_inr _ _ _ _ _ Hrun).
  match type of Hrun with
  | _ = (_, ?w') => set (w3 := w') in *
  end.
  exists docs, ids, w3. split; [|split; [done|split; [done|]]].
  - unfold bind, ret. by destruct (addDocuments store docs ids w3) as [[e|[]] w4].
  - intros i text Hi. destruct (Haligned i text Hi) as (doc & ? & ? & Hmeta).
    exists doc. split; [done|]. split; [done|].
    by rewrite Nat.sub_0_r in Hmeta.
Qed.

End RetrievalFacts.

(** * Further properties of the RAG decorator *)

Section MoreDecoratorFacts.
Context {W : Type} `{!Ollama.Instance W} `{!VectorStore.Backend W}.
Import Prompt Ollama VectorStore RAG.
Variable ragOptions : RAG.Options.

Lemma retrievedDocuments_nil (docs : list Document) :
  retrievedDocuments docs = [] ↔ Forall (λ doc, pageContent doc = "") docs.
Proof.
  unfold retrievedDocuments. induction docs as [|doc docs IH]; [done|].
  destruct (pageContent doc) as [|c s] eqn:Hdoc.
  - rewrite filter_cons_False by (by rewrite Hdoc). rewrite IH.
    split; [by constructor | by inversion 1].
  - rewrite filter_cons_True by (by rewrite Hdoc).
    split; [done | inversion 1; congruence].
Qed.

Lemma buildRAGPrompt_is_query query (docs : list RetrievedDocument) :
  buildRAGPrompt query docs = query ↔ docs = [].
Proof.
  split; [|by intros ->]. unfold buildRAGPrompt.
  destruct docs as [|doc docs]; [done|]. rewrite decide_False by done.
  intros Heq. pose proof (template_length query (contextSections (doc :: docs))).
  rewrite Heq in *. lia.
Qed.

(** X9.  [enhanceMessageWithRAG] gives back the message unchanged exactly
    when the search threw a value that has a constructor or found no
    document with a non-empty text.  When the search threw a value whose
    [constructor] is null or undefined, it throws the [TypeError] of the
    handler's read of [error.constructor.name].  When the search found a
    document with a non-empty text, it gives the prompt built from the
    documents with a non-empty text, in the order found, numbered from 1
    without gaps. *)
Theorem enhanceMessageWithRAG_changes message (r : Run W) :
  ((enhanceMessageWithRAG ragOptions message r).1 = inr message ↔
   match (search ragOptions message (world r)).1 with
   | inl error => Js.missing_constructor error = None
   | inr docs => Forall (λ doc, pageContent doc = "") docs
   end) ∧
  (∀ error is_null,
     (search ragOptions message (world r)).1 = inl error →
     Js.missing_constructor error = Some is_null →
     (enhanceMessageWithRAG ragOptions message r).1
     = inl (Js.TypeError_read is_null "name")) ∧
  (∀ docs,
     (search ragOptions message (world r)).1 = inr docs →
     ¬ Forall (λ doc, pageContent doc = "") docs →
     (enhanceMessageWithRAG ragOptions message r).1
     = inr (header
            +:+ Js.join (Js.nl +:+ Js.nl)
                  (imap (λ i text, "[文档 " +:+ pretty (i + 1) +:+ "]"
                                   +:+ Js.nl +:+ text)
                        (filter (λ text, text ≠ "") (map pageContent docs)))
            +:+ question_part message)).
Proof.
  rewrite enhanceMessageWithRAG_run. simpl.
  destruct (search ragOptions message (world r)) as [[error|docs] w']; simpl.
  { destruct (Js.missing_constructor error) as [is_null|] eqn:Hm.
    - split; [by split|]. split; [|done].
      intros ?? [= <-] Hmissing. rewrite Hm in Hmissing. by simplify_eq.
    - split; [by split|]. split; [|done].
      intros ?? [= <-] Hmissing. by rewrite Hm in Hmissing. }
  split; [|split; [done|]].
  - rewrite <-retrievedDocuments_nil, <-buildRAGPrompt_is_query.
    split; [by intros [=] | by intros ->].
  - intros ? [= <-] Hsome. f_equal.
    rewrite buildRAGPrompt_nonempty
      by (by intros Hnil%retrievedDocuments_nil).
    unfold buildPrompt. rewrite template_question_part. do 2 f_equal.
    unfold contextSections, retrievedDocuments. f_equal.
    clear Hsome.
    assert (∀ (f g : nat → nat) (l : list Document),
              (∀ i, f i = g i) →
              imap (λ index doc, section doc (f index))
                   (map (λ doc, {| Prompt.content := pageContent doc;
                                   Prompt.metadata := VectorStore.metadata doc |})
                        (filter (λ doc, Js.truthy (pageContent doc) = true) l))
              = imap (λ i text, "[文档 " +:+ pretty (g i + 1) +:+ "]"
                                +:+ Js.nl +:+ text)
                     (filter (λ text, text ≠ "") (map pageContent l))) as Hgen.
    { intros f g l. revert f g. induction l as [|doc l IH]; intros f g Hfg; [done|].
      simpl map. destruct (pageContent doc) as [|c s] eqn:Hdoc.
      - rewrite filter_cons_False by (by rewrite Hdoc).
        rewrite (filter_cons_False (λ text, text ≠ "")) by (by intros ?).
        by apply IH.
      - rewrite filter_cons_True by (by rewrite Hdoc).
        rewrite (filter_cons_True (λ text, text ≠ "")) by done.
        simpl. f_equal.
        + unfold section, label, Js.index_toString. simpl.
          by rewrite Hfg, Hdoc, !sapp_assoc.
        + apply (IH (f ∘ S) (g ∘ S)). intros i. simpl. by rewrite Hfg. }
    by apply (Hgen (λ i, i) (λ i, i)).
Qed.

(** X10.  The constructor takes a falsy option as absent: the stored
    number of neighbours is never 0 (an explicit 0 gives 4), the stored
    collection name and host are never empty, RAG is off only when
    [enableRAG] is explicitly false, and the threshold is 0 when it is
    absent or 0; so a model built without [enableRAG: false] and without a
    threshold uses RAG for every message, the empty one included. *)
Theorem constructor_defaults (options : RAGModelOptions) (env : Env) :
  k (constructor options env) ≠ 0%Z ∧
  (opt_k options = None ∨ opt_k options = Some 0%Z → k (constructor options env) = 4%Z) ∧
  collectionName (constructor options env) ≠ "" ∧
  chromaHost (constructor options env) ≠ "" ∧
  (enableRAG (constructor options env) = false ↔ opt_enableRAG options = Some false) ∧
  (opt_ragThreshold options = None ∨ opt_ragThreshold options = Some 0%Z →
   opt_enableRAG options ≠ Some false →
   ∀ message, shouldUseRAG (constructor options env) message = true).
Proof.
  unfold constructor; simpl. repeat split.
  - unfold number_or. destruct (opt_k options) as [n|]; [|done]. by case_decide.
  - by intros [-> | ->].
  - unfold string_or.
    destruct (opt_collectionName options) as [[|c s]|]; simpl;
      destruct (CHROMA_COLLECTION env) as [[|c' s']|]; by simpl.
  - unfold string_or.
    destruct (opt_chromaHost options) as [[|c s]|]; simpl;
      destruct (CHROMA_HOST env) as [[|c' s']|]; by simpl.
  - by destruct (opt_enableRAG options) as [[]|].
  - by intros ->.
  - intros Hthreshold Henable message. unfold shouldUseRAG; simpl.
    destruct (opt_enableRAG options) as [[]|]; try done.
    all: by destruct Hthreshold as [-> | ->].
Qed.

End MoreDecoratorFacts.

(** * The chat page *)

Section SplitFacts.
Import ChatPage.

Lemma split_from_acc cur s :
  split_from cur s
  = match split_from "" s with
    | h :: t => (cur +:+ h) :: t
    | [] => []
    end.
Proof.
  revert cur. induction s as [|c r IH]; intros cur; simpl.
  { by rewrite sapp_nil_r. }
  case_decide.
  - destruct r as [|c' r']; [done|]. case_decide; [by rewrite sapp_nil_r|].
    rewrite (IH (cur +:+ _)), (IH ("" +:+ _)).
    destruct (split_from "" (String c' r')); [done|].
    by rewrite sapp_nil_l, sapp_assoc.
  - rewrite (IH (cur +:+ _)), (IH ("" +:+ _)).
    destruct (split_from "" r); [done|].
    by rewrite sapp_nil_l, sapp_assoc.
Qed.

Lemma split_from_nonempty cur s : split_from cur s ≠ [].
Proof.
  revert cur. induction s as [|c r IH]; intros cur; simpl; [done|].
  case_decide; [|apply IH].
  destruct r as [|c' r']; [done|]. case_decide; [done | apply IH].
Qed.

Lemma pop_split (l : list string) :
  l ≠ [] → l = after_pop l ++ [popped l].
Proof.
  intros Hl. unfold after_pop, popped.
  destruct l as [|x l _] using rev_ind; [done|].
  rewrite last_snoc, length_app. simpl.
  by rewrite Nat.add_sub, take_app_length.
Qed.

Lemma after_pop_snoc (l : list string) x : after_pop (l ++ [x]) = l.
Proof.
  unfold after_pop. rewrite length_app. simpl.
  by rewrite Nat.add_sub, take_app_length.
Qed.

Lemma popped_snoc (l : list string) x : popped (l ++ [x]) = x.
Proof. unfold popped. by rewrite last_snoc. Qed.

Lemma after_pop_cons x (l : list string) :
  l ≠ [] → after_pop (x :: l) = x :: after_pop l.
Proof.
  intros Hl. rewrite (pop_split l Hl) at 1.
  by rewrite app_comm_cons, after_pop_snoc.
Qed.

Lemma popped_cons x (l : list string) : l ≠ [] → popped (x :: l) = popped l.
Proof.
  intros Hl. rewrite (pop_split l Hl) at 1.
  by rewrite app_comm_cons, popped_snoc.
Qed.

Lemma clean_cons_nl c' r :
  clean (String "010" (String c' r))
  = if decide (c' = "010"%char) then false else clean (String c' r).
Proof. reflexivity. Qed.

Lemma clean_cons c r : c ≠ "010"%char → clean (String c r) = clean r.
Proof. intros Hc. simpl. by rewrite decide_False. Qed.

Lemma clean_snoc cur c :
  clean cur = true → c ≠ "010"%char → clean (cur +:+ String c "") = true.
Proof.
  intros Hcur Hc. induction cur as [|d r IH].
  { rewrite sapp_nil_l, clean_cons by done. done. }
  rewrite sapp_cons. destruct (decide (d = "010"%char)) as [->|Hd].
  - destruct r as [|c' r']; [done|].
    rewrite clean_cons_nl in Hcur. rewrite sapp_cons, clean_cons_nl.
    case_decide; [done|]. rewrite <-sapp_cons. by apply IH.
  - rewrite clean_cons in Hcur |- * by done. by apply IH.
Qed.

Lemma clean_snoc2 cur c :
  clean cur = true → c ≠ "010"%char →
  clean ((cur +:+ String "010" "") +:+ String c "") = true.
Proof.
  intros Hcur Hc. induction cur as [|d r IH].
  { rewrite !sapp_nil_l, sapp_cons, sapp_nil_l, clean_cons_nl.
    rewrite decide_False by done. by rewrite clean_cons. }
  rewrite !sapp_cons. destruct (decide (d = "010"%char)) as [->|Hd].
  - destruct r as [|c' r']; [done|].
    rewrite clean_cons_nl in Hcur. rewrite !sapp_cons, clean_cons_nl.
    case_decide; [done|]. rewrite <-!sapp_cons. by apply IH.
  - rewrite clean_cons in Hcur |- * by done. by apply IH.
Qed.

Lemma split_from_cons_nl_nl cur r :
  split_from cur (String "010" (String "010" r)) = cur :: split_from "" r.
Proof. reflexivity. Qed.

Lemma split_from_cons_nl cur c' r :
  c' ≠ "010"%char →
  split_from cur (String "010" (String c' r))
  = split_from ((cur +:+ String "010" "") +:+ String c' "") r.
Proof. intros Hc. simpl. by rewrite !decide_False. Qed.

Lemma split_from_cons cur c r :
  c ≠ "010"%char → split_from cur (String c r) = split_from (cur +:+ String c "") r.
Proof. intros Hc. simpl. by rewrite decide_False. Qed.

Lemma split_from_nl cur :
  split_from cur (String "010" "") = [cur +:+ String "010" ""].
Proof. reflexivity. Qed.

(** Scanning a clean piece again gives the piece back as the current
    one. *)
Lemma rescan cur :
  clean cur = true →
  ∀ acc b, split_from acc (cur +:+ b) = split_from (acc +:+ cur) b.
Proof.
  induction cur as [|c r IH]; intros Hcur acc b.
  { by rewrite sapp_nil_l, sapp_nil_r. }
  rewrite sapp_cons. destruct (decide (c = "010"%char)) as [->|Hc].
  - destruct r as [|c' r']; [done|].
    rewrite clean_cons_nl in Hcur. case_decide as Hc'; [done|].
    rewrite sapp_cons, split_from_cons_nl by done.
    rewrite <-(split_from_cons _ c') by done. rewrite <-sapp_cons.
    rewrite (IH Hcur).
    by rewrite sapp_assoc, sapp_cons, sapp_nil_l.
  - rewrite split_from_cons by done. rewrite clean_cons in Hcur by done.
    rewrite (IH Hcur). by rewrite !sapp_assoc.
Qed.

Lemma split_app_clean a :
  (∀ cur b, clean cur = true →
     split_from cur (a +:+ b)
     = after_pop (split_from cur a)
       ++ split_from "" (popped (split_from cur a) +:+ b)) ∧
  (∀ c cur b, clean cur = true →
     split_from cur (String c a +:+ b)
     = after_pop (split_from cur (String c a))
       ++ split_from "" (popped (split_from cur (String c a)) +:+ b)).
Proof.
  induction a as [|c' r' [IH1 IH2]].
  - split.
    + intros cur b Hcur. rewrite sapp_nil_l.
      change (split_from cur "") with [cur]. unfold after_pop, popped. simpl.
      by rewrite rescan, sapp_nil_l.
    + intros c cur b Hcur. rewrite sapp_cons, sapp_nil_l.
      destruct (decide (c = "010"%char)) as [->|Hc].
      * rewrite split_from_nl. unfold after_pop, popped. simpl.
        rewrite sapp_assoc, rescan by done.
        by rewrite sapp_nil_l, sapp_cons, sapp_nil_l.
      * rewrite !split_from_cons by done.
        change (split_from (cur +:+ String c "") "") with [cur +:+ String c ""].
        unfold after_pop, popped. simpl.
        rewrite (rescan (cur +:+ String c "")) by by apply clean_snoc.
        by rewrite sapp_nil_l.
  - split; [apply IH2|].
    intros c cur b Hcur. rewrite !sapp_cons.
    destruct (decide (c = "010"%char)) as [->|Hc].
    + destruct (decide (c' = "010"%char)) as [->|Hc'].
      * rewrite (split_from_cons_nl_nl cur (r' +:+ b)).
        rewrite (split_from_cons_nl_nl cur r').
        rewrite after_pop_cons, popped_cons by apply split_from_nonempty.
        simpl. f_equal. by apply IH1.
      * rewrite (split_from_cons_nl cur c' (r' +:+ b)) by done.
        rewrite (split_from_cons_nl cur c' r') by done.
        by apply IH1, clean_snoc2.
    + rewrite (split_from_cons cur c (String c' (r' +:+ b))) by done.
      rewrite (split_from_cons cur c (String c' r')) by done.
      rewrite <-sapp_cons. by apply IH2, clean_snoc.
Qed.

(** Splitting a text read in two parts: the complete pieces of the first
    part, then the pieces of its last piece put before the second part. *)
Lemma split_app a b :
  split_blank_lines (a +:+ b)
  = after_pop (split_blank_lines a)
    ++ split_blank_lines (popped (split_blank_lines a) +:+ b).
Proof. by apply split_app_clean. Qed.

End SplitFacts.

Section PageFacts.
Import Ollama ChatPage.

Variable JSON_parse : string → option (string * string).

#[local] Arguments JsonRead.after_prefix : simpl never.

Lemma text_app (a b : list Byte.byte) : text (a ++ b) = text a +:+ text b.
Proof.
  unfold text, string_of_list_byte. induction a as [|x a IH]; simpl.
  { by rewrite sapp_nil_l. }
  by rewrite sapp_cons, IH.
Qed.

Lemma text_encode s : text (Js.encode s) = s.
Proof. apply string_of_list_byte_of_string. Qed.

Lemma on_lines_app l1 l2 prev :
  on_lines JSON_parse (l1 ++ l2) prev
  = match on_lines JSON_parse l1 prev with
    | (p, true) => (p, true)
    | (p, false) => on_lines JSON_parse l2 p
    end.
Proof.
  revert prev. induction l1 as [|line l1 IH]; intros prev; simpl; [done|].
  destruct (JsonRead.after_prefix "data: " line) as [data|]; [|apply IH].
  case_decide; [done | apply IH].
Qed.

(** The piece kept in the buffer has no blank line: the next scan gives
    it back as one piece. *)
Lemma split_popped a :
  split_blank_lines (popped (split_blank_lines a))
  = [popped (split_blank_lines a)].
Proof.
  pose proof (split_app a "") as Happ. rewrite sapp_nil_r in Happ.
  rewrite (pop_split (split_blank_lines a)) in Happ at 1
    by apply split_from_nonempty.
  rewrite sapp_nil_r in Happ. by apply app_inv_head in Happ.
Qed.

Lemma skip_sapp p q : skip (String.length p) (p +:+ q) = q.
Proof. induction p as [|c p IH]; [done|]. by rewrite sapp_cons. Qed.

Lemma skip_all p : skip (String.length p) p = "".
Proof. by induction p. Qed.

(** What went out of the decoder stays: more bytes only add text. *)
Lemma decoded_extends (seen value : list Byte.byte) :
  ∃ q, decoded (seen ++ value) = decoded seen +:+ q.
Proof.
  unfold decoded. rewrite text_app.
  destruct (text seen) as [|c1 [|c2 [|c3 s]]];
    destruct (text value) as [|d1 [|d2 [|d3 v]]];
    rewrite ?sapp_cons, ?sapp_nil_l, ?sapp_nil_r; cbn [after_mark mark_begun].
  all: repeat first [case_decide | case_bool_decide].
  all: try (eexists; rewrite ?sapp_cons, ?sapp_nil_l; reflexivity).
  all: try (exists EmptyString; by rewrite ?sapp_nil_r).
  all: exfalso; tauto.
Qed.

Lemma decode_decoded (seen value : list Byte.byte) :
  decoded seen +:+ decode seen value = decoded (seen ++ value).
Proof.
  unfold decode. destruct (decoded_extends seen value) as [q ->].
  by rewrite skip_sapp.
Qed.

Lemma decode_nil (value : list Byte.byte) : decode [] value = decoded value.
Proof. reflexivity. Qed.

Lemma decode_app (seen a b : list Byte.byte) :
  decode seen (a ++ b) = decode seen a +:+ decode (seen ++ a) b.
Proof.
  apply (inj (String.append (decoded seen))).
  by rewrite <-sapp_assoc, !decode_decoded, (assoc_L (++)).
Qed.

(** A text that does not begin like a byte order mark goes through the
    decoder as it is. *)
Lemma decoded_plain (bytes : list Byte.byte) :
  (∀ r, text bytes ≠ String "239" r) → decoded bytes = text bytes.
Proof.
  intros Hplain. unfold decoded.
  destruct (text bytes) as [|c1 [|c2 [|c3 s]]]; cbn [after_mark mark_begun];
    [done|..].
  all: repeat first [case_decide | case_bool_decide]; try done.
  all: exfalso; destruct_and?; subst; by eapply Hplain.
Qed.

Lemma read_loop_from values seen buffer prev :
  split_blank_lines buffer = [buffer] →
  read_loop JSON_parse values seen buffer prev
  = on_lines JSON_parse
      (after_pop (split_blank_lines (buffer +:+ decode seen (concat values))))
      prev.
Proof.
  revert seen buffer prev.
  induction values as [|value rest IH]; intros seen buffer prev Hb.
  { simpl. unfold decode. by rewrite app_nil_r, skip_all, sapp_nil_r, Hb. }
  simpl. rewrite decode_app, <-sapp_assoc.
  rewrite (split_app (buffer +:+ decode seen value)
             (decode (seen ++ value) (concat rest))).
  set (lines := split_blank_lines (buffer +:+ decode seen value)).
  assert (∀ l1 l2 : list string, l2 ≠ [] →
            after_pop (l1 ++ l2) = l1 ++ after_pop l2) as Hpop.
  { intros l1 l2 Hl2. rewrite (pop_split l2 Hl2) at 1.
    by rewrite app_assoc, after_pop_snoc. }
  rewrite Hpop by apply split_from_nonempty. rewrite on_lines_app.
  destruct (on_lines JSON_parse (after_pop lines) prev) as [prev' [|]]; [done|].
  apply IH, split_popped.
Qed.

(** X12.  Reading is independent of how the network cut the bytes: the
    messages after the reads, and whether the sentinel was met, are those
    of one scan of all the text that the decoder gives for the bytes
    received (the text without a byte order mark at its start), its last
    (incomplete) piece left out. *)
Theorem read_loop_chunking (values : list (list Byte.byte)) prev :
  read_loop JSON_parse values [] "" prev
  = on_lines JSON_parse
      (after_pop (split_blank_lines (decoded (concat values)))) prev.
Proof. by rewrite read_loop_from, sapp_nil_l, decode_nil. Qed.

Lemma one_line_no_control s : no_control s = true → one_line s = true.
Proof.
  induction s as [|c r IH]; simpl; [done|].
  intros [Hc Hr]%andb_true_iff. case_decide as Heq; [|by apply IH].
  subst c. by vm_compute in Hc.
Qed.

Lemma split_from_line cur x rest :
  one_line x = true →
  split_from cur (x +:+ Js.nl +:+ Js.nl +:+ rest)
  = (cur +:+ x) :: split_from "" rest.
Proof.
  revert cur. induction x as [|c r IH]; intros cur Hx.
  - rewrite sapp_nil_l, sapp_nil_r. unfold Js.nl.
    rewrite !sapp_cons, !sapp_nil_l. apply split_from_cons_nl_nl.
  - simpl in Hx. case_decide; [done|].
    rewrite sapp_cons, split_from_cons by done. rewrite IH by done.
    by rewrite sapp_assoc, sapp_cons, sapp_nil_l.
Qed.

Lemma split_frames (chunks : list StreamChunk) rest :
  split_blank_lines (text (concat (map sse_frame chunks) ++ rest))
  = map (λ c, "data: " +:+ JSON_stringify c) chunks
    ++ split_blank_lines (text rest).
Proof.
  induction chunks as [|c chunks IH]; [done|].
  cbn [map concat app]. rewrite <-app_assoc, text_app.
  unfold sse_frame at 1. rewrite text_encode.
  rewrite !sapp_assoc, <-(sapp_assoc "data: " (JSON_stringify c)).
  unfold split_blank_lines at 1. rewrite split_from_line.
  - rewrite sapp_nil_l. f_equal. apply IH.
  - apply one_line_no_control. rewrite no_control_sapp.
    by rewrite JSON_stringify_no_control.
Qed.

Lemma JSON_stringify_not_done (c : StreamChunk) : JSON_stringify c ≠ "[DONE]".
Proof.
  unfold JSON_stringify, Js.JSON_object. rewrite sapp_cons. discriminate.
Qed.

Lemma on_data_shows (c : StreamChunk) prev :
  JSON_parse (JSON_stringify c)
  = Some (type_name (type c), default "undefined" (chunk_content c)) →
  on_data JSON_parse (JSON_stringify c) prev = shows c prev.
Proof.
  intros Hparse. unfold on_data, shows. rewrite Hparse. by destruct (type c).
Qed.

Lemma on_lines_frames (chunks : list StreamChunk) l prev :
  Forall (λ c, JSON_parse (JSON_stringify c)
               = Some (type_name (type c), default "undefined" (chunk_content c)))
         chunks →
  on_lines JSON_parse (map (λ c, "data: " +:+ JSON_stringify c) chunks ++ l) prev
  = on_lines JSON_parse l (foldl (λ p c, shows c p) prev chunks).
Proof.
  intros Hparse. revert prev.
  induction Hparse as [|c chunks Hc _ IH]; intros prev; [done|].
  cbn [map app on_lines foldl]. rewrite after_prefix_sapp.
  rewrite decide_False by apply JSON_stringify_not_done.
  by rewrite on_data_shows, IH.
Qed.

Lemma scan_frames (chunks : list StreamChunk) prev (finished : bool) more :
  Forall (λ c, JSON_parse (JSON_stringify c)
               = Some (type_name (type c), default "undefined" (chunk_content c)))
         chunks →
  on_lines JSON_parse
    (after_pop
       (split_blank_lines
          (text (concat (map sse_frame chunks)
                   ++ (if finished then done_frame ++ more else [])))))
    prev
  = (foldl (λ p c, shows c p) prev chunks, finished).
Proof.
  intros Hparse. rewrite split_frames.
  assert (∀ l1 l2 : list string, l2 ≠ [] →
            after_pop (l1 ++ l2) = l1 ++ after_pop l2) as Hpop.
  { intros l1 l2 Hl2. rewrite (pop_split l2 Hl2) at 1.
    by rewrite app_assoc, after_pop_snoc. }
  rewrite Hpop by apply split_from_nonempty.
  rewrite on_lines_frames by done. destruct finished; [|done].
  rewrite text_app. unfold done_frame. rewrite text_encode.
  rewrite !sapp_assoc. unfold split_blank_lines. rewrite split_from_line by done.
  rewrite after_pop_cons by apply split_from_nonempty.
  cbn [on_lines]. rewrite sapp_nil_l.
  change "data: [DONE]" with ("data: " +:+ "[DONE]").
  by rewrite after_prefix_sapp, decide_True.
Qed.

(** The frames of the server begin with [data: ], not with a byte order
    mark: the decoder gives their text as it is. *)
Lemma decoded_frames (chunks : list StreamChunk) (finished : bool) more :
  decoded (concat (map sse_frame chunks)
           ++ (if finished then done_frame ++ more else []))
  = text (concat (map sse_frame chunks)
          ++ (if finished then done_frame ++ more else [])).
Proof.
  apply decoded_plain. intros r.
  destruct chunks as [|c chunks].
  - destruct finished; [|done]. cbn [map concat app].
    rewrite text_app. unfold done_frame. rewrite text_encode.
    by rewrite !sapp_cons.
  - cbn [map concat]. rewrite <-!app_assoc, text_app.
    unfold sse_frame at 1. rewrite text_encode. by rewrite !sapp_cons.
Qed.

(** X13.  The page reads the server's frames back, however the network cut
    them: after the frames of [chunks], the messages are those that the
    chunks give one after the other; an error chunk changes nothing.  With
    the sentinel after them the loop returns there and what follows is
    never looked at; without it the loop ends with the stream. *)
Theorem page_reads_frames (chunks : list StreamChunk)
    (values : list (list Byte.byte)) prev (finished : bool) more :
  Forall (λ c, JSON_parse (JSON_stringify c)
               = Some (type_name (type c), default "undefined" (chunk_content c)))
         chunks →
  concat values
  = concat (map sse_frame chunks) ++ (if finished then done_frame ++ more else []) →
  read_loop JSON_parse values [] "" prev
  = (foldl (λ p c, shows c p) prev chunks, finished).
Proof.
  intros Hparse Hvalues.
  rewrite read_loop_from, sapp_nil_l, decode_nil, Hvalues by done.
  rewrite decoded_frames. by apply scan_frames.
Qed.

(** ** The assistant's message under construction *)

Lemma append_content_last sent (a : Message) text :
  role a = assistant →
  append_content text (sent ++ [a])
  = sent ++ [{| role := assistant; content := content a +:+ text;
                thinking := thinking a |}].
Proof.
  intros Ha. unfold append_content. rewrite last_snoc, decide_True by done.
  rewrite length_app. simpl. by rewrite Nat.add_sub, take_app_length, Ha.
Qed.

Lemma append_thinking_last sent (a : Message) text :
  role a = assistant →
  append_thinking text (sent ++ [a])
  = sent ++ [{| role := assistant; content := content a;
                thinking := Some (default "" (thinking a) +:+ text) |}].
Proof.
  intros Ha. unfold append_thinking. rewrite last_snoc, decide_True by done.
  rewrite length_app. simpl. by rewrite Nat.add_sub, take_app_length, Ha.
Qed.

Lemma on_data_last data sent (a : Message) :
  role a = assistant →
  ∃ a', on_data JSON_parse data (sent ++ [a]) = sent ++ [a'] ∧ role a' = assistant.
Proof.
  intros Ha. unfold on_data.
  destruct (JSON_parse data) as [[t text]|]; [|by exists a].
  case_decide; [rewrite append_content_last by done; by eexists|].
  case_decide; [rewrite append_thinking_last by done; by eexists|].
  by exists a.
Qed.

Lemma on_lines_last lines sent (a : Message) :
  role a = assistant →
  ∃ a', (on_lines JSON_parse lines (sent ++ [a])).1 = sent ++ [a']
        ∧ role a' = assistant.
Proof.
  revert a. induction lines as [|line lines IH]; intros a Ha; [by exists a|].
  cbn [on_lines].
  destruct (JsonRead.after_prefix "data: " line) as [data|]; [|by apply IH].
  case_decide; [by exists a|].
  destruct (on_data_last data sent a Ha) as (a1 & -> & Ha1). by apply IH.
Qed.

Lemma read_loop_last values sent (a : Message) :
  role a = assistant →
  ∃ a', (read_loop JSON_parse values [] "" (sent ++ [a])).1 = sent ++ [a']
        ∧ role a' = assistant.
Proof.
  intros Ha. rewrite read_loop_from, sapp_nil_l by done. by apply on_lines_last.
Qed.

Lemma foldl_shows (chunks : list StreamChunk) sent c0 t0 :
  foldl (λ p c, shows c p)
        (sent ++ [{| role := assistant; content := c0; thinking := Some t0 |}])
        chunks
  = sent ++ [{| role := assistant;
                content := c0 +:+ texts_of Content chunks;
                thinking := Some (t0 +:+ texts_of Thinking chunks) |}].
Proof.
  revert c0 t0. induction chunks as [|c chunks IH]; intros c0 t0.
  { simpl. by rewrite !sapp_nil_r. }
  cbn [foldl texts_of foldr]. unfold shows at 2.
  destruct (type c) eqn:Htype.
  - rewrite append_content_last by done. cbn [content thinking].
    rewrite IH, decide_True, decide_False by done. by rewrite sapp_assoc.
  - rewrite append_thinking_last by done. cbn [content thinking default].
    rewrite IH, decide_False, decide_True by done. by rewrite sapp_assoc.
  - by rewrite IH, !decide_False.
Qed.

(** X14.  [handleSubmit] does nothing on an empty input or while a turn is
    loading.  Otherwise it leaves the page not loading and the input
    empty, whatever [fetch] and the stream do, and it only appends: the
    turns shown before stay as they were, the user's turn follows them,
    and then come one or two assistant messages (the answer under
    construction, an error text, or both when the stream fails after it
    started). *)
Theorem handleSubmit_appends {W} (fetch : list ChatMessage → W → (Js.Thrown + Response) * W)
    trimmed (s : State) (w : W) :
  let result := handleSubmit JSON_parse fetch trimmed s w in
  let userMessage := {| role := user; content := trimmed; thinking := None |} in
  (Js.truthy trimmed = false ∨ isLoading s = true → result = (s, w)) ∧
  (Js.truthy trimmed = true → isLoading s = false →
     isLoading result.1 = false ∧ input result.1 = "" ∧
     ∃ added,
       messages result.1 = messages s ++ [userMessage] ++ added ∧
       Forall (λ m, role m = assistant) added ∧
       1 ≤ List.length added ≤ 2).
Proof.
  intros result userMessage. subst result. unfold handleSubmit. split.
  { by intros [->| ->]; [|rewrite orb_true_r]. }
  intros -> ->. simpl.
  destruct (fetch _ w) as [[error|response] w'].
  { split; [done|]. split; [done|]. exists [error_message error].
    rewrite <-app_assoc. split; [done|]. split; [by repeat constructor | simpl; lia]. }
  destruct (ok response); simpl.
  2:{ split; [done|]. split; [done|]. eexists [_].
      rewrite <-app_assoc. split; [done|]. split; [by repeat constructor | simpl; lia]. }
  destruct (body response) as [[values term]|].
  2:{ split; [done|]. split; [done|]. eexists [_].
      rewrite <-app_assoc. split; [done|]. split; [by repeat constructor | simpl; lia]. }
  set (placeholder := {| role := assistant; content := ""; thinking := Some "" |}).
  destruct (read_loop_last values (messages s ++ [userMessage]) placeholder)
    as (a & Hread & Ha); [done|].
  destruct (read_loop _ _ _ _) as [ms [|]]; simpl in Hread; subst ms.
  { split; [done|]. split; [done|]. exists [a].
    rewrite <-app_assoc. split; [done|]. split; [by repeat constructor | simpl; lia]. }
  destruct term as [error|].
  - split; [done|]. split; [done|]. exists [a; error_message error].
    rewrite <-!app_assoc. split; [done|]. split; [by repeat constructor | simpl; lia].
  - split; [done|]. split; [done|]. exists [a].
    rewrite <-app_assoc. split; [done|]. split; [by repeat constructor | simpl; lia].
Qed.

(** X15.  When [fetch] answers with the frames of [chunks] and the sentinel,
    however the network cut them, [handleSubmit] ends with one assistant
    message after the user's turn: its content is the text of the content
    chunks, its thinking that of the thinking chunks, each in order.  When
    the frames come without the sentinel (the server ended them with an
    error frame, say) the message is the same, the error chunks are shown
    nowhere, and only a failure of the stream itself adds an error
    text. *)
Theorem handleSubmit_shows_answer {W}
    (fetch : list ChatMessage → W → (Js.Thrown + Response) * W)
    trimmed (s : State) (w w' : W) response values term
    (chunks : list StreamChunk) (finished : bool) more :
  let userMessage := {| role := user; content := trimmed; thinking := None |} in
  let sent := messages s ++ [userMessage] in
  Js.truthy trimmed = true → isLoading s = false →
  fetch (map (λ m, {| Ollama.role := role m; Ollama.content := content m |}) sent) w
  = (inr response, w') →
  ok response = true →
  body response = Some (values, term) →
  Forall (λ c, JSON_parse (JSON_stringify c)
               = Some (type_name (type c), default "undefined" (chunk_content c)))
         chunks →
  concat values
  = concat (map sse_frame chunks) ++ (if finished then done_frame ++ more else []) →
  handleSubmit JSON_parse fetch trimmed s w
  = ({| messages :=
          sent ++ [{| role := assistant;
                      content := texts_of Content chunks;
                      thinking := Some (texts_of Thinking chunks) |}]
          ++ match finished, term with
             | false, Some error => [error_message error]
             | _, _ => []
             end;
        input := "";
        isLoading := false |}, w').
Proof.
  intros userMessage sent Htrimmed Hloading Hfetch Hok Hbody Hparse Hvalues.
  unfold handleSubmit. rewrite Htrimmed, Hloading. cbn [negb orb].
  fold userMessage. fold sent. rewrite Hfetch, Hok, Hbody. cbn [negb].
  rewrite read_loop_from, sapp_nil_l, decode_nil, Hvalues by done.
  rewrite decoded_frames, (scan_frames chunks _ finished more Hparse).
  rewrite foldl_shows, !sapp_nil_l.
  destruct finished; [by rewrite app_nil_r|].
  destruct term; [by rewrite <-app_assoc | by rewrite app_nil_r].
Qed.

End PageFacts.

(** * The chat route *)

Section RouteFacts.
Context {W : Type} `{!Ollama.Instance W} `{!VectorStore.Backend W}.
Import Ollama Route.

Lemma createStreamingResponse_queue (messages : list ChatMessage) (w : W) :
  ∃ chunks failure r,
    Ollama.createStreamingResponse messages (fresh w) = (inr tt, r) ∧
    Forall (λ c, type c = Content ∨ type c = Thinking) chunks ∧
    queue r = map sse_frame chunks ++ [last_frame failure].
Proof.
  unfold Ollama.createStreamingResponse.
  destruct (start_try_shape (convertToLangChainMessages messages) w)
    as (chunks & outcome & r1 & Htry & Htypes & Hqueue & Hclosed).
  rewrite (start_of_try _ _ _ _ Htry Hclosed).
  exists chunks.
  exists (match outcome with inl error => Some (Js.String_of error) | inr _ => None end).
  eexists. split; [done|]. split; [done|]. simpl. rewrite Hqueue.
  destruct outcome as [error|[]]; simpl; by rewrite ?app_nil_r.
Qed.

Lemma RAG_createStreamingResponse_outcome ragOptions (messages : list ChatMessage)
    (w : W) :
  match retrieval_breaks ragOptions messages w with
  | Some is_null =>
      ∃ w', RAG.createStreamingResponse ragOptions messages (fresh w)
            = (inl (Js.TypeError_read is_null "name"), fresh w')
  | None =>
      ∃ chunks failure r,
        RAG.createStreamingResponse ragOptions messages (fresh w) = (inr tt, r) ∧
        Forall (λ c, type c = Content ∨ type c = Thinking) chunks ∧
        queue r = map sse_frame chunks ++ [last_frame failure]
  end.
Proof.
  unfold retrieval_breaks, RAG.createStreamingResponse.
  destruct (RAG.lastMessage messages) as [last|];
    [|by apply createStreamingResponse_queue].
  case_decide; [|by apply createStreamingResponse_queue].
  destruct (RAG.shouldUseRAG ragOptions (content last));
    [|by apply createStreamingResponse_queue].
  pose proof (enhanceMessageWithRAG_run ragOptions (content last) (fresh w))
    as Henhance.
  simpl in Henhance.
  destruct (RAG.search ragOptions (content last) w) as [[error|docs] w'];
    simpl in *.
  - destruct (Js.missing_constructor error) as [is_null|].
    + exists w'. by rewrite (bind_inl _ _ _ _ _ Henhance).
    + rewrite (bind_inr _ _ _ _ _ Henhance).
      apply (createStreamingResponse_queue _ w').
  - rewrite (bind_inr _ _ _ _ _ Henhance).
    apply (createStreamingResponse_queue _ w').
Qed.

(** X16.  A request whose body holds an array of turns is answered by the
    event stream, whose chunks are the frames of content and thinking
    chunks and one last frame, the sentinel or the frame of an error
    chunk: a failure of the model is reported inside the stream and a
    failure of the retrieval is swallowed.  There is one exception: when
    the retrieval throws a value without constructor, the decorator
    throws and the answer is the status 500 with the message of the
    [TypeError].  A body without [messages] is answered by the status 500
    too, and nothing else happens. *)
Theorem POST_answers env (messages : list ChatMessage) (w : W) :
  match retrieval_breaks (RAG.constructor no_argument env) messages w with
  | None =>
      ∃ chunks failure,
        (POST env (Turns messages) w).1
        = inr (EventStream (map sse_frame chunks ++ [last_frame failure])) ∧
        Forall (λ c, type c = Content ∨ type c = Thinking) chunks
  | Some is_null =>
      (POST env (Turns messages) w).1
      = inr (status500
               ("Cannot read properties of "
                +:+ (if is_null then "null" else "undefined")
                +:+ " (reading 'name')"))
  end ∧
  ∀ is_null,
    POST env (NoMessages is_null) w
    = (inr (status500
              ("Cannot read properties of "
               +:+ (if is_null then "null" else "undefined")
               +:+ " (reading 'length')")), w).
Proof.
  split; [|by intros []].
  unfold POST.
  pose proof (RAG_createStreamingResponse_outcome
                (RAG.constructor no_argument env) messages w) as Hrun.
  destruct (retrieval_breaks _ messages w) as [is_null|].
  - destruct Hrun as [w' ->]. by destruct is_null.
  - destruct Hrun as (chunks & failure & r & -> & Htypes & Hqueue).
    exists chunks, failure. simpl. by rewrite Hqueue.
Qed.

End RouteFacts.

(** * From the route to the page *)

Section RouteToPage.
Context {W : Type} `{!Ollama.Instance W} `{!VectorStore.Backend W}.
Import Ollama Route ChatPage.
Variable JSON_parse : string → option (string * string).

Lemma texts_of_app t (l1 l2 : list StreamChunk) :
  texts_of t (l1 ++ l2) = texts_of t l1 +:+ texts_of t l2.
Proof.
  induction l1 as [|c l1 IH]; [done|]. cbn [app texts_of foldr].
  fold (texts_of t (l1 ++ l2)). fold (texts_of t l1).
  case_decide; by rewrite IH, ?sapp_assoc.
Qed.

(** X17.  What the route streams is what the page shows.  When the route
    answers a request by an event stream and the network hands its bytes
    to the page, cut in any way, the stream is the frames of content and
    thinking chunks and a last frame, and the page's reading loop turns
    the empty assistant message into the one whose content is the text of
    the content chunks and whose thinking is the text of the thinking
    chunks; it returns at the sentinel, and when the stream ends with an
    error frame instead, the loop runs to the end of the stream and the
    error text is shown nowhere. *)
Theorem page_shows_route_stream env (messages : list ChatMessage) (w : W)
    frames (values : list (list Byte.byte)) (sent : list Message) :
  (∀ c, JSON_parse (JSON_stringify c)
        = Some (type_name (type c), default "undefined" (chunk_content c))) →
  (POST env (Turns messages) w).1 = inr (EventStream frames) →
  concat values = concat frames →
  ∃ chunks failure,
    frames = map sse_frame chunks ++ [last_frame failure] ∧
    Forall (λ c, type c = Content ∨ type c = Thinking) chunks ∧
    read_loop JSON_parse values [] ""
      (sent ++ [{| role := assistant; content := ""; thinking := Some "" |}])
    = (sent ++ [{| role := assistant;
                   content := texts_of Content chunks;
                   thinking := Some (texts_of Thinking chunks) |}],
       match failure with None => true | Some _ => false end).
Proof.
  intros Hparse HPOST Hvalues. unfold POST in HPOST.
  pose proof (RAG_createStreamingResponse_outcome
                (RAG.constructor no_argument env) messages w) as Hrun.
  destruct (retrieval_breaks _ messages w) as [is_null|].
  { destruct Hrun as [w' Hrun]. rewrite Hrun in HPOST. by destruct is_null. }
  destruct Hrun as (chunks & failure & r & Hrun & Htypes & Hqueue).
  rewrite Hrun in HPOST. simpl in HPOST. rewrite Hqueue in HPOST.
  injection HPOST as <-.
  exists chunks, failure. split; [done|]. split; [done|].
  rewrite (read_loop_from JSON_parse), sapp_nil_l, decode_nil by done.
  destruct failure as [text|].
  - assert (decoded (concat values)
            = ChatPage.text
                (concat (map sse_frame (chunks ++ [error_chunk text])) ++ []))
      as ->.
    { rewrite Hvalues.
      etrans; [|apply (decoded_frames (chunks ++ [error_chunk text]) false [])].
      f_equal. by rewrite map_app, app_nil_r. }
    rewrite (scan_frames JSON_parse (chunks ++ [error_chunk text]) _ false [])
      by by apply Forall_forall.
    rewrite foldl_shows, !texts_of_app, !sapp_nil_l. simpl.
    by rewrite !sapp_nil_r.
  - assert (decoded (concat values)
            = ChatPage.text (concat (map sse_frame chunks) ++ done_frame ++ []))
      as ->.
    { rewrite Hvalues.
      etrans; [|apply (decoded_frames chunks true [])].
      f_equal. by rewrite concat_app. }
    rewrite (scan_frames JSON_parse chunks _ true []) by by apply Forall_forall.
    by rewrite foldl_shows, !sapp_nil_l.
Qed.

End RouteToPage.

(** * The retrieval chain *)

Section ChainFacts.
Context {W : Type} `{!Ollama.Instance W} `{!VectorStore.Backend W}.
Import Prompt Ollama VectorStore Chain.
Variable env : RAG.Env.

Lemma foldl_collect_forwarded (fragments : list AIMessageChunk) answer rejected :
  foldl collect (answer, rejected) (flat_map forwarded_direct fragments)
  = (answer +:+ streamed_text fragments, rejected).
Proof.
  revert answer. induction fragments as [|f fragments IH]; intros answer.
  { simpl. by rewrite sapp_nil_r. }
  cbn [flat_map]. rewrite foldl_app, (surjective_pairing (foldl _ _ (forwarded_direct f))).
  assert (foldl collect (answer, rejected) (forwarded_direct f)
          = (answer +:+ match fragment_content f with
                        | Text text => text
                        | Parts _ => ""
                        end, rejected)) as ->.
  { unfold forwarded_direct. destruct (fragment_content f) as [text|];
      [|by rewrite sapp_nil_r].
    destruct text as [|c text]; [by rewrite sapp_nil_r|]. simpl.
    by destruct (Js.truthy_opt (thinkingContent f)). }
  simpl. rewrite IH. cbn [streamed_text foldr].
  destruct (fragment_content f); by rewrite sapp_assoc.
Qed.

(** X18.  When the search gives documents, [executeRetrievalChain] asks the
    model once, with the prompt that [buildPrompt] makes of the question
    and of all these documents (empty ones included).  If the stream of
    the model ends normally the result carries the question, the documents
    and, as the answer, the string contents of the fragments put together;
    thinking is left out.  If the stream fails, the promise is rejected
    with an [Error] whose message is the failure's message, and the text
    streamed before is dropped. *)
Theorem executeRetrievalChain_outcome query options (w : W) docs w1
    fragments term w2 :
  let retrieved :=
    map (λ doc, {| Prompt.content := pageContent doc;
                   Prompt.metadata := VectorStore.metadata doc |}) docs in
  let asked := [{| role := user; content := buildPrompt query retrieved |}] in
  search env query options w = (inr docs, w1) →
  model_stream (convertToLangChainMessages asked) w1 = ((fragments, term), w2) →
  (executeRetrievalChain env query options w).1
  = match term with
    | None => inr {| Chain.query := query; retrievedDocuments := retrieved;
                     answer := streamed_text fragments |}
    | Some error => inl (Js.ErrorObject "Error" (Js.message_or_String error))
    end.
Proof.
  intros retrieved asked Hsearch Hstream. unfold executeRetrievalChain.
  rewrite Hsearch. fold retrieved. fold asked.
  destruct (streamChat_quiet_run asked (λ _ w0, (None, w0)) (fresh w1)
              fragments term w2)
    as [w3 ->]; [done | done |].
  cbn [delivered fresh app]. rewrite foldl_app, foldl_collect_forwarded, sapp_nil_l.
  by destruct term.
Qed.

End ChainFacts.

(** * The embedding models *)

Section EmbeddingFacts.
Context {W : Type} `{!Embedding.Embedder W}.
Import VectorStore Embedding.
Variable env : Embedding.Env.


(** X20.  [embedChunks] gives one element per chunk, in order, each with the
    chunk as its text and its position as its index, however many vectors
    the library returned: the embedding of the element at position [i] is
    the vector at position [i], and there is none beyond the vectors
    returned. *)
Theorem embedChunks_aligned (chunks : list string) type options (w : W)
    vectors w' :
  embedDocuments env chunks type options w = (inr vectors, w') →
  ∃ result,
    embedChunks env chunks type options w = (inr result, w') ∧
    List.length result = List.length chunks ∧
    (∀ i chunk, chunks !! i = Some chunk →
       result !! i
       = Some {| text := chunk; embedding := vectors !! i; index := i |}) ∧
    (∀ i element, result !! i = Some element →
       List.length vectors ≤ i → embedding element = None).
Proof.
  intros Hembed. unfold embedChunks. rewrite (bind_inr _ _ _ _ _ Hembed).
  eexists. split; [done|]. split; [by rewrite length_imap|].
  split.
  - intros i chunk Hi. by rewrite list_lookup_imap, Hi.
  - intros i element Hi Hle. rewrite list_lookup_imap in Hi.
    destruct (chunks !! i); simplify_eq/=. by apply lookup_ge_None_2.
Qed.

End EmbeddingFacts.

(** * The clock helper *)

Section TimeToolFacts.
Import TimeTool.

Lemma two_length n : n < 100 → String.length (two n) = 2.
Proof.
  intros Hn. do 100 (destruct n as [|n]; [by vm_compute|]). lia.
Qed.

(** X21.  [getFormattedTime] for a time of the clock: the formats [full] and
    [datetime] and a call without argument give the same text, which is the
    text of [date], a space and the text of [time]; the text of [time] has
    eight characters, and that of [date] has six more than the year. *)
Theorem getFormattedTime_layout (now : LocalTime) :
  month now < 12 → date now ≤ 31 →
  hours now < 24 → minutes now < 60 → seconds now < 60 →
  getFormattedTime now None = getFormattedTime now (Some Datetime) ∧
  getFormattedTime now (Some Full) = getFormattedTime now (Some Datetime) ∧
  getFormattedTime now (Some Datetime)
  = getFormattedTime now (Some Date) +:+ " " +:+ getFormattedTime now (Some Time) ∧
  String.length (getFormattedTime now (Some Time)) = 8 ∧
  String.length (getFormattedTime now (Some Date))
  = String.length (pretty (fullYear now)) + 6.
Proof.
  intros Hmonth Hdate Hhours Hminutes Hseconds.
  split; [done|]. split; [done|]. cbv beta iota zeta delta [getFormattedTime default from_option id].
  split; [by rewrite !sapp_assoc|].
  rewrite !slength_app, !two_length by lia. by simpl; lia.
Qed.

End TimeToolFacts.

(** * The theorems at concrete inputs *)

Section DownWitnesses.
Import Ollama Sample.
#[local] Existing Instance SampleMore.down.

Lemma invoke_failure_response_witness :
  model_invoke (convertToLangChainMessages capital_question) 0%Z
  = (inl (Js.ErrorObject "TypeError" "fetch failed"), 0%Z) ∧
  createStreamingResponse capital_question (fresh 0%Z)
  = (inr tt,
     {| world := 0%Z;
        calls := [InvokeCall (convertToLangChainMessages capital_question)];
        delivered := [];
        queue := [sse_frame (error_chunk "TypeError: fetch failed")];
        closed := true |}).
Proof.
  split; [reflexivity|].
  apply (invoke_failure_response capital_question 0%Z
           (Js.ErrorObject "TypeError" "fetch failed") 0%Z).
  reflexivity.
Defined.

End DownWitnesses.

Section ScriptedWitnesses.
Import Prompt Ollama VectorStore Sample.
#[local] Existing Instance scripted.
#[local] Existing Instance SampleStore.online.

Lemma direct_answer_response_witness :
  model_invoke (convertToLangChainMessages capital_question) 0%Z
  = (inr plain_answer, 0%Z) ∧
  (tool_calls plain_answer = None ∨ tool_calls plain_answer = Some []) ∧
  model_stream (convertToLangChainMessages capital_question) 0%Z
  = ((fragments, None), 0%Z) ∧
  createStreamingResponse capital_question (fresh 0%Z)
  = (inr tt,
     {| world := 0%Z;
        calls := [InvokeCall (convertToLangChainMessages capital_question);
                  StreamCall (convertToLangChainMessages capital_question)];
        delivered := [];
        queue := map sse_frame (flat_map forwarded_direct fragments)
                 ++ [done_frame];
        closed := true |}).
Proof.
  split; [reflexivity|]. split; [by right|]. split; [reflexivity|].
  apply (direct_answer_response capital_question 0%Z plain_answer 0%Z
           fragments None 0%Z);
    [reflexivity | by right | reflexivity].
Defined.

Lemma streamChat_quiet_callback_witness :
  (∀ chunk w0, (SampleMore.quiet chunk w0).1 = None) ∧
  model_stream (convertToLangChainMessages capital_question) 0%Z
  = ((fragments, None), 0%Z) ∧
  ∃ w2,
    streamChat capital_question SampleMore.quiet (fresh 0%Z)
    = (inr tt,
       {| world := w2;
          calls := [StreamCall (convertToLangChainMessages capital_question)];
          delivered := flat_map forwarded_direct fragments ++ [];
          queue := []; closed := false |}).
Proof.
  split; [reflexivity|]. split; [reflexivity|].
  apply (streamChat_quiet_callback capital_question SampleMore.quiet 0%Z
           fragments None 0%Z);
    reflexivity.
Defined.

Lemma addDocumentsToVectorStore_documents_witness :
  createVectorStore "rag-documents" ollama None 1700000000000%Z
  = (inr tt, 1700000000000%Z) ∧
  ∃ docs ids w3,
    addDocumentsToVectorStore ["Paris"; "Lyon"] None "rag-documents" ollama None
      1700000000000%Z
    = (match (@addDocuments _ SampleStore.online tt docs ids w3).1 with
       | inr _ => inr ids
       | inl error => inl error
       end, (@addDocuments _ SampleStore.online tt docs ids w3).2) ∧
    List.length docs = 2 ∧
    List.length ids = 2 ∧
    ∀ i text, ["Paris"; "Lyon"] !! i = Some text →
      ∃ doc, docs !! i = Some doc ∧ pageContent doc = text ∧
        match (None : option (list Metadata)) ≫= (λ l, l !! i) with
        | Some m => VectorStore.metadata doc = m
        | None =>
            VectorStore.metadata doc
            = <["index" := pretty i]>
                (<["timestamp" :=
                     pretty (@clock_reading _ SampleStore.online
                               (i - List.length
                                      (default [] (None : option (list Metadata))))
                               1700000000000%Z)]> ∅)
        end.
Proof.
  split; [reflexivity|].
  apply (@addDocumentsToVectorStore_documents _ SampleStore.online
           ["Paris"; "Lyon"] None "rag-documents" ollama None
           1700000000000%Z tt 1700000000000%Z).
  reflexivity.
Defined.

Lemma sse_frame_inj_witness :
  sse_frame (content_chunk "Par") = sse_frame (content_chunk "Par") ∧
  content_chunk "Par" = content_chunk "Par".
Proof.
  split; [reflexivity|].
  apply (sse_frame_inj (content_chunk "Par") (content_chunk "Par")).
  reflexivity.
Defined.

Lemma parse_reads_chunks (c : StreamChunk) :
  SamplePage.parse (JSON_stringify c)
  = Some (type_name (type c), default "undefined" (chunk_content c)).
Proof. unfold SamplePage.parse. by rewrite chunk_object_JSON_stringify. Qed.

Lemma page_reads_frames_witness :
  let placeholder :=
    {| ChatPage.role := assistant; ChatPage.content := "";
       ChatPage.thinking := Some "" |} in
  let asked :=
    {| ChatPage.role := user; ChatPage.content := "hi";
       ChatPage.thinking := None |} in
  Forall (λ c, SamplePage.parse (JSON_stringify c)
               = Some (type_name (type c), default "undefined" (chunk_content c)))
         SampleNetwork.answer_chunks ∧
  concat SampleNetwork.reads
  = concat (map sse_frame SampleNetwork.answer_chunks) ++ done_frame ++ [] ∧
  foldl (λ p c, shows c p) [asked; placeholder] SampleNetwork.answer_chunks
  = [asked;
     {| ChatPage.role := assistant; ChatPage.content := "Paris.";
        ChatPage.thinking := Some "capital?" |}] ∧
  ChatPage.read_loop SamplePage.parse SampleNetwork.reads [] ""
    [asked; placeholder]
  = (foldl (λ p c, shows c p) [asked; placeholder] SampleNetwork.answer_chunks,
     true).
Proof.
  intros placeholder asked.
  split; [repeat constructor|]. split; [by vm_compute|].
  split; [by vm_compute|].
  apply (page_reads_frames SamplePage.parse SampleNetwork.answer_chunks
           SampleNetwork.reads [asked; placeholder] true []);
    [repeat constructor | by vm_compute].
Defined.

Lemma handleSubmit_shows_answer_witness :
  Js.truthy "hi" = true ∧
  ChatPage.isLoading SampleNetwork.asking = false ∧
  SampleNetwork.fetch [{| role := user; content := "hi" |}] 0%Z
  = (inr {| ChatPage.ok := true;
            ChatPage.body := Some (SampleNetwork.reads, None) |}, 1%Z) ∧
  Forall (λ c, SamplePage.parse (JSON_stringify c)
               = Some (type_name (type c), default "undefined" (chunk_content c)))
         SampleNetwork.answer_chunks ∧
  concat SampleNetwork.reads
  = concat (map sse_frame SampleNetwork.answer_chunks) ++ done_frame ++ [] ∧
  ChatPage.handleSubmit SamplePage.parse SampleNetwork.fetch "hi"
    SampleNetwork.asking 0%Z
  = ({| ChatPage.messages :=
          [{| ChatPage.role := user; ChatPage.content := "hi";
              ChatPage.thinking := None |};
           {| ChatPage.role := assistant; ChatPage.content := "Paris.";
              ChatPage.thinking := Some "capital?" |}];
        ChatPage.input := "";
        ChatPage.isLoading := false |}, 1%Z).
Proof.
  split; [reflexivity|]. split; [reflexivity|]. split; [reflexivity|].
  split; [repeat constructor|]. split; [by vm_compute|].
  apply (handleSubmit_shows_answer SamplePage.parse SampleNetwork.fetch "hi"
           SampleNetwork.asking 0%Z 1%Z
           {| ChatPage.ok := true;
              ChatPage.body := Some (SampleNetwork.reads, None) |}
           SampleNetwork.reads None SampleNetwork.answer_chunks true []);
    [reflexivity | reflexivity | reflexivity | reflexivity | reflexivity
    | repeat constructor | by vm_compute].
Defined.

Lemma page_shows_route_stream_witness :
  (∀ c, SamplePage.parse (JSON_stringify c)
        = Some (type_name (type c), default "undefined" (chunk_content c))) ∧
  (Route.POST SampleStore.no_env (Route.Turns capital_question) 0%Z).1
  = inr (Route.EventStream SampleNetwork.route_frames) ∧
  concat SampleNetwork.route_reads = concat SampleNetwork.route_frames ∧
  ∃ chunks failure,
    SampleNetwork.route_frames = map sse_frame chunks ++ [last_frame failure] ∧
    Forall (λ c, type c = Content ∨ type c = Thinking) chunks ∧
    ChatPage.read_loop SamplePage.parse SampleNetwork.route_reads [] ""
      ([] ++ [{| ChatPage.role := assistant; ChatPage.content := "";
                 ChatPage.thinking := Some "" |}])
    = ([] ++ [{| ChatPage.role := assistant;
                 ChatPage.content := texts_of Content chunks;
                 ChatPage.thinking := Some (texts_of Thinking chunks) |}],
       match failure with None => true | Some _ => false end).
Proof.
  split; [apply parse_reads_chunks|].
  split; [by vm_compute|]. split; [by vm_compute|].
  apply (page_shows_route_stream SamplePage.parse SampleStore.no_env
           capital_question 0%Z SampleNetwork.route_frames
           SampleNetwork.route_reads []);
    [apply parse_reads_chunks | by vm_compute | by vm_compute].
Defined.

Lemma executeRetrievalChain_outcome_witness :
  let retrieved :=
    [{| Prompt.content := "Paris is the capital of France.";
        Prompt.metadata := ∅ |}] in
  Chain.search SampleStore.no_env "What is the capital of France?"
    SampleNetwork.no_options 0%Z
  = (inr [{| pageContent := "Paris is the capital of France.";
             VectorStore.metadata := ∅ |}], 0%Z) ∧
  model_stream
    (convertToLangChainMessages
       [{| role := user;
           content := buildPrompt "What is the capital of France?" retrieved |}])
    0%Z
  = ((fragments, None), 0%Z) ∧
  (Chain.executeRetrievalChain SampleStore.no_env "What is the capital of France?"
     SampleNetwork.no_options 0%Z).1
  = inr {| Chain.query := "What is the capital of France?";
           Chain.retrievedDocuments := retrieved;
           Chain.answer := "Paris." |}.
Proof.
  split; [reflexivity|]. split; [reflexivity|].
  apply (executeRetrievalChain_outcome SampleStore.no_env
           "What is the capital of France?" SampleNetwork.no_options 0%Z
           [{| pageContent := "Paris is the capital of France.";
               VectorStore.metadata := ∅ |}] 0%Z fragments None 0%Z);
    reflexivity.
Defined.

End ScriptedWitnesses.

Section OtherWitnesses.
Import VectorStore Embedding TimeTool.
Example embedDocuments_plain_object_not_found :
  (@embedDocuments _ SampleEmbedder.missing_plain SampleEmbedder.no_env
     ["Paris"] ollama None 0%Z).1
  = inl (Js.ErrorObject "Error" (not_found_message "nomic-embed-text")).
Proof. vm_compute. reflexivity. Qed.

Example embedDocuments_openai_rethrows :
  (@embedDocuments _ SampleEmbedder.missing_plain SampleEmbedder.no_env
     ["Paris"] openai None 0%Z).1
  = inl (Js.ObjectValue "[object Object]"
           (Some "model 'nomic-embed-text' not found") None).
Proof. reflexivity. Qed.

Lemma embedChunks_aligned_witness :
  @embedDocuments _ SampleEmbedder.one_vector SampleEmbedder.no_env
    ["Paris"; "Lyon"] ollama None 0%Z
  = (inr ([[1; 2; 3]%Z] : list (@Vector _ SampleEmbedder.one_vector)), 1%Z) ∧
  ∃ result,
    @embedChunks _ SampleEmbedder.one_vector SampleEmbedder.no_env
      ["Paris"; "Lyon"] ollama None 0%Z
    = (inr result, 1%Z) ∧
    List.length result = 2 ∧
    (∀ i chunk, ["Paris"; "Lyon"] !! i = Some chunk →
       result !! i
       = Some {| text := chunk;
                 embedding :=
                   ([[1; 2; 3]%Z] : list (@Vector _ SampleEmbedder.one_vector)) !! i;
                 index := i |}) ∧
    (∀ i element, result !! i = Some element →
       1 ≤ i → embedding element = None).
Proof.
  split; [reflexivity|].
  apply (@embedChunks_aligned _ SampleEmbedder.one_vector SampleEmbedder.no_env
           ["Paris"; "Lyon"] ollama None 0%Z
           ([[1; 2; 3]%Z] : list (@Vector _ SampleEmbedder.one_vector)) 1%Z).
  reflexivity.
Defined.

Lemma getFormattedTime_layout_witness :
  0 < 12 ∧ 1 ≤ 31 ∧ 8 < 24 ∧ 5 < 60 ∧ 0 < 60 ∧
  getFormattedTime SampleNetwork.new_year None = "2026-01-01 08:05:00" ∧
  getFormattedTime SampleNetwork.new_year (Some Full) = "2026-01-01 08:05:00" ∧
  "2026-01-01 08:05:00" = "2026-01-01" +:+ " " +:+ "08:05:00" ∧
  String.length "08:05:00" = 8 ∧
  String.length "2026-01-01" = String.length "2026" + 6.
Proof.
  do 5 (split; [simpl; lia|]).
  apply (getFormattedTime_layout SampleNetwork.new_year); simpl; lia.
Defined.

End OtherWitnesses.
